(** * pgraft: replication and application pipeline

    A shallow embedding of the C sources of pgraft (the Raft layer that runs
    inside a PostgreSQL background worker) and the properties of

    - the log replication tracker      (src/pgraft_log.c),
    - the command and apply queues     (src/pgraft_util.c),
    - the cluster descriptor           (src/pgraft_core.c),
    - the key/value store              (src/pgraft_kv.c),
    - the cluster state file           (src/pgraft.c),
    - the apply pipeline               (src/pgraft_apply.c).

    Conventions of the embedding.

    - A fixed C array is a [list] read with [!!] and written with [<[i:=x]>];
      the element count kept next to it ([log_size], [num_entries], ...) is a
      separate field, as in the structs.
    - [int64_t] and [int32_t] values are [Z]; every [++] and [+ 1] of the
      source is followed by its two's complement wrap-around.
    - A [char] buffer holding a C string is a [string] (the bytes before the
      terminating NUL); a raw byte buffer is a [list byte].
    - A pointer that may be NULL is an [option].
    - Where the C code dereferences NULL or leaves a buffer, the outcome is
      [Undefined] and the state of the model is left as it was.
    - [elog(ERROR, ...)] does not return in PostgreSQL: it is the [Raise]
      outcome.  Messages of lower levels are not part of the state and are
      dropped.
    - Each function is the sequential code between [SpinLockAcquire] and
      [SpinLockRelease]; the lock itself is not a field of the model. *)

From stdpp Require Import base numbers list strings gmap pretty sorting.
From Stdlib Require Import ZArith Lia.
From Stdlib.Strings Require Import Ascii Byte.

Local Open Scope Z_scope.

(** ** Machine integers *)

Definition INT64_MAX : Z := 2 ^ 63 - 1.
Definition INT32_MAX : Z := 2 ^ 31 - 1.

Definition wrap64 (z : Z) : Z := (z + 2 ^ 63) `mod` 2 ^ 64 - 2 ^ 63.
Definition wrap32 (z : Z) : Z := (z + 2 ^ 31) `mod` 2 ^ 32 - 2 ^ 31.

(** ** Outcomes of a call *)

Inductive outcome (A : Type) : Type :=
  | Ret (a : A)              (* the function returned [a] *)
  | Raise (msg : string)     (* elog(ERROR, msg): control leaves the function *)
  | Undefined.               (* NULL dereference or access outside a buffer *)
Arguments Ret {A} a.
Arguments Raise {A} msg.
Arguments Undefined {A}.

(** memcpy(dst, src, n): the first [n] bytes of [dst] are replaced. *)
Definition memcpy {A} (dst src : list A) (n : nat) : list A :=
  take n src ++ drop n dst.

(** ** Constants of include/pgraft_core.h

    The header that declares the worker state, the command and apply entry
    structs and their limits is not among the sources; the functions below
    only use these constants of it, which stay parameters. *)

Class pgraft_core_h := {
  MAX_COMMANDS : Z;
  MAX_APPLY_ENTRIES : Z;
  sizeof_address : nat;        (* pgraft_command_t.address *)
  sizeof_cluster_id : nat;     (* pgraft_command_t.cluster_id *)
  sizeof_log_data : nat;       (* pgraft_command_t.log_data *)
  sizeof_kv_key : nat;         (* pgraft_command_t.kv_key *)
  sizeof_kv_value : nat;       (* pgraft_command_t.kv_value *)
  sizeof_kv_client_id : nat;   (* pgraft_command_t.kv_client_id *)
  sizeof_apply_data : nat;     (* pgraft_apply_entry_t.data *)
  sizeof_cluster_state : nat;  (* pgraft_cluster_t.state *)
  sizeof_node_address : nat    (* pgraft_node_t.address *)
}.

(** strncpy(dst, src, size - 1); dst[size - 1] = 0: the string left in a
    buffer of [size] bytes. *)
Definition strncpy0 (size : nat) (src : string) : string :=
  String.substring 0 (size - 1) src.


(** ** Log replication tracker (src/pgraft_log.c) *)

Module Log.

Record pgraft_log_entry_t := mk_entry {
  index : Z;
  term : Z;
  timestamp : Z;
  data : list byte;
  data_size : Z;
  committed : Z;
  applied : Z
}.

Record pgraft_log_state_t := mk_state {
  entries : list pgraft_log_entry_t;
  log_size : Z;
  last_index : Z;
  commit_index : Z;
  last_applied : Z;
  entries_replicated : Z;
  entries_committed : Z;
  entries_applied : Z;
  replication_errors : Z
}.

Definition LOG_CAPACITY : Z := 1000.

(** Size of the [data] buffer of an entry.  The struct is declared in
    include/pgraft_log.h, which is not among the sources;
    [pgraft_log_append_entry] accepts 1024 payload bytes and writes a NUL
    after them, so 1025 bytes are taken here.  No property below depends on
    the number. *)
Definition LOG_DATA_BUF : nat := 1025.

Definition zero_entry : pgraft_log_entry_t :=
  mk_entry 0 0 0 (replicate LOG_DATA_BUF x00) 0 0 0.

#[export] Instance entry_inhabited : Inhabited pgraft_log_entry_t :=
  populate zero_entry.

(** pgraft_log_init_shared_memory, the branch taken when the segment is new:
    memset to zero, then the counters set to 0. *)
Definition pgraft_log_init_shared_memory : pgraft_log_state_t :=
  mk_state (replicate (Z.to_nat LOG_CAPACITY) zero_entry) 0 0 0 0 0 0 0 0.

Definition set_entries (es : list pgraft_log_entry_t) (n : Z)
    (st : pgraft_log_state_t) : pgraft_log_state_t :=
  mk_state es n (last_index st) (commit_index st) (last_applied st)
           (entries_replicated st) (entries_committed st) (entries_applied st)
           (replication_errors st).

(** memcpy reads [n] bytes of the source and entry->data[data_size] = 0
    writes at a non-negative offset. *)
Definition readable (data0 : option (list byte)) (n : Z) : Prop :=
  0 <= n /\ match data0 with
            | Some bytes => n <= Z.of_nat (length bytes)
            | None => True
            end.

#[export] Instance readable_dec data0 n : Decision (readable data0 n).
Proof. unfold readable. destruct data0; apply _. Defined.

(** pgraft_log_append_entry.  [now] is the value of GetCurrentTimestamp(). *)
Definition pgraft_log_append_entry (term0 : Z) (data0 : option (list byte))
    (data_size0 : Z) (now : Z) (st : pgraft_log_state_t)
    : outcome Z * pgraft_log_state_t :=
  if bool_decide (data_size0 > 1024) then
    (Raise "data size exceeds maximum 1024", st)
  else if bool_decide (log_size st >= LOG_CAPACITY) then
    (Raise "log is full (1000 entries)", st)
  else if bool_decide (~ readable data0 data_size0) then (Undefined, st)
  else
    let slot := Z.to_nat (log_size st) in
    let old := entries st !!! slot in
    let idx := wrap64 (last_index st + 1) in
    let buf :=
      match data0 with
      | Some bytes =>
          if bool_decide (data_size0 > 0)
          then memcpy (data old) bytes (Z.to_nat data_size0)
          else data old
      | None => data old
      end in
    let buf := <[Z.to_nat data_size0 := x00]> buf in
    let entry := mk_entry idx term0 now buf data_size0 0 0 in
    (Ret 0,
     mk_state (<[slot := entry]> (entries st)) (wrap32 (log_size st + 1)) idx
              (commit_index st) (last_applied st) (entries_replicated st)
              (entries_committed st) (entries_applied st)
              (replication_errors st)).

(** The scan shared by commit, apply and get_entry:
    for (i = 0; i < log_size; i++) if (entries[i].index == index) ...
    [find_from n i] looks at the slots i, i+1, ..., i+n-1. *)
Fixpoint find_from (es : list pgraft_log_entry_t) (idx : Z) (n : nat) (i : nat)
    : option nat :=
  match n with
  | O => None
  | S n' =>
      if bool_decide (index (es !!! i) = idx) then Some i
      else find_from es idx n' (S i)
  end.

Definition find_entry (st : pgraft_log_state_t) (idx : Z) : option nat :=
  find_from (entries st) idx (Z.to_nat (log_size st)) 0.

(** pgraft_log_commit_entry *)
Definition pgraft_log_commit_entry (idx : Z) (st : pgraft_log_state_t)
    : outcome Z * pgraft_log_state_t :=
  match find_entry st idx with
  | Some i =>
      let e := entries st !!! i in
      let e' := mk_entry (index e) (term e) (timestamp e) (data e)
                         (data_size e) 1 (applied e) in
      (Ret 0,
       mk_state (<[i := e']> (entries st)) (log_size st) (last_index st)
                (if bool_decide (idx > commit_index st) then idx
                 else commit_index st)
                (last_applied st) (entries_replicated st)
                (wrap64 (entries_committed st + 1)) (entries_applied st)
                (replication_errors st))
  | None => (Ret (-1), st)
  end.

(** pgraft_log_apply_entry *)
Definition pgraft_log_apply_entry (idx : Z) (st : pgraft_log_state_t)
    : outcome Z * pgraft_log_state_t :=
  match find_entry st idx with
  | Some i =>
      let e := entries st !!! i in
      if bool_decide (committed e = 0) then (Ret (-1), st)
      else
        let e' := mk_entry (index e) (term e) (timestamp e) (data e)
                           (data_size e) (committed e) 1 in
        (Ret 0,
         mk_state (<[i := e']> (entries st)) (log_size st) (last_index st)
                  (commit_index st)
                  (if bool_decide (idx > last_applied st) then idx
                   else last_applied st)
                  (entries_replicated st) (entries_committed st)
                  (wrap64 (entries_applied st + 1)) (replication_errors st))
  | None => (Ret (-1), st)
  end.

(** The inner loop of the cleanup:
    for (j = i; j < log_size - 1; j++) entries[j] = entries[j + 1];
    [n] is its trip count, log_size - 1 - i. *)
Fixpoint shift_down (n : nat) (j : nat) (es : list pgraft_log_entry_t)
    : list pgraft_log_entry_t :=
  match n with
  | O => es
  | S n' => shift_down n' (S j) (<[j := es !!! S j]> es)
  end.

(** The outer loop of the cleanup.  An iteration either removes slot [i]
    (log_size--, and i-- followed by the loop's i++ leaves [i] in place) or
    moves on to [i + 1]; [fuel] bounds the number of iterations. *)
Fixpoint cleanup_loop (fuel : nat) (before_index : Z) (i : Z) (removed : Z)
    (st : pgraft_log_state_t) : pgraft_log_state_t * Z :=
  match fuel with
  | O => (st, removed)
  | S fuel' =>
      if bool_decide (i < log_size st) then
        if bool_decide (index (entries st !!! Z.to_nat i) < before_index) then
          let es := shift_down (Z.to_nat (log_size st - 1 - i)) (Z.to_nat i)
                               (entries st) in
          cleanup_loop fuel' before_index i (removed + 1)
                       (set_entries es (log_size st - 1) st)
        else cleanup_loop fuel' before_index (i + 1) removed st
      else (st, removed)
  end.

(** pgraft_log_cleanup_old_entries: every iteration decreases log_size - i,
    so log_size iterations are enough (see [cleanup_loop_done]). *)
Definition pgraft_log_cleanup_old_entries (before_index : Z)
    (st : pgraft_log_state_t) : pgraft_log_state_t :=
  (cleanup_loop (Z.to_nat (log_size st)) before_index 0 0 st).1.

(** The entries in use: the first [log_size] slots. *)
Definition live (st : pgraft_log_state_t) : list pgraft_log_entry_t :=
  take (Z.to_nat (log_size st)) (entries st).

(** Calls made on the tracker.  [Append] is the call of pgraft_log_append:
    the payload with its length. *)
Inductive log_op :=
  | Append (term0 : Z) (payload : list byte) (now : Z)
  | Commit (idx : Z)
  | Apply (idx : Z)
  | Cleanup (before_index : Z).

Definition exec (op : log_op) (st : pgraft_log_state_t)
    : outcome Z * pgraft_log_state_t :=
  match op with
  | Append t d now =>
      pgraft_log_append_entry t (Some d) (Z.of_nat (length d)) now st
  | Commit i => pgraft_log_commit_entry i st
  | Apply i => pgraft_log_apply_entry i st
  | Cleanup b => (Ret 0, pgraft_log_cleanup_old_entries b st)
  end.

Definition run (ops : list log_op) (st : pgraft_log_state_t)
    : pgraft_log_state_t :=
  foldl (λ s op, (exec op s).2) st ops.

(** The indices handed out by the appends of [ops] that succeed, in order. *)
Fixpoint assigned (ops : list log_op) (st : pgraft_log_state_t) : list Z :=
  match ops with
  | [] => []
  | op :: ops' =>
      let '(r, st') := exec op st in
      match op, r with
      | Append _ _ _, Ret 0 => last_index st' :: assigned ops' st'
      | _, _ => assigned ops' st'
      end
  end.

(** *** Predicates used to state the properties of the tracker *)

(** [log_size] lies inside the array. *)
Definition well_formed (st : pgraft_log_state_t) : Prop :=
  0 <= log_size st /\ (Z.to_nat (log_size st) <= length (entries st))%nat.

(** The entries a cleanup leaves in place. *)
Definition keep (before_index : Z) (e : pgraft_log_entry_t) : Prop :=
  ~ (index e < before_index).

#[export] Instance keep_dec b e : Decision (keep b e).
Proof. unfold keep. apply _. Defined.

Definition same_counters (st st' : pgraft_log_state_t) : Prop :=
  last_index st' = last_index st /\ commit_index st' = commit_index st /\
  last_applied st' = last_applied st /\
  entries_replicated st' = entries_replicated st /\
  entries_committed st' = entries_committed st /\
  entries_applied st' = entries_applied st /\
  replication_errors st' = replication_errors st.

Definition indices (st : pgraft_log_state_t) : list Z := index <$> live st.

Record log_inv (st : pgraft_log_state_t) : Prop := mk_log_inv {
  inv_length : length (entries st) = Z.to_nat LOG_CAPACITY;
  inv_size : 0 <= log_size st <= LOG_CAPACITY;
  inv_last : 0 <= last_index st;
  inv_sorted : StronglySorted Z.lt (indices st);
  inv_bound : Forall (fun z => 1 <= z <= last_index st) (indices st)
}.

(** *** The rest of src/pgraft_log.c *)

(** pgraft_log_get_entry, called with a valid [entry] pointer: the return
    code and the copy stored through the pointer. *)
Definition pgraft_log_get_entry (idx : Z) (st : pgraft_log_state_t)
    : Z * option pgraft_log_entry_t :=
  match find_entry st idx with
  | Some i => (0, Some (entries st !!! i))
  | None => (-1, None)
  end.

(** pgraft_log_get_last_index, pgraft_log_get_commit_index and
    pgraft_log_get_last_applied, called with valid pointers. *)
Definition pgraft_log_get_last_index (st : pgraft_log_state_t) : Z * Z :=
  (0, last_index st).
Definition pgraft_log_get_commit_index (st : pgraft_log_state_t) : Z * Z :=
  (0, commit_index st).
Definition pgraft_log_get_last_applied (st : pgraft_log_state_t) : Z * Z :=
  (0, last_applied st).

(** The loop of pgraft_log_replicate_to_node over the slots i, ..., i+n-1:
    entries_to_replicate++ for every index at or above [from_index]. *)
Fixpoint count_from (es : list pgraft_log_entry_t) (from_index : Z)
    (n i : nat) (entries_to_replicate : Z) : Z :=
  match n with
  | O => entries_to_replicate
  | S n' =>
      count_from es from_index n' (S i)
        (if bool_decide (index (es !!! i) >= from_index)
         then wrap32 (entries_to_replicate + 1)
         else entries_to_replicate)
  end.

(** pgraft_log_replicate_to_node *)
Definition pgraft_log_replicate_to_node (node_id from_index : Z)
    (st : pgraft_log_state_t) : Z * pgraft_log_state_t :=
  let n := count_from (entries st) from_index (Z.to_nat (log_size st)) 0 0 in
  (0,
   mk_state (entries st) (log_size st) (last_index st) (commit_index st)
            (last_applied st) (wrap64 (entries_replicated st + n))
            (entries_committed st) (entries_applied st)
            (replication_errors st)).

(** pgraft_log_reset: the counters are zeroed, the array is left as it is. *)
Definition pgraft_log_reset (st : pgraft_log_state_t) : pgraft_log_state_t :=
  mk_state (entries st) 0 0 0 0 0 0 0 0.

(** What the commit and apply flags of the entries in use and the three
    index counters obey: an applied entry is committed, a committed entry is
    covered by commit_index, and last_applied <= commit_index <= last_index. *)
Definition flags_ordered (st : pgraft_log_state_t) : Prop :=
  Forall (fun e => (applied e <> 0 -> committed e <> 0) /\
                   (committed e <> 0 -> index e <= commit_index st))
         (live st) /\
  last_applied st <= commit_index st <= last_index st.

End Log.
(** ** Command queue and apply queue (src/pgraft_util.c) *)

Module Queue.
Section with_header.
Context `{pgraft_core_h}.

Inductive COMMAND_TYPE :=
  | COMMAND_INIT | COMMAND_ADD_NODE | COMMAND_REMOVE_NODE
  | COMMAND_LOG_APPEND | COMMAND_LOG_COMMIT | COMMAND_LOG_APPLY
  | COMMAND_KV_PUT | COMMAND_KV_DELETE | COMMAND_SHUTDOWN.

Inductive COMMAND_STATUS :=
  | COMMAND_STATUS_PENDING | COMMAND_STATUS_PROCESSING
  | COMMAND_STATUS_COMPLETED | COMMAND_STATUS_FAILED.

Inductive WORKER_STATUS :=
  | WORKER_STATUS_STOPPED | WORKER_STATUS_INITIALIZING
  | WORKER_STATUS_RUNNING | WORKER_STATUS_STOPPING.

Record pgraft_command_t := mk_command {
  type : COMMAND_TYPE;
  node_id : Z;
  address : string;
  port : Z;
  cluster_id : string;
  log_data : string;
  log_index : Z;
  kv_key : string;
  kv_value : string;
  kv_client_id : string;
  status : COMMAND_STATUS;
  error_message : string;
  timestamp : Z
}.

Record pgraft_apply_entry_t := mk_apply_entry {
  raft_index : Z;
  data : list byte;
  data_len : Z;
  applied : bool
}.

Record pgraft_worker_state_t := mk_worker {
  w_node_id : Z;
  w_address : string;
  w_port : Z;
  w_status : WORKER_STATUS;
  commands : list pgraft_command_t;
  command_head : Z;
  command_tail : Z;
  command_count : Z;
  status_commands : list pgraft_command_t;
  status_head : Z;
  status_tail : Z;
  status_count : Z;
  apply_queue : list pgraft_apply_entry_t;
  apply_head : Z;
  apply_tail : Z;
  apply_count : Z;
  last_applied_index : Z
}.

Definition zero_command : pgraft_command_t :=
  mk_command COMMAND_INIT 0 EmptyString 0 EmptyString EmptyString 0
             EmptyString EmptyString EmptyString COMMAND_STATUS_PENDING
             EmptyString 0.

Definition zero_apply_entry : pgraft_apply_entry_t :=
  mk_apply_entry 0 (replicate sizeof_apply_data x00) 0 false.

#[export] Instance command_inhabited : Inhabited pgraft_command_t :=
  populate zero_command.
#[export] Instance apply_entry_inhabited : Inhabited pgraft_apply_entry_t :=
  populate zero_apply_entry.

(** pgraft_worker_get_state, first attach: the segment comes zeroed from the
    postmaster and the fields below are set. *)
Definition pgraft_worker_get_state_init : pgraft_worker_state_t :=
  mk_worker 0 "127.0.0.1" 0 WORKER_STATUS_STOPPED
            (replicate (Z.to_nat MAX_COMMANDS) zero_command) 0 0 0
            (replicate (Z.to_nat MAX_COMMANDS) zero_command) 0 0 0
            (replicate (Z.to_nat MAX_APPLY_ENTRIES) zero_apply_entry) 0 0 0
            0.

(** The writes to the command ring: one slot, the tail and the count. *)
Definition set_command_ring (cmds : list pgraft_command_t) (tail count : Z)
    (st : pgraft_worker_state_t) : pgraft_worker_state_t :=
  mk_worker (w_node_id st) (w_address st) (w_port st) (w_status st)
            cmds (command_head st) tail count
            (status_commands st) (status_head st) (status_tail st)
            (status_count st)
            (apply_queue st) (apply_head st) (apply_tail st) (apply_count st)
            (last_applied_index st).

Definition set_apply_ring (q : list pgraft_apply_entry_t) (head tail count : Z)
    (st : pgraft_worker_state_t) : pgraft_worker_state_t :=
  mk_worker (w_node_id st) (w_address st) (w_port st) (w_status st)
            (commands st) (command_head st) (command_tail st)
            (command_count st)
            (status_commands st) (status_head st) (status_tail st)
            (status_count st)
            q head tail count (last_applied_index st).

Definition set_last_applied_index (idx : Z) (st : pgraft_worker_state_t)
    : pgraft_worker_state_t :=
  mk_worker (w_node_id st) (w_address st) (w_port st) (w_status st)
            (commands st) (command_head st) (command_tail st)
            (command_count st)
            (status_commands st) (status_head st) (status_tail st)
            (status_count st)
            (apply_queue st) (apply_head st) (apply_tail st) (apply_count st)
            idx.

Definition opt_strncpy0 (size : nat) (src : option string) : string :=
  match src with
  | Some s => strncpy0 size s
  | None => EmptyString
  end.

(** pgraft_queue_command.  [now] is the value of time(NULL). *)
Definition pgraft_queue_command (ty : COMMAND_TYPE) (node : Z)
    (addr : option string) (port0 : Z) (cluster : option string) (now : Z)
    (st : pgraft_worker_state_t) : bool * pgraft_worker_state_t :=
  if bool_decide (command_count st >= MAX_COMMANDS) then (false, st)
  else
    let slot := Z.to_nat (command_tail st) in
    let old := commands st !!! slot in
    let cmd := mk_command ty node (opt_strncpy0 sizeof_address addr) port0
                 (opt_strncpy0 sizeof_cluster_id cluster)
                 (log_data old) (log_index old) (kv_key old) (kv_value old)
                 (kv_client_id old) COMMAND_STATUS_PENDING EmptyString now in
    (true,
     set_command_ring (<[slot := cmd]> (commands st))
       (Z.rem (command_tail st + 1) MAX_COMMANDS)
       (wrap32 (command_count st + 1)) st).

(** pgraft_queue_log_command *)
Definition pgraft_queue_log_command (ty : COMMAND_TYPE)
    (log_data0 : option string) (log_index0 : Z) (now : Z)
    (st : pgraft_worker_state_t) : bool * pgraft_worker_state_t :=
  if bool_decide (command_count st >= MAX_COMMANDS) then (false, st)
  else
    let slot := Z.to_nat (command_tail st) in
    let old := commands st !!! slot in
    let cmd := mk_command ty 0 EmptyString 0 EmptyString
                 (opt_strncpy0 sizeof_log_data log_data0) log_index0
                 (kv_key old) (kv_value old) (kv_client_id old)
                 COMMAND_STATUS_PENDING EmptyString now in
    (true,
     set_command_ring (<[slot := cmd]> (commands st))
       (Z.rem (command_tail st + 1) MAX_COMMANDS)
       (wrap32 (command_count st + 1)) st).

(** pgraft_queue_kv_command *)
Definition pgraft_queue_kv_command (ty : COMMAND_TYPE) (key value : option string)
    (client_id : option string) (now : Z)
    (st : pgraft_worker_state_t) : bool * pgraft_worker_state_t :=
  if bool_decide (command_count st >= MAX_COMMANDS) then (false, st)
  else
    let slot := Z.to_nat (command_tail st) in
    let old := commands st !!! slot in
    let cmd := mk_command ty 0 EmptyString 0 EmptyString
                 (log_data old) (log_index old)
                 (opt_strncpy0 sizeof_kv_key key)
                 (opt_strncpy0 sizeof_kv_value value)
                 (opt_strncpy0 sizeof_kv_client_id client_id)
                 COMMAND_STATUS_PENDING EmptyString now in
    (true,
     set_command_ring (<[slot := cmd]> (commands st))
       (Z.rem (command_tail st + 1) MAX_COMMANDS)
       (wrap32 (command_count st + 1)) st).

(** pgraft_dequeue_command: the command at the head, if any. *)
Definition pgraft_dequeue_command (st : pgraft_worker_state_t)
    : option pgraft_command_t * pgraft_worker_state_t :=
  if bool_decide (command_count st = 0) then (None, st)
  else
    (Some (commands st !!! Z.to_nat (command_head st)),
     mk_worker (w_node_id st) (w_address st) (w_port st) (w_status st)
       (commands st) (Z.rem (command_head st + 1) MAX_COMMANDS)
       (command_tail st) (wrap32 (command_count st - 1))
       (status_commands st) (status_head st) (status_tail st)
       (status_count st)
       (apply_queue st) (apply_head st) (apply_tail st) (apply_count st)
       (last_applied_index st)).

(** The commands waiting in the ring, oldest first: the [n] slots from
    [head] on, modulo the capacity. *)
Fixpoint ring_contents {A} `{!Inhabited A} (ring : list A) (cap : Z)
    (head : Z) (n : nat) : list A :=
  match n with
  | O => []
  | S n' =>
      ring !!! Z.to_nat head :: ring_contents ring cap (Z.rem (head + 1) cap) n'
  end.

Definition queued_commands (st : pgraft_worker_state_t)
    : list pgraft_command_t :=
  ring_contents (commands st) MAX_COMMANDS (command_head st)
                (Z.to_nat (command_count st)).

(** pgraft_enqueue_apply_entry.  [data_len] is a size_t and [raft_index] a
    uint64: non-negative. *)
Definition pgraft_enqueue_apply_entry (raft_index0 : Z)
    (data0 : option (list byte)) (data_len0 : Z)
    (st : pgraft_worker_state_t) : bool * pgraft_worker_state_t :=
  if bool_decide (apply_count st >= MAX_APPLY_ENTRIES) then (false, st)
  else if bool_decide (data_len0 > Z.of_nat sizeof_apply_data) then (false, st)
  else
    let slot := Z.to_nat (apply_tail st) in
    let old := apply_queue st !!! slot in
    let buf :=
      match data0 with
      | Some bytes =>
          if bool_decide (data_len0 > 0)
          then memcpy (data old) bytes (Z.to_nat data_len0)
          else data old
      | None => data old
      end in
    let entry := mk_apply_entry raft_index0 buf data_len0 false in
    (true,
     set_apply_ring (<[slot := entry]> (apply_queue st)) (apply_head st)
       (Z.rem (apply_tail st + 1) MAX_APPLY_ENTRIES)
       (wrap32 (apply_count st + 1)) st).

(** pgraft_dequeue_apply_entry *)
Definition pgraft_dequeue_apply_entry (st : pgraft_worker_state_t)
    : option pgraft_apply_entry_t * pgraft_worker_state_t :=
  if bool_decide (apply_count st = 0) then (None, st)
  else
    (Some (apply_queue st !!! Z.to_nat (apply_head st)),
     set_apply_ring (apply_queue st)
       (Z.rem (apply_head st + 1) MAX_APPLY_ENTRIES) (apply_tail st)
       (wrap32 (apply_count st - 1)) st).

(** pgraft_queue_is_empty, pgraft_apply_queue_is_empty and
    pgraft_get_apply_queue_count *)
Definition pgraft_queue_is_empty (st : pgraft_worker_state_t) : bool :=
  bool_decide (command_count st = 0).

Definition pgraft_apply_queue_is_empty (st : pgraft_worker_state_t) : bool :=
  bool_decide (apply_count st = 0).

Definition pgraft_get_apply_queue_count (st : pgraft_worker_state_t) : Z :=
  apply_count st.

(** pgraft_enqueue_for_apply_from_go (src/pgraft_go_callbacks.c) *)
Definition pgraft_enqueue_for_apply_from_go (raft_index0 : Z)
    (data0 : option (list byte)) (data_len0 : Z)
    (st : pgraft_worker_state_t) : Z * pgraft_worker_state_t :=
  let '(ok, st') := pgraft_enqueue_apply_entry raft_index0 data0 data_len0 st in
  (if ok then 0 else -1, st').

(** The entries waiting in the apply ring, oldest first. *)
Definition queued_apply_entries (st : pgraft_worker_state_t)
    : list pgraft_apply_entry_t :=
  ring_contents (apply_queue st) MAX_APPLY_ENTRIES (apply_head st)
                (Z.to_nat (apply_count st)).

(** *** Status buffer *)

Section status_buffer.
(** sizeof(cmd->error_message), from the absent header. *)
Variable sizeof_error_message : nat.

Definition set_status_ring (cmds : list pgraft_command_t)
    (head tail count : Z) (st : pgraft_worker_state_t)
    : pgraft_worker_state_t :=
  mk_worker (w_node_id st) (w_address st) (w_port st) (w_status st)
            (commands st) (command_head st) (command_tail st)
            (command_count st)
            cmds head tail count
            (apply_queue st) (apply_head st) (apply_tail st) (apply_count st)
            (last_applied_index st).

(** pgraft_add_command_to_status: a full buffer gives up its oldest entry. *)
Definition pgraft_add_command_to_status (cmd : pgraft_command_t)
    (st : pgraft_worker_state_t) : bool * pgraft_worker_state_t :=
  let full := bool_decide (status_count st >= MAX_COMMANDS) in
  let head := if full then Z.rem (status_head st + 1) MAX_COMMANDS
              else status_head st in
  let count := if full then wrap32 (status_count st - 1)
               else status_count st in
  (true,
   set_status_ring (<[Z.to_nat (status_tail st) := cmd]> (status_commands st))
     head (Z.rem (status_tail st + 1) MAX_COMMANDS) (wrap32 (count + 1)) st).

(** The search loop of pgraft_get_command_status and
    pgraft_update_command_status, iterations i, ..., i+n-1: the slot of the
    first entry with the timestamp.  The sum [status_head + i] is an int
    below 2 * MAX_COMMANDS in a ring that is in order. *)
Fixpoint status_scan (st : pgraft_worker_state_t) (ts : Z) (n : nat) (i : Z)
    : option nat :=
  match n with
  | O => None
  | S n' =>
      let index := Z.to_nat (Z.rem (status_head st + i) MAX_COMMANDS) in
      if bool_decide (timestamp (status_commands st !!! index) = ts)
      then Some index
      else status_scan st ts n' (i + 1)
  end.

(** pgraft_get_command_status: the copy stored through [status_cmd], or
    None for false. *)
Definition pgraft_get_command_status (ts : Z) (st : pgraft_worker_state_t)
    : option pgraft_command_t :=
  (fun index => status_commands st !!! index)
    <$> status_scan st ts (Z.to_nat (status_count st)) 0.

Definition set_status (status0 : COMMAND_STATUS) (msg : option string)
    (c : pgraft_command_t) : pgraft_command_t :=
  mk_command (type c) (node_id c) (address c) (port c) (cluster_id c)
             (log_data c) (log_index c) (kv_key c) (kv_value c)
             (kv_client_id c) status0
             (match msg with
              | Some m => strncpy0 sizeof_error_message m
              | None => error_message c
              end)
             (timestamp c).

(** pgraft_update_command_status *)
Definition pgraft_update_command_status (ts : Z) (status0 : COMMAND_STATUS)
    (error_message0 : option string) (st : pgraft_worker_state_t)
    : bool * pgraft_worker_state_t :=
  match status_scan st ts (Z.to_nat (status_count st)) 0 with
  | Some index =>
      (true,
       set_status_ring
         (<[index := set_status status0 error_message0
                       (status_commands st !!! index)]> (status_commands st))
         (status_head st) (status_tail st) (status_count st) st)
  | None => (false, st)
  end.

Definition finished (c : pgraft_command_t) : bool :=
  match status c with
  | COMMAND_STATUS_COMPLETED | COMMAND_STATUS_FAILED => true
  | _ => false
  end.

Definition unfinished (c : pgraft_command_t) : Prop := finished c = false.

#[export] Instance unfinished_dec c : Decision (unfinished c).
Proof. unfold unfinished. apply _. Defined.



(** The commands tracked in the status buffer, oldest first. *)
Definition tracked_commands (st : pgraft_worker_state_t)
    : list pgraft_command_t :=
  ring_contents (status_commands st) MAX_COMMANDS (status_head st)
                (Z.to_nat (status_count st)).

End status_buffer.

(** *** Predicates used to state the properties of the rings *)

(** A ring of [cap] slots whose [count] entries start at [head] and end
    before [tail]. *)
Definition ring_ok {A} (ring : list A) (cap head tail count : Z) : Prop :=
  length ring = Z.to_nat cap /\ 0 <= head < cap /\ 0 <= count <= cap /\
  tail = (head + count) mod cap.

Definition command_ring_ok (st : pgraft_worker_state_t) : Prop :=
  ring_ok (commands st) MAX_COMMANDS (command_head st) (command_tail st)
          (command_count st).

Definition apply_ring_ok (st : pgraft_worker_state_t) : Prop :=
  ring_ok (apply_queue st) MAX_APPLY_ENTRIES (apply_head st) (apply_tail st)
          (apply_count st).

Definition status_ring_ok (st : pgraft_worker_state_t) : Prop :=
  ring_ok (status_commands st) MAX_COMMANDS (status_head st) (status_tail st)
          (status_count st).

End with_header.
End Queue.

(** ** Cluster descriptor (src/pgraft_core.c) *)

Module Core.
Section with_header.
Context `{pgraft_core_h}.

Record pgraft_node_t := mk_node {
  id : Z;
  address : string;
  port : Z;
  is_leader : bool
}.

Record pgraft_cluster_t := mk_cluster {
  initialized : bool;
  node_id : Z;
  current_term : Z;
  leader_id : Z;
  state : string;
  num_nodes : Z;
  nodes : list pgraft_node_t;
  messages_processed : Z;
  heartbeats_sent : Z;
  elections_triggered : Z
}.

Definition zero_node : pgraft_node_t := mk_node 0 EmptyString 0 false.

#[export] Instance node_inhabited : Inhabited pgraft_node_t :=
  populate zero_node.

(** pgraft_core_init_shared_memory, the branch taken when the segment is
    new. *)
Definition pgraft_core_init_shared_memory : pgraft_cluster_t :=
  mk_cluster false (-1) 0 (-1) (strncpy0 sizeof_cluster_state "stopped") 0
             (replicate 16 zero_node) 0 0 0.

(** pgraft_core_init.  The address is copied with strncpy without a NULL
    test. *)
Definition pgraft_core_init (node_id0 : Z) (address0 : option string)
    (port0 : Z) (cluster : pgraft_cluster_t)
    : outcome Z * pgraft_cluster_t :=
  if initialized cluster then (Ret 0, cluster)
  else
    match address0 with
    | None => (Undefined, cluster)
    | Some a =>
        let node0 := mk_node node_id0 (strncpy0 sizeof_node_address a) port0
                             false in
        (Ret 0,
         mk_cluster true node_id0 0 (-1)
                    (strncpy0 sizeof_cluster_state "follower") 1
                    (<[0%nat := node0]> (nodes cluster)) 0 0 0)
    end.

(** pgraft_core_add_node *)
Definition pgraft_core_add_node (node_id0 : Z) (address0 : option string)
    (port0 : Z) (cluster : pgraft_cluster_t)
    : outcome Z * pgraft_cluster_t :=
  if negb (initialized cluster) then
    (Raise "cannot add node - core system not initialized", cluster)
  else if bool_decide (num_nodes cluster >= 16) then
    (Raise "maximum number of nodes (16) reached", cluster)
  else
    match address0 with
    | None => (Undefined, cluster)
    | Some a =>
        let node := mk_node node_id0 (strncpy0 sizeof_node_address a) port0
                            false in
        (Ret 0,
         mk_cluster (initialized cluster) (node_id cluster)
                    (current_term cluster) (leader_id cluster) (state cluster)
                    (wrap32 (num_nodes cluster + 1))
                    (<[Z.to_nat (num_nodes cluster) := node]> (nodes cluster))
                    (messages_processed cluster) (heartbeats_sent cluster)
                    (elections_triggered cluster))
    end.

(** pgraft_core_update_cluster_state *)
Definition pgraft_core_update_cluster_state (leader_id0 current_term0 : Z)
    (state0 : option string) (cluster : pgraft_cluster_t)
    : Z * pgraft_cluster_t :=
  if negb (initialized cluster) then (-1, cluster)
  else
    (0,
     mk_cluster (initialized cluster) (node_id cluster)
                (wrap32 current_term0) leader_id0
                (match state0 with
                 | Some s => strncpy0 sizeof_cluster_state s
                 | None => state cluster
                 end)
                (num_nodes cluster) (nodes cluster)
                (messages_processed cluster) (heartbeats_sent cluster)
                (elections_triggered cluster)).

(** pgraft_core_cleanup *)
Definition pgraft_core_cleanup (cluster : pgraft_cluster_t)
    : pgraft_cluster_t :=
  if initialized cluster then
    mk_cluster false (node_id cluster) (current_term cluster)
               (leader_id cluster) (state cluster) (num_nodes cluster)
               (nodes cluster) (messages_processed cluster)
               (heartbeats_sent cluster) (elections_triggered cluster)
  else cluster.

(** Outer loop of pgraft_core_remove_node over the slots i, ..., i+n-1: the
    first slot whose id is the one looked for. *)
Fixpoint find_node (ns : list pgraft_node_t) (node_id0 : Z) (n i : nat)
    : option nat :=
  match n with
  | O => None
  | S n' =>
      if bool_decide (id (ns !!! i) = node_id0) then Some i
      else find_node ns node_id0 n' (S i)
  end.

(** Inner loop: nodes[j] = nodes[j + 1] for the n slots from j on. *)
Fixpoint shift_nodes (n j : nat) (ns : list pgraft_node_t)
    : list pgraft_node_t :=
  match n with
  | O => ns
  | S n' => shift_nodes n' (S j) (<[j := ns !!! S j]> ns)
  end.

(** pgraft_core_remove_node *)
Definition pgraft_core_remove_node (node_id0 : Z) (cluster : pgraft_cluster_t)
    : outcome Z * pgraft_cluster_t :=
  if negb (initialized cluster) then
    (Raise "cannot remove node - core system not initialized", cluster)
  else
    match find_node (nodes cluster) node_id0 (Z.to_nat (num_nodes cluster)) 0
    with
    | Some i =>
        (Ret 0,
         mk_cluster (initialized cluster) (node_id cluster)
                    (current_term cluster) (leader_id cluster) (state cluster)
                    (wrap32 (num_nodes cluster - 1))
                    (shift_nodes (Z.to_nat (num_nodes cluster - 1) - i) i
                                 (nodes cluster))
                    (messages_processed cluster) (heartbeats_sent cluster)
                    (elections_triggered cluster))
    | None => (Ret (-1), cluster)
    end.

(** The cluster struct after memset(0). *)
Definition zero_cluster : pgraft_cluster_t :=
  mk_cluster false 0 0 0 EmptyString 0 (replicate 16 zero_node) 0 0 0.

(** pgraft_core_get_cluster_state with a valid pointer: the return code and
    the struct stored through it. *)
Definition pgraft_core_get_cluster_state (shm_cluster : pgraft_cluster_t)
    : Z * pgraft_cluster_t :=
  if negb (initialized shm_cluster) then (0, zero_cluster)
  else (0, shm_cluster).

(** pgraft_core_is_leader *)
Definition pgraft_core_is_leader (cluster : pgraft_cluster_t) : bool :=
  if negb (initialized cluster) then false
  else bool_decide (node_id cluster = leader_id cluster).

(** pgraft_core_get_leader_id *)
Definition pgraft_core_get_leader_id (cluster : pgraft_cluster_t) : Z :=
  if negb (initialized cluster) then -1 else leader_id cluster.

(** pgraft_core_get_current_term *)
Definition pgraft_core_get_current_term (cluster : pgraft_cluster_t) : Z :=
  if negb (initialized cluster) then 0 else current_term cluster.

(** The copy loop of pgraft_core_update_nodes, iterations i, ..., i+n-1.
    Reading node_ids[i] or addresses[i] behind the end of the array of the
    caller is undefined: None. *)
Fixpoint copy_nodes (n i : nat) (node_ids : list Z) (addresses : list string)
    (ns : list pgraft_node_t) : option (list pgraft_node_t) :=
  match n with
  | O => Some ns
  | S n' =>
      match node_ids !! i, addresses !! i with
      | Some nid, Some a =>
          let old := ns !!! i in
          copy_nodes n' (S i) node_ids addresses
            (<[i := mk_node nid (strncpy0 sizeof_node_address a) (port old)
                            (is_leader old)]> ns)
      | _, _ => None
      end
  end.

(** pgraft_core_update_nodes *)
Definition pgraft_core_update_nodes (num_nodes0 : Z) (node_ids : list Z)
    (addresses : list string) (cluster : pgraft_cluster_t)
    : outcome Z * pgraft_cluster_t :=
  if negb (initialized cluster) then (Ret (-1), cluster)
  else
    let n := Z.to_nat (Z.min num_nodes0 16) in
    match copy_nodes n 0 node_ids addresses (replicate 16 zero_node) with
    | Some ns =>
        (Ret 0,
         mk_cluster (initialized cluster) (node_id cluster)
                    (current_term cluster) (leader_id cluster) (state cluster)
                    (Z.of_nat n) ns
                    (messages_processed cluster) (heartbeats_sent cluster)
                    (elections_triggered cluster))
    | None => (Undefined, cluster)
    end.

(** *** Predicates used to state the properties of the descriptor *)

(** The nodes of the cluster: the first [num_nodes] slots. *)
Definition members (cluster : pgraft_cluster_t) : list pgraft_node_t :=
  take (Z.to_nat (num_nodes cluster)) (nodes cluster).

(** The array has its 16 slots and [num_nodes] lies inside it. *)
Definition cluster_ok (cluster : pgraft_cluster_t) : Prop :=
  length (nodes cluster) = 16%nat /\ 0 <= num_nodes cluster <= 16.

End with_header.
End Core.

(** ** Files

    The persistence code talks to the file system through fopen, fwrite or
    fprintf, fclose, rename and unlink.  A file is the list of the chunks
    written to it, one per fwrite or fprintf; [D] is the type of a chunk.
    Every call that changes the directory is also appended to a journal, so
    that the directory at any moment of an operation can be recomputed: a
    process that dies between two calls leaves the effects of the calls it
    made and nothing of the others. *)

Module FS.
Section fs.
Context {D : Type}.

Inductive syscall :=
  | Sys_creat (path : string)              (* fopen(path, "w"): create or truncate *)
  | Sys_write (path : string) (chunk : D)  (* data appended to the open file *)
  | Sys_rename (src dst : string)
  | Sys_unlink (path : string).

Definition perform (c : syscall) (fs : gmap string (list D))
    : gmap string (list D) :=
  match c with
  | Sys_creat p => <[p := []]> fs
  | Sys_write p chunk => alter (fun content => content ++ [chunk]) p fs
  | Sys_rename src dst =>
      match fs !! src with
      | Some content => <[dst := content]> (delete src fs)
      | None => fs
      end
  | Sys_unlink p => delete p fs
  end.

Definition replay (cs : list syscall) (fs : gmap string (list D))
    : gmap string (list D) :=
  foldl (fun fs c => perform c fs) fs cs.

Record disk := mk_disk {
  files : gmap string (list D);
  journal : list syscall;            (* the calls made, oldest first *)
  fopen_w_fails : string -> bool;    (* paths fopen cannot open for writing *)
  fwrite_fails : bool;               (* fwrite writes nothing: no space left *)
  rename_fails : bool
}.

Definition call (c : syscall) (d : disk) : disk :=
  mk_disk (perform c (files d)) (journal d ++ [c]) (fopen_w_fails d)
          (fwrite_fails d) (rename_fails d).

(** fopen(path, "w") and fopen(path, "wb"): false stands for NULL. *)
Definition fopen_w (path : string) (d : disk) : bool * disk :=
  if fopen_w_fails d path then (false, d) else (true, call (Sys_creat path) d).

(** One fwrite or fprintf on the stream opened on [path]. *)
Definition fwrite (path : string) (chunk : D) (d : disk) : bool * disk :=
  if fwrite_fails d then (false, d) else (true, call (Sys_write path chunk) d).

(** fopen(path, "r") followed by reads: the content, or None for NULL. *)
Definition fopen_r (path : string) (d : disk) : option (list D) :=
  files d !! path.

(** rename(src, dst) = 0 *)
Definition rename (src dst : string) (d : disk) : bool * disk :=
  if rename_fails d then (false, d)
  else match files d !! src with
       | Some _ => (true, call (Sys_rename src dst) d)
       | None => (false, d)
       end.

Definition unlink (path : string) (d : disk) : disk :=
  call (Sys_unlink path) d.

(** The paths a call names. *)
Definition touches (q : string) (c : syscall) : Prop :=
  match c with
  | Sys_creat p | Sys_write p _ | Sys_unlink p => p = q
  | Sys_rename src dst => src = q \/ dst = q
  end.

(** The calls an operation added to the journal. *)
Definition calls_between (before after : disk) : list syscall :=
  drop (length (journal before)) (journal after).

(** The directories a crash can leave while the calls [cs] are made from
    [fs]: one per number of calls completed. *)
Definition crash_states (cs : list syscall) (fs : gmap string (list D))
    : list (gmap string (list D)) :=
  (fun k => replay (take k cs) fs) <$> seq 0 (S (length cs)).

End fs.
Arguments syscall D : clear implicits.
Arguments disk D : clear implicits.
End FS.

(** ** Key/value store (src/pgraft_kv.c, include/pgraft_kv.h) *)

Module KV.

Definition PGRAFT_KV_PUT : Z := 1.
Definition PGRAFT_KV_DELETE : Z := 2.
Definition PGRAFT_KV_GET : Z := 3.

Record pgraft_kv_entry_t := mk_entry {
  key : string;
  value : string;
  version : Z;
  created_at : Z;
  updated_at : Z;
  log_index : Z;
  deleted : bool
}.

Record pgraft_kv_store_t := mk_store {
  entries : list pgraft_kv_entry_t;
  num_entries : Z;
  total_operations : Z;
  last_applied_index : Z;
  puts : Z;
  deletes : Z;
  gets : Z
}.

Record pgraft_kv_log_entry_t := mk_log_entry {
  op_type : Z;
  le_key : string;
  le_value : string;
  le_timestamp : Z;
  le_client_id : string
}.

Definition KV_CAPACITY : Z := 1000.
Definition PGRAFT_KV_PERSIST_FILE : string := "/tmp/pgraft_kv_store.dat".

Definition zero_entry : pgraft_kv_entry_t :=
  mk_entry EmptyString EmptyString 0 0 0 0 false.

#[export] Instance entry_inhabited : Inhabited pgraft_kv_entry_t :=
  populate zero_entry.

(** The store after memset(0): what pgraft_kv_init_shared_memory and
    pgraft_kv_reset leave in memory. *)
Definition empty_store : pgraft_kv_store_t :=
  mk_store (replicate (Z.to_nat KV_CAPACITY) zero_entry) 0 0 0 0 0 0.

(** A snapshot file holds images of the store struct. *)
Record kv_world := mk_world {
  g_kv_store : option pgraft_kv_store_t;
  disk : FS.disk pgraft_kv_store_t
}.

Definition set_store (s : pgraft_kv_store_t) (w : kv_world) : kv_world :=
  mk_world (Some s) (disk w).

Definition set_disk (d : FS.disk pgraft_kv_store_t) (w : kv_world)
    : kv_world :=
  mk_world (g_kv_store w) d.

(** The loop of pgraft_kv_find_entry_index over the slots i, ..., i+n-1:
    the first slot that is not deleted and holds the key, or -1. *)
Fixpoint find_from (es : list pgraft_kv_entry_t) (k : string) (n i : nat) : Z :=
  match n with
  | O => -1
  | S n' =>
      let e := es !!! i in
      if negb (deleted e) && bool_decide (key e = k) then Z.of_nat i
      else find_from es k n' (S i)
  end.

Definition pgraft_kv_find_entry_index (g : option pgraft_kv_store_t)
    (key0 : option string) : Z :=
  match g, key0 with
  | Some store, Some k =>
      find_from (entries store) k (Z.to_nat (num_entries store)) 0
  | _, _ => -1
  end.

(** pgraft_kv_save_to_disk.  fopen truncates the file at [path]; the image is
    written by one fwrite. *)
Definition pgraft_kv_save_to_disk (path : option string) (w : kv_world)
    : Z * kv_world :=
  match g_kv_store w, path with
  | Some store, Some p =>
      let '(opened, d1) := FS.fopen_w p (disk w) in
      if negb opened then (-1, w)
      else
        let '(written, d2) := FS.fwrite p store d1 in
        if negb written then (-1, set_disk d2 w)
        else (0, set_disk d2 w)
  | _, _ => (-1, w)
  end.

(** pgraft_kv_load_from_disk.  fread of one image fails on a file that holds
    less than one. *)
Definition pgraft_kv_load_from_disk (path : option string) (w : kv_world)
    : Z * kv_world :=
  match g_kv_store w, path with
  | Some store, Some p =>
      match FS.fopen_r p (disk w) with
      | None => (-1, w)
      | Some [] => (-1, w)
      | Some (temp_store :: _) =>
          (0,
           set_store
             (mk_store (entries temp_store) (num_entries temp_store)
                       (total_operations temp_store)
                       (last_applied_index temp_store) (puts temp_store)
                       (deletes temp_store) (gets temp_store)) w)
      end
  | _, _ => (-1, w)
  end.

(** pgraft_kv_init_shared_memory: [found] tells whether the segment existed;
    a new one is zeroed and then filled from the snapshot, if there is one. *)
Definition pgraft_kv_init_shared_memory (found : bool)
    (segment : pgraft_kv_store_t) (d : FS.disk pgraft_kv_store_t)
    : kv_world :=
  if found then mk_world (Some segment) d
  else
    (pgraft_kv_load_from_disk (Some PGRAFT_KV_PERSIST_FILE)
       (mk_world (Some empty_store) d)).2.

(** The tail of put and delete: counters, then the snapshot. *)
Definition count_put (log_index0 : Z) (es : list pgraft_kv_entry_t) (n : Z)
    (store : pgraft_kv_store_t) : pgraft_kv_store_t :=
  mk_store es n (wrap64 (total_operations store + 1)) log_index0
           (wrap64 (puts store + 1)) (deletes store) (gets store).

(** pgraft_kv_put.  [now] is the value of GetCurrentTimestamp(). *)
Definition pgraft_kv_put (key0 value0 : option string) (log_index0 : Z)
    (now : Z) (w : kv_world) : outcome Z * kv_world :=
  match g_kv_store w, key0, value0 with
  | Some store, Some k, Some v =>
      if bool_decide (256 <= String.length k)%nat then
        (Raise "key too long (max 255 characters)", w)
      else if bool_decide (1024 <= String.length v)%nat then
        (Raise "value too long (max 1023 characters)", w)
      else
        let entry_index := pgraft_kv_find_entry_index (g_kv_store w) key0 in
        if bool_decide (entry_index >= 0) then
          (* Update existing entry *)
          let i := Z.to_nat entry_index in
          let e := entries store !!! i in
          let e' := mk_entry (key e) (strncpy0 1024 v) (wrap64 (version e + 1))
                             (created_at e) now log_index0 false in
          let store' := count_put log_index0 (<[i := e']> (entries store))
                                  (num_entries store) store in
          (Ret 0,
           (pgraft_kv_save_to_disk (Some PGRAFT_KV_PERSIST_FILE)
              (set_store store' w)).2)
        else if bool_decide (num_entries store >= 1000) then
          (Raise "key/value store is full (1000 entries)", w)
        else
          (* Create new entry *)
          let i := Z.to_nat (num_entries store) in
          let e' := mk_entry (strncpy0 256 k) (strncpy0 1024 v) 1 now now
                             log_index0 false in
          let store' := count_put log_index0 (<[i := e']> (entries store))
                                  (wrap32 (num_entries store + 1)) store in
          (Ret 0,
           (pgraft_kv_save_to_disk (Some PGRAFT_KV_PERSIST_FILE)
              (set_store store' w)).2)
  | _, _, _ => (Raise "invalid parameters for PUT operation", w)
  end.

(** pgraft_kv_get with a non-NULL [version] pointer: the return code, and
    what is stored through [value] and [version]. *)
Definition pgraft_kv_get (key0 : option string) (value_size : nat)
    (w : kv_world) : outcome Z * option (string * Z) * kv_world :=
  match g_kv_store w, key0 with
  | Some store, Some k =>
      let entry_index := pgraft_kv_find_entry_index (g_kv_store w) key0 in
      if bool_decide (entry_index < 0) then (Ret (-1), None, w)
      else
        let e := entries store !!! Z.to_nat entry_index in
        (Ret 0, Some (strncpy0 value_size (value e), version e),
         set_store
           (mk_store (entries store) (num_entries store)
                     (wrap64 (total_operations store + 1))
                     (last_applied_index store) (puts store) (deletes store)
                     (wrap64 (gets store + 1))) w)
  | _, _ => (Raise "invalid parameters for GET operation", None, w)
  end.

(** pgraft_kv_delete *)
Definition pgraft_kv_delete (key0 : option string) (log_index0 : Z) (now : Z)
    (w : kv_world) : outcome Z * kv_world :=
  match g_kv_store w, key0 with
  | Some store, Some k =>
      let entry_index := pgraft_kv_find_entry_index (g_kv_store w) key0 in
      if bool_decide (entry_index < 0) then (Ret (-1), w)
      else
        let i := Z.to_nat entry_index in
        let e := entries store !!! i in
        let e' := mk_entry (key e) (value e) (wrap64 (version e + 1))
                           (created_at e) now log_index0 true in
        let store' :=
          mk_store (<[i := e']> (entries store)) (num_entries store)
                   (wrap64 (total_operations store + 1)) log_index0
                   (puts store) (wrap64 (deletes store + 1)) (gets store) in
        (Ret 0,
         (pgraft_kv_save_to_disk (Some PGRAFT_KV_PERSIST_FILE)
            (set_store store' w)).2)
  | _, _ => (Raise "invalid parameters for DELETE operation", w)
  end.

(** pgraft_kv_exists *)
Definition pgraft_kv_exists (key0 : option string) (w : kv_world) : bool :=
  match g_kv_store w, key0 with
  | Some _, Some _ =>
      bool_decide (pgraft_kv_find_entry_index (g_kv_store w) key0 >= 0)
  | _, _ => false
  end.

(** First loop of pgraft_kv_compact, slots i, ..., i+n-1: entries that are
    not deleted move down to slot [j]. *)
Fixpoint compact_move (n i j : nat) (es : list pgraft_kv_entry_t)
    : list pgraft_kv_entry_t * nat :=
  match n with
  | O => (es, j)
  | S n' =>
      let e := es !!! i in
      if deleted e then compact_move n' (S i) j es
      else compact_move n' (S i) (S j)
             (if bool_decide (i <> j) then <[j := e]> es else es)
  end.

(** Second loop: the slots i, ..., i+n-1 are zeroed. *)
Fixpoint compact_clear (n i : nat) (es : list pgraft_kv_entry_t)
    : list pgraft_kv_entry_t :=
  match n with
  | O => es
  | S n' => compact_clear n' (S i) (<[i := zero_entry]> es)
  end.

(** pgraft_kv_compact *)
Definition pgraft_kv_compact (w : kv_world) : kv_world :=
  match g_kv_store w with
  | Some store =>
      let n := Z.to_nat (num_entries store) in
      let '(es, j) := compact_move n 0 0 (entries store) in
      let es := compact_clear (n - j) j es in
      let store' := mk_store es (Z.of_nat j) (total_operations store)
                             (last_applied_index store) (puts store)
                             (deletes store) (gets store) in
      (pgraft_kv_save_to_disk (Some PGRAFT_KV_PERSIST_FILE)
         (set_store store' w)).2
  | None => w
  end.

(** pgraft_kv_reset *)
Definition pgraft_kv_reset (w : kv_world) : kv_world :=
  match g_kv_store w with
  | Some store =>
      mk_world (Some empty_store) (FS.unlink PGRAFT_KV_PERSIST_FILE (disk w))
  | None => w
  end.

(** pgraft_kv_put_local and pgraft_kv_delete_local: the third argument of
    pgraft_kv_put and the second of pgraft_kv_delete, [log_index], is the
    constant 0. *)
Definition pgraft_kv_put_local (key0 value0 : option string) (now : Z)
    (w : kv_world) : outcome Z * kv_world :=
  pgraft_kv_put key0 value0 0 now w.

Definition pgraft_kv_delete_local (key0 : option string) (now : Z)
    (w : kv_world) : outcome Z * kv_world :=
  pgraft_kv_delete key0 0 now w.

(** pgraft_kv_apply_log_entry *)
Definition pgraft_kv_apply_log_entry (log_entry : option pgraft_kv_log_entry_t)
    (log_index0 : Z) (now : Z) (w : kv_world) : outcome Z * kv_world :=
  match log_entry with
  | None => (Ret (-1), w)
  | Some le =>
      if bool_decide (op_type le = PGRAFT_KV_PUT) then
        pgraft_kv_put (Some (le_key le)) (Some (le_value le)) log_index0 now w
      else if bool_decide (op_type le = PGRAFT_KV_DELETE) then
        pgraft_kv_delete (Some (le_key le)) log_index0 now w
      else (Ret (-1), w)
  end.

(** *** Predicates used to state the properties of the store *)

(** The entries in use: the first [num_entries] slots. *)
Definition used (store : pgraft_kv_store_t) : list pgraft_kv_entry_t :=
  take (Z.to_nat (num_entries store)) (entries store).

(** The array has its 1000 slots and [num_entries] lies inside it. *)
Definition well_formed (store : pgraft_kv_store_t) : Prop :=
  length (entries store) = Z.to_nat KV_CAPACITY /\
  0 <= num_entries store <= KV_CAPACITY.

(** The test of the scan: strcmp(entry.key, key) == 0 on an entry that is
    not deleted. *)
Definition holds (k : string) (e : pgraft_kv_entry_t) : Prop :=
  deleted e = false /\ key e = k.

#[export] Instance holds_dec k e : Decision (holds k e).
Proof. unfold holds. apply _. Defined.

(** The entry a lookup of [k] reaches: the first one in use that is not
    deleted and holds [k]. *)
Definition live_entry (store : pgraft_kv_store_t) (k : string)
    : option (nat * pgraft_kv_entry_t) :=
  list_find (holds k) (used store).

(** The version a reader of [k] sees. *)
Definition live_version (store : pgraft_kv_store_t) (k : string) : option Z :=
  (fun p => version p.2) <$> live_entry store k.

(** The version the key has after its last change: that of the last entry
    in use that carries the key, deleted or not. *)
Definition current_version (store : pgraft_kv_store_t) (k : string)
    : option Z :=
  version <$> last (filter (fun e => key e = k) (used store)).

(** The reading of "the version strictly increases on every put" that
    covers a put after a delete: whenever a put succeeds on a store that has
    seen the key, the version of the key afterwards is above the one before. *)
Definition version_increases_on_put : Prop :=
  forall (w w' : kv_world) (s s' : pgraft_kv_store_t) (k v : string)
         (idx now old new : Z),
    g_kv_store w = Some s ->
    pgraft_kv_put (Some k) (Some v) idx now w = (Ret 0, w') ->
    g_kv_store w' = Some s' ->
    current_version s k = Some old ->
    current_version s' k = Some new ->
    old < new.

(** A disk on which nothing fails. *)
Definition healthy (d : FS.disk pgraft_kv_store_t) : Prop :=
  (forall p, FS.fopen_w_fails d p = false) /\ FS.fwrite_fails d = false.

(** *** The rest of src/pgraft_kv.c *)

(** pgraft_kv_get_stats: the copy stored through [stats], a valid pointer. *)
Definition pgraft_kv_get_stats (w : kv_world) : Z * option pgraft_kv_store_t :=
  match g_kv_store w with
  | Some store => (0, Some store)
  | None => (-1, None)
  end.

(** The loop of pgraft_json_create_key_list (src/pgraft_json.c) over the
    slots i, ..., i+n-1: the keys added to the JSON array, in order. *)
Fixpoint key_list_from (es : list pgraft_kv_entry_t) (n i : nat)
    : list string :=
  match n with
  | O => []
  | S n' =>
      let e := es !!! i in
      if deleted e then key_list_from es n' (S i)
      else key e :: key_list_from es n' (S i)
  end.

(** The array pgraft_kv_list_keys hands to the printer of json-c. *)
Definition listed_keys (store : pgraft_kv_store_t) : list string :=
  key_list_from (entries store) (Z.to_nat (num_entries store)) 0.

(** Calls made on the store. *)
Inductive kv_op :=
  | Put (k v : option string) (log_index0 now : Z)
  | Delete (k : option string) (log_index0 now : Z)
  | Get (k : option string) (value_size : nat)
  | Compact
  | Reset.

Definition kv_exec (op : kv_op) (w : kv_world) : kv_world :=
  match op with
  | Put k v idx now => (pgraft_kv_put k v idx now w).2
  | Delete k idx now => (pgraft_kv_delete k idx now w).2
  | Get k size => (pgraft_kv_get k size w).2
  | Compact => pgraft_kv_compact w
  | Reset => pgraft_kv_reset w
  end.

Definition kv_run (ops : list kv_op) (w : kv_world) : kv_world :=
  foldl (fun w op => kv_exec op w) w ops.

Definition not_deleted (e : pgraft_kv_entry_t) : Prop := deleted e = false.

#[export] Instance not_deleted_dec e : Decision (not_deleted e).
Proof. unfold not_deleted. apply _. Defined.

(** No two entries of [l] that are not deleted carry the same key. *)
Definition unique_list (l : list pgraft_kv_entry_t) : Prop :=
  forall i j ei ej,
    l !! i = Some ei -> l !! j = Some ej ->
    deleted ei = false -> deleted ej = false -> key ei = key ej -> i = j.

(** At most one entry in use that is not deleted for a key. *)
Definition unique_live (store : pgraft_kv_store_t) : Prop :=
  unique_list (used store).

(** The calls that can change what a reader of [k] sees. *)
Definition writes_key (k : string) (op : kv_op) : Prop :=
  match op with
  | Put (Some k') _ _ _ | Delete (Some k') _ _ => k' = k
  | Reset => True
  | _ => False
  end.


(** The store of a postmaster started on the disk of [w]: the segment is
    new, so it is zeroed and filled from the snapshot. *)
Definition restart (w : kv_world) : kv_world :=
  pgraft_kv_init_shared_memory false empty_store (disk w).

End KV.

(** ** Cluster state file (src/pgraft.c) *)

Module StateFile.

(** MAXPGPATH of PostgreSQL's pg_config_manual.h. *)
Definition MAXPGPATH : nat := 1024.

Definition newline : string := String "010"%char EmptyString.
Definition dquote : string := String "034"%char EmptyString.

(** A field name between double quotes, as in the format strings. *)
Definition quoted (name : string) : string := dquote +:+ name +:+ dquote.

(** The fprintf calls of pgraft_write_state_to_file, one chunk each.
    [now] is the value of time(NULL). *)
Definition state_lines (leader_id term node_id now : Z) : list string :=
  [ "{" +:+ newline;
    "  " +:+ quoted "leader_id" +:+ ": " +:+ pretty leader_id +:+ ","
         +:+ newline;
    "  " +:+ quoted "term" +:+ ": " +:+ pretty term +:+ "," +:+ newline;
    "  " +:+ quoted "node_id" +:+ ": " +:+ pretty node_id +:+ "," +:+ newline;
    "  " +:+ quoted "updated_at" +:+ ": " +:+ pretty now +:+ newline;
    "}" +:+ newline ].

(** The same for pgraft_write_state_to_file_with_nodes. *)
Definition state_lines_with_nodes (leader_id term node_id : Z)
    (nodes_json : string) (now : Z) : list string :=
  [ "{" +:+ newline;
    "  " +:+ quoted "leader_id" +:+ ": " +:+ pretty leader_id +:+ ","
         +:+ newline;
    "  " +:+ quoted "term" +:+ ": " +:+ pretty term +:+ "," +:+ newline;
    "  " +:+ quoted "node_id" +:+ ": " +:+ pretty node_id +:+ "," +:+ newline;
    "  " +:+ quoted "nodes" +:+ ": " +:+ nodes_json +:+ "," +:+ newline;
    "  " +:+ quoted "updated_at" +:+ ": " +:+ pretty now +:+ newline;
    "}" +:+ newline ].

(** snprintf(filepath, sizeof(filepath), "%s/cluster_state.json", data_dir),
    with the default of the GUC pgraft.data_dir. *)
Definition data_dir_of (guc : option string) : string :=
  default "pgraft-data" guc.

Definition filepath (guc : option string) : string :=
  strncpy0 MAXPGPATH (data_dir_of guc +:+ "/cluster_state.json").

Definition temppath (guc : option string) : string :=
  strncpy0 MAXPGPATH (data_dir_of guc +:+ "/cluster_state.json.tmp").

(** The fprintf calls in order; their results are not looked at. *)
Definition fprintf_all (path : string) (lines : list string)
    (d : FS.disk string) : FS.disk string :=
  foldl (fun d line => (FS.fwrite path line d).2) d lines.

(** The body shared by the two writers: temporary file, then rename. *)
Definition write_state (guc : option string) (lines : list string)
    (d : FS.disk string) : FS.disk string :=
  let '(opened, d1) := FS.fopen_w (temppath guc) d in
  if negb opened then d
  else
    let d2 := fprintf_all (temppath guc) lines d1 in
    let '(renamed, d3) := FS.rename (temppath guc) (filepath guc) d2 in
    if negb renamed then FS.unlink (temppath guc) d3 else d3.

(** pgraft_write_state_to_file *)
Definition pgraft_write_state_to_file (guc : option string)
    (leader_id term node_id now : Z) (d : FS.disk string) : FS.disk string :=
  write_state guc (state_lines leader_id term node_id now) d.

(** pgraft_write_state_to_file_with_nodes *)
Definition pgraft_write_state_to_file_with_nodes (guc : option string)
    (leader_id term node_id : Z) (nodes_json : string) (now : Z)
    (d : FS.disk string) : FS.disk string :=
  write_state guc (state_lines_with_nodes leader_id term node_id nodes_json now)
              d.

(** The calls a writer makes on a disk where nothing fails. *)
Definition state_calls (guc : option string) (lines : list string)
    : list (FS.syscall string) :=
  FS.Sys_creat (temppath guc) :: (FS.Sys_write (temppath guc) <$> lines)
  ++ [FS.Sys_rename (temppath guc) (filepath guc)].

(** A disk on which no call fails. *)
Definition healthy (d : FS.disk string) : Prop :=
  (forall p, FS.fopen_w_fails d p = false) /\ FS.fwrite_fails d = false /\
  FS.rename_fails d = false.

End StateFile.

(** ** Apply pipeline (src/pgraft_apply.c, src/pgraft_json.c) *)

Module Apply.

(** What json-c builds from a payload, as far as the pipeline looks at it:
    an object with its members, or something that is not an object.  A
    member is the NULL object (the literal null), a string, or a value of
    another type, kept in its printed form, which is what
    json_object_get_string returns for it. *)
Inductive json_member :=
  | JNull
  | JString (s : string)
  | JOther (printed : string).

Inductive json :=
  | JObject (fields : list (string * json_member))
  | JNotObject.

(** What the pipeline takes from outside the repository: the tokenizer of
    json-c (None stands for NULL), two conversions of libc, and the SPI of
    the host database. *)
Class host := {
  json_tokener_parse : string -> option json;
  strtoull : string -> Z;
  atoi : string -> Z;
  SPI_connect_ok : bool;
  SPI_execute : string -> Z
}.

Section with_host.
Context `{pgraft_core_h} `{host}.

(** json_object_object_get_ex: the member of an object, None for "false". *)
Definition json_object_object_get_ex (obj : json) (name : string)
    : option json_member :=
  match obj with
  | JObject fields => snd <$> (snd <$> list_find (fun f => f.1 = name) fields)
  | JNotObject => None
  end.

(** json_object_get_string *)
Definition json_object_get_string (obj : json_member) : option string :=
  match obj with
  | JNull => None
  | JString s => Some s
  | JOther printed => Some printed
  end.

(** pgraft_json_parse_kv_operation: the return code with what is stored
    through [op_type], [key] and [value].  strcmp and pstrdup on NULL are
    undefined. *)
Definition pgraft_json_parse_kv_operation (json_data : string)
    : outcome (Z * Z * option string * option string) :=
  match json_tokener_parse json_data with
  | None => Raise "failed to parse JSON"
  | Some json_obj =>
      match json_object_object_get_ex json_obj "type" with
      | None => Raise "missing 'type' field in JSON"
      | Some type_obj =>
          match json_object_object_get_ex json_obj "key" with
          | None => Raise "missing 'key' field in JSON"
          | Some key_obj =>
              match json_object_get_string type_obj with
              | None => Undefined
              | Some type_str =>
                  if bool_decide (type_str = "kv_put") then
                    match json_object_object_get_ex json_obj "value" with
                    | None => Raise "missing 'value' field in PUT operation"
                    | Some value_obj =>
                        match json_object_get_string value_obj,
                              json_object_get_string key_obj with
                        | Some value_str, Some key_str =>
                            Ret (0, KV.PGRAFT_KV_PUT, Some key_str,
                                 Some value_str)
                        | _, _ => Undefined
                        end
                    end
                  else if bool_decide (type_str = "kv_delete") then
                    match json_object_get_string key_obj with
                    | Some key_str =>
                        Ret (0, KV.PGRAFT_KV_DELETE, Some key_str, None)
                    | None => Undefined
                    end
                  else Raise "unknown operation type"
              end
          end
      end
  end.

(** The end of both cases of pgraft_apply_kv_operation: a result other than
    0 is reported with elog(ERROR). *)
Definition report (what : string) (r : outcome Z * KV.kv_world)
    : outcome Z * KV.kv_world :=
  match r.1 with
  | Ret rc => if bool_decide (rc = 0) then (Ret 0, r.2) else (Raise what, r.2)
  | other => (other, r.2)
  end.

(** pgraft_apply_kv_operation.  [raft_index] is only logged. *)
Definition pgraft_apply_kv_operation (raft_index : Z) (json_data : string)
    (now : Z) (w : KV.kv_world) : outcome Z * KV.kv_world :=
  match pgraft_json_parse_kv_operation json_data with
  | Raise msg => (Raise msg, w)
  | Undefined => (Undefined, w)
  | Ret (rc, op_type, key, value) =>
      if bool_decide (rc <> 0) then (Ret (-1), w)
      else if bool_decide (op_type = KV.PGRAFT_KV_PUT) then
        match key, value with
        | Some _, Some _ =>
            report "failed to apply KV PUT operation"
                   (KV.pgraft_kv_put_local key value now w)
        | _, _ => (Raise "invalid PUT operation parameters", w)
        end
      else if bool_decide (op_type = KV.PGRAFT_KV_DELETE) then
        match key with
        | Some _ =>
            report "failed to apply KV DELETE operation"
                   (KV.pgraft_kv_delete_local key now w)
        | None => (Raise "invalid DELETE operation parameters", w)
        end
      else (Raise "unsupported KV operation type", w)
  end.

Record PgRaftLogEntry := mk_log_entry {
  index : Z;
  term : Z;
  op : Z;
  database : string;
  schema : string;
  sql : string
}.

(** The tokens strtok_r hands out for the delimiter '|': the non-empty runs
    of other characters.  [cur] is the token being read. *)
Fixpoint tokens (cur : string) (s : string) : list string :=
  match s with
  | EmptyString => if bool_decide (cur = EmptyString) then [] else [cur]
  | String c s' =>
      if Ascii.eqb c "|"%char then
        if bool_decide (cur = EmptyString) then tokens EmptyString s'
        else cur :: tokens EmptyString s'
      else tokens (cur +:+ String c EmptyString) s'
  end.

(** pgraft_parse_log_entry on a payload that does not open with a brace
    (pgraft_json_parse_log_entry, taken for the others, returns NULL). *)
Definition pgraft_parse_log_entry (data : string) : option PgRaftLogEntry :=
  match data with
  | EmptyString => None
  | String c _ =>
      if Ascii.eqb c "{"%char then None
      else
        match tokens EmptyString data with
        | t0 :: t1 :: t2 :: t3 :: t4 :: t5 :: _ =>
            Some (mk_log_entry (strtoull t0) (strtoull t1) (atoi t2)
                               (strncpy0 64 t3) (strncpy0 64 t4)
                               (strncpy0 4096 t5))
        | _ => None
        end
  end.

(** The state the pipeline works on: the KV store with its disk, the worker
    state, and the statements handed to SPI_execute. *)
Record apply_world := mk_apply_world {
  kv : KV.kv_world;
  worker : Queue.pgraft_worker_state_t;
  executed : list string
}.

(** pgraft_record_applied_index *)
Definition pgraft_record_applied_index (idx : Z) (w : apply_world)
    : apply_world :=
  mk_apply_world (kv w) (Queue.set_last_applied_index idx (worker w))
                 (executed w).

(** pgraft_get_applied_index *)
Definition pgraft_get_applied_index (w : apply_world) : Z :=
  Queue.last_applied_index (worker w).

(** pgraft_apply_entry_to_postgres.  There is no test of [raft_index]
    against the applied index before the entry is executed. *)
Definition pgraft_apply_entry_to_postgres (raft_index : Z) (data : string)
    (now : Z) (w : apply_world) : outcome Z * apply_world :=
  match data with
  | String "{"%char _ =>
      let '(ret, kv') := pgraft_apply_kv_operation raft_index data now (kv w) in
      let w' := mk_apply_world kv' (worker w) (executed w) in
      match ret with
      | Ret rc =>
          if bool_decide (rc = 0)
          then (Ret rc, pgraft_record_applied_index raft_index w')
          else (Ret rc, w')
      | other => (other, w')
      end
  | _ =>
      match pgraft_parse_log_entry data with
      | None => (Ret (-1), w)
      | Some entry =>
          if negb SPI_connect_ok then (Ret (-1), w)
          else
            let w' := mk_apply_world (kv w) (worker w)
                                     (executed w ++ [sql entry]) in
            if bool_decide (SPI_execute (sql entry) < 0) then (Ret (-1), w')
            else (Ret 0, pgraft_record_applied_index raft_index w')
      end
  end.


(** *** Predicates used to state the properties of the pipeline *)

(** A payload that json-c reads as a put of [k] = [v]. *)
Definition reads_as_put (data : string) (k v : string) : Prop :=
  (exists rest, data = String "{"%char rest) /\
  exists obj,
    json_tokener_parse data = Some obj /\
    json_object_object_get_ex obj "type" = Some (JString "kv_put") /\
    json_object_object_get_ex obj "key" = Some (JString k) /\
    json_object_object_get_ex obj "value" = Some (JString v).

(** A payload that json-c reads as a delete of [k]. *)
Definition reads_as_delete (data : string) (k : string) : Prop :=
  (exists rest, data = String "{"%char rest) /\
  exists obj,
    json_tokener_parse data = Some obj /\
    json_object_object_get_ex obj "type" = Some (JString "kv_delete") /\
    json_object_object_get_ex obj "key" = Some (JString k).

(** An entry that was applied with success is delivered a second time: the
    call succeeds and the KV store is what it was. *)
Definition redelivery_is_noop : Prop :=
  forall (w w1 : apply_world) (n : Z) (data : string) (now now' : Z),
    pgraft_apply_entry_to_postgres n data now w = (Ret 0, w1) ->
    n <= pgraft_get_applied_index w1 ->
    let r := pgraft_apply_entry_to_postgres n data now' w1 in
    r.1 = Ret 0 /\ KV.g_kv_store (kv r.2) = KV.g_kv_store (kv w1).

End with_host.
End Apply.

(** ** Concrete inputs *)

(** An assignment of the header constants used to run the queues on concrete
    inputs: 256 command slots, 64 apply slots of 1024 bytes. *)
#[local] Instance example_core_h : pgraft_core_h := {|
  MAX_COMMANDS := 256;
  MAX_APPLY_ENTRIES := 64;
  sizeof_address := 256;
  sizeof_cluster_id := 64;
  sizeof_log_data := 1024;
  sizeof_kv_key := 256;
  sizeof_kv_value := 1024;
  sizeof_kv_client_id := 64;
  sizeof_apply_data := 1024;
  sizeof_cluster_state := 32;
  sizeof_node_address := 256
|}.

(** A full ring: 256 submissions into the fresh worker state. *)
Definition full_ring : Queue.pgraft_worker_state_t :=
  Nat.iter 256
    (fun st => (Queue.pgraft_queue_command Queue.COMMAND_ADD_NODE 2 (Some "10.0.0.2")
                  7000 None 1700000000 st).2)
    Queue.pgraft_worker_get_state_init.


(** A status buffer that tracks three commands: the first completed, the
    second pending, the third in process. *)
Definition tracked_command (ts : Z) (s : Queue.COMMAND_STATUS)
    : Queue.pgraft_command_t :=
  Queue.mk_command Queue.COMMAND_ADD_NODE 2 "10.0.0.2" 7000 EmptyString
    EmptyString 0 EmptyString EmptyString EmptyString s EmptyString ts.

Definition three_tracked : Queue.pgraft_worker_state_t :=
  foldl (fun st c => (Queue.pgraft_add_command_to_status c st).2)
    Queue.pgraft_worker_get_state_init
    [tracked_command 10 Queue.COMMAND_STATUS_COMPLETED;
     tracked_command 11 Queue.COMMAND_STATUS_PENDING;
     tracked_command 12 Queue.COMMAND_STATUS_PROCESSING].

(** A running cluster descriptor: node 1 initialised, node 2 added, and a
    refresh from the consensus engine that made node 1 the leader of
    term 3. *)
Definition running_cluster : Core.pgraft_cluster_t :=
  let c0 := Core.pgraft_core_init_shared_memory in
  let c1 := (Core.pgraft_core_init 1 (Some "10.0.0.1") 7000 c0).2 in
  let c2 := (Core.pgraft_core_add_node 2 (Some "10.0.0.2") 7000 c1).2 in
  (Core.pgraft_core_update_cluster_state 1 3 (Some "leader") c2).2.

(** An empty directory on a disk where no call fails, and the store of a
    node that starts on it. *)
Definition healthy_disk : FS.disk KV.pgraft_kv_store_t :=
  FS.mk_disk ∅ [] (fun _ => false) false false.

Definition kv_w0 : KV.kv_world :=
  KV.pgraft_kv_init_shared_memory false KV.empty_store healthy_disk.

(** put alpha = 1, then delete alpha, then put alpha = 2. *)
Definition kv_w1 : KV.kv_world :=
  (KV.pgraft_kv_put (Some "alpha") (Some "1") 5 100 kv_w0).2.
Definition kv_w2 : KV.kv_world :=
  (KV.pgraft_kv_delete (Some "alpha") 6 101 kv_w1).2.
Definition kv_w3 : KV.kv_world :=
  (KV.pgraft_kv_put (Some "alpha") (Some "2") 7 102 kv_w2).2.

Definition store_of (w : KV.kv_world) : KV.pgraft_kv_store_t :=
  default KV.empty_store (KV.g_kv_store w).

(** A store with all its 1000 slots in use: puts of 1000 different
    two-character keys, on a disk where fopen fails (the puts succeed all
    the same). *)
Definition slot_key (n : nat) : string :=
  String (ascii_of_nat (48 + n / 32))
    (String (ascii_of_nat (48 + n mod 32)) EmptyString).

Definition fill_store : list KV.kv_op :=
  (fun n => KV.Put (Some (slot_key n)) (Some "v") (Z.of_nat n) 100)
    <$> seq 0 1000.

Definition read_only_disk : FS.disk KV.pgraft_kv_store_t :=
  FS.mk_disk ∅ [] (fun _ => true) false false.

(** A reader of the flat JSON objects the pipeline exchanges, standing for
    the tokenizer of json-c on the concrete payloads below: members are
    strings without escapes or decimal numbers. *)
Inductive reader_state :=
  | R_start | R_first_key | R_key (acc : string) | R_colon (k : string)
  | R_value (k : string) | R_string (k acc : string)
  | R_number (k acc : string) | R_after_value | R_next_key | R_done.

Definition is_space (c : ascii) : bool :=
  Ascii.eqb c " "%char || Ascii.eqb c "010"%char || Ascii.eqb c "009"%char.

Definition is_digit (c : ascii) : bool :=
  (48 <=? nat_of_ascii c)%nat && (nat_of_ascii c <=? 57)%nat.

Definition push (acc : string) (c : ascii) : string :=
  acc +:+ String c EmptyString.

Fixpoint read_object (st : reader_state)
    (fields : list (string * Apply.json_member)) (s : string)
    : option Apply.json :=
  match s with
  | EmptyString =>
      match st with
      | R_done => Some (Apply.JObject fields)
      | _ => None
      end
  | String c s' =>
      match st with
      | R_start =>
          if is_space c then read_object R_start fields s'
          else if Ascii.eqb c "{"%char then read_object R_first_key fields s'
          else None
      | R_first_key =>
          if is_space c then read_object R_first_key fields s'
          else if Ascii.eqb c "034"%char
               then read_object (R_key EmptyString) fields s'
          else if Ascii.eqb c "}"%char then read_object R_done fields s'
          else None
      | R_key acc =>
          if Ascii.eqb c "034"%char then read_object (R_colon acc) fields s'
          else if Ascii.eqb c "\"%char then None
          else read_object (R_key (push acc c)) fields s'
      | R_colon k =>
          if is_space c then read_object (R_colon k) fields s'
          else if Ascii.eqb c ":"%char then read_object (R_value k) fields s'
          else None
      | R_value k =>
          if is_space c then read_object (R_value k) fields s'
          else if Ascii.eqb c "034"%char
               then read_object (R_string k EmptyString) fields s'
          else if is_digit c || Ascii.eqb c "-"%char
               then read_object (R_number k (push EmptyString c)) fields s'
          else None
      | R_string k acc =>
          if Ascii.eqb c "034"%char
          then read_object R_after_value
                 (fields ++ [(k, Apply.JString acc)]) s'
          else if Ascii.eqb c "\"%char then None
          else read_object (R_string k (push acc c)) fields s'
      | R_number k acc =>
          if is_digit c then read_object (R_number k (push acc c)) fields s'
          else if Ascii.eqb c ","%char
               then read_object R_next_key (fields ++ [(k, Apply.JOther acc)]) s'
          else if Ascii.eqb c "}"%char
               then read_object R_done (fields ++ [(k, Apply.JOther acc)]) s'
          else if is_space c
               then read_object R_after_value
                      (fields ++ [(k, Apply.JOther acc)]) s'
          else None
      | R_after_value =>
          if is_space c then read_object R_after_value fields s'
          else if Ascii.eqb c ","%char then read_object R_next_key fields s'
          else if Ascii.eqb c "}"%char then read_object R_done fields s'
          else None
      | R_next_key =>
          if is_space c then read_object R_next_key fields s'
          else if Ascii.eqb c "034"%char
               then read_object (R_key EmptyString) fields s'
          else None
      | R_done => if is_space c then read_object R_done fields s' else None
      end
  end.

(** Leading decimal digits, as strtoull and atoi read them. *)
Fixpoint read_digits (acc : Z) (s : string) : Z :=
  match s with
  | String c s' =>
      if is_digit c
      then read_digits (10 * acc + Z.of_nat (nat_of_ascii c - 48)) s'
      else acc
  | EmptyString => acc
  end.

#[local] Instance example_host : Apply.host := {|
  Apply.json_tokener_parse := read_object R_start [];
  Apply.strtoull := read_digits 0;
  Apply.atoi := read_digits 0;
  Apply.SPI_connect_ok := true;
  Apply.SPI_execute := fun _ => 0
|}.

(** The payload pgraft_json_create_kv_operation produces for a put, in the
    spaced format of json_object_to_json_string. *)
Definition member (name value : string) : string :=
  StateFile.quoted name +:+ ": " +:+ value.

Definition kv_put_payload (k v : string) (timestamp : Z) (client : string)
    : string :=
  "{ " +:+ member "type" (StateFile.quoted "kv_put") +:+ ", "
       +:+ member "key" (StateFile.quoted k) +:+ ", "
       +:+ member "value" (StateFile.quoted v) +:+ ", "
       +:+ member "timestamp" (pretty timestamp) +:+ ", "
       +:+ member "client_id" (StateFile.quoted client) +:+ " }".

Definition put_alpha : string := kv_put_payload "alpha" "1" 1700000000 "pg_1".

(** The payload for a delete: no value member. *)
Definition kv_delete_payload (k : string) (timestamp : Z) (client : string)
    : string :=
  "{ " +:+ member "type" (StateFile.quoted "kv_delete") +:+ ", "
       +:+ member "key" (StateFile.quoted k) +:+ ", "
       +:+ member "timestamp" (pretty timestamp) +:+ ", "
       +:+ member "client_id" (StateFile.quoted client) +:+ " }".

Definition delete_alpha : string := kv_delete_payload "alpha" 1700000001 "pg_1".

(** A node that starts with an empty store and a worker that has applied
    nothing; then the entry of index 5, put alpha = 1, is applied once and
    delivered a second time. *)
Definition apply_w0 : Apply.apply_world :=
  Apply.mk_apply_world kv_w0 Queue.pgraft_worker_get_state_init [].

Definition apply_w1 : Apply.apply_world :=
  (Apply.pgraft_apply_entry_to_postgres 5 put_alpha 100 apply_w0).2.

Definition apply_w2 : Apply.apply_world :=
  (Apply.pgraft_apply_entry_to_postgres 5 put_alpha 101 apply_w1).2.

(** * Properties *)

Lemma wrap64_small (z : Z) :
  - 2 ^ 63 <= z < 2 ^ 63 -> wrap64 z = z.
Proof. intros Hz. unfold wrap64. rewrite Z.mod_small; lia. Qed.

Lemma wrap32_small (z : Z) :
  - 2 ^ 31 <= z < 2 ^ 31 -> wrap32 z = z.
Proof. intros Hz. unfold wrap32. rewrite Z.mod_small; lia. Qed.

Lemma wrap32_small_count (n : Z) :
  0 <= n < INT32_MAX -> wrap32 (n + 1) = n + 1.
Proof. unfold INT32_MAX. intros Hn. apply wrap32_small. lia. Qed.

Lemma wrap64_small_count (n : Z) :
  0 <= n < INT64_MAX -> wrap64 (n + 1) = n + 1.
Proof. unfold INT64_MAX. intros Hn. apply wrap64_small. lia. Qed.

Ltac by_compute := apply (bool_decide_unpack _); vm_compute; exact I.
Ltac by_compute_all := repeat split; by_compute.

Lemma Forall_filter_keep {A} (P Q : A -> Prop) `{!forall x, Decision (Q x)}
    (l : list A) :
  Forall P l -> Forall P (filter Q l).
Proof.
  rewrite !Forall_forall. intros Hl x [_ Hx]%list_elem_of_filter. auto.
Qed.

Lemma outcome_ret0_dec (r : outcome Z) : {r = Ret 0} + {r <> Ret 0}.
Proof.
  destruct r as [z| |]; [|by right..].
  destruct (decide (z = 0)) as [->|Hz]; [by left|right; congruence].
Defined.

Module LogFacts.
Import Log.

Local Open Scope nat_scope.

(** The scan finds the first slot of the window whose index matches. *)
Lemma log_find_from_list_find (es : list pgraft_log_entry_t) (idx : Z) (n i : nat) :
  i + n <= length es ->
  find_from es idx n i =
  (fun p : nat * pgraft_log_entry_t => i + p.1) <$>
    list_find (fun e => index e = idx) (take n (drop i es)).
Proof.
  revert i. induction n as [|n IH]; intros i Hlen; simpl.
  - reflexivity.
  - destruct (lookup_lt_is_Some_2 es i) as [e He]; [lia|].
    rewrite (list_lookup_total_correct _ _ _ He).
    rewrite (drop_S _ _ _ He). simpl.
    case_bool_decide as Hidx.
    + rewrite decide_True by done. simpl. f_equal. lia.
    + rewrite decide_False by done. rewrite IH by lia.
      destruct (list_find _ _) as [[k e']|]; simpl; [f_equal; lia | done].
Qed.

Lemma find_entry_list_find (st : pgraft_log_state_t) (idx : Z) :
  well_formed st ->
  find_entry st idx = fst <$> list_find (fun e => index e = idx) (live st).
Proof.
  intros [_ Hlen]. unfold find_entry, live.
  rewrite log_find_from_list_find by (simpl; lia).
  rewrite drop_0. by destruct (list_find _ _) as [[k e]|].
Qed.

Lemma find_entry_None (st : pgraft_log_state_t) (idx : Z) :
  well_formed st ->
  (forall e, e ∈ live st -> index e <> idx) ->
  find_entry st idx = None.
Proof.
  intros Hwf Hno. rewrite find_entry_list_find by done.
  destruct (list_find _ _) as [[k e]|] eqn:Hfind; [|done].
  apply list_find_Some in Hfind as (Hk & He & _).
  exfalso. eapply Hno; [|exact He]. by eapply list_elem_of_lookup_2.
Qed.

Lemma find_entry_Some (st : pgraft_log_state_t) (idx : Z) (k : nat)
    (e : pgraft_log_entry_t) :
  well_formed st ->
  list_find (fun e => index e = idx) (live st) = Some (k, e) ->
  find_entry st idx = Some k /\ entries st !!! k = e.
Proof.
  intros Hwf Hfind. rewrite find_entry_list_find, Hfind by done.
  split; [done|].
  apply list_find_Some in Hfind as (Hk & _ & _).
  unfold live in Hk. apply lookup_take_Some in Hk as [Hk _].
  by apply list_lookup_total_correct.
Qed.

(** C6. A commit of an index that no entry in use carries returns -1; an apply
    returns -1 when no entry in use carries the index, and when the entry the
    scan reaches is not committed.  The tracker, with commit_index and
    last_applied, is the same afterwards. *)
Theorem commit_apply_failure_unchanged (st : pgraft_log_state_t) (i : Z) :
  well_formed st ->
  ((forall e, e ∈ live st -> index e <> i) ->
     pgraft_log_commit_entry i st = (Ret (-1)%Z, st) /\
     pgraft_log_apply_entry i st = (Ret (-1)%Z, st)) /\
  (forall k e,
     list_find (fun e => index e = i) (live st) = Some (k, e) ->
     committed e = 0%Z ->
     pgraft_log_apply_entry i st = (Ret (-1)%Z, st)).
Proof.
  intros Hwf. split.
  - intros Hno. unfold pgraft_log_commit_entry, pgraft_log_apply_entry.
    by rewrite (find_entry_None _ _ Hwf Hno).
  - intros k e Hfind Hc. unfold pgraft_log_apply_entry.
    destruct (find_entry_Some _ _ _ _ Hwf Hfind) as [-> ->].
    by rewrite bool_decide_eq_true_2.
Qed.

Lemma commit_apply_failure_unchanged_witness :
  let st := run [Append 7 [x61] 100] pgraft_log_init_shared_memory in
  pgraft_log_commit_entry 5 st = (Ret (-1)%Z, st) /\
  pgraft_log_apply_entry 5 st = (Ret (-1)%Z, st) /\
  pgraft_log_apply_entry 1 st = (Ret (-1)%Z, st).
Proof.
  intros st.
  assert (Hwf : well_formed st) by (split; by_compute).
  destruct (commit_apply_failure_unchanged st 5 Hwf) as [Hmissing _].
  destruct (commit_apply_failure_unchanged st 1 Hwf) as [_ Hpending].
  destruct Hmissing as [Hc Ha].
  { apply Forall_forall. by_compute. }
  split; [exact Hc|]. split; [exact Ha|].
  eapply (Hpending 0); vm_compute; reflexivity.
Defined.

(** *** The cleanup removes exactly the entries below the threshold *)

Lemma shift_down_spec (n j : nat) (es : list pgraft_log_entry_t) :
  j + n < length es ->
  shift_down n j es = take j es ++ take n (drop (S j) es) ++ drop (j + n) es.
Proof.
  revert j es. induction n as [|n IH]; intros j es Hlen; simpl.
  - by rewrite Nat.add_0_r, take_drop.
  - destruct (lookup_lt_is_Some_2 es (S j)) as [x Hx]; [lia|].
    rewrite (list_lookup_total_correct _ _ _ Hx).
    rewrite IH by (rewrite length_insert; lia).
    rewrite take_insert_lt by lia.
    rewrite !drop_insert_lt by lia.
    rewrite (drop_S es x (S j) Hx). simpl.
    destruct (lookup_lt_is_Some_2 es j) as [y Hy]; [lia|].
    rewrite (take_S_r es j y Hy).
    rewrite insert_app_r_alt by (rewrite length_take; lia).
    rewrite length_take, Nat.min_l, Nat.sub_diag by lia. simpl.
    rewrite <- app_assoc. simpl. by rewrite Nat.add_succ_r.
Qed.

Lemma cleanup_loop_spec (b : Z) (m : nat) :
  forall (fuel i n : nat) (removed : Z) (st : pgraft_log_state_t),
    log_size st = Z.of_nat n -> n <= length (entries st) -> i <= n ->
    m = n - i -> m <= fuel ->
    let st' := (cleanup_loop fuel b (Z.of_nat i) removed st).1 in
    live st' = take i (live st) ++ filter (keep b) (drop i (live st)) /\
    log_size st' = Z.of_nat (length (live st')) /\
    length (entries st') = length (entries st) /\
    same_counters st st'.
Proof.
  induction m as [|m IH]; intros fuel i n removed st Hn Hlen Hi Hm Hfuel.
  - assert (i = n) as -> by lia.
    assert (cleanup_loop fuel b (Z.of_nat n) removed st = (st, removed)) as ->.
    { destruct fuel; simpl; [done|]. by rewrite bool_decide_eq_false_2 by lia. }
    simpl. unfold live. rewrite Hn, Nat2Z.id.
    rewrite take_take, Nat.min_id, drop_ge by (rewrite length_take; lia).
    rewrite filter_nil, app_nil_r, length_take.
    repeat split; try done. lia.
  - destruct fuel as [|fuel]; [lia|]. simpl.
    rewrite bool_decide_eq_true_2 by lia.
    rewrite Nat2Z.id.
    destruct (lookup_lt_is_Some_2 (entries st) i) as [e He]; [lia|].
    rewrite (list_lookup_total_correct _ _ _ He).
    assert (Hlive : live st = take i (entries st)
                              ++ e :: take (n - S i) (drop (S i) (entries st))).
    { unfold live. rewrite Hn, Nat2Z.id.
      replace n with (i + S (n - S i)) at 1 by lia.
      rewrite <- take_take_drop. f_equal.
      by rewrite (drop_S _ _ _ He). }
    assert (Htk : length (take i (entries st)) = i)
      by (rewrite length_take; lia).
    case_bool_decide as Hidx.
    + (* slot i is removed *)
      set (es := shift_down _ _ _).
      set (st1 := set_entries es (log_size st - 1) st).
      assert (Hes : es = take i (entries st)
                         ++ take (n - S i) (drop (S i) (entries st))
                         ++ drop (n - 1) (entries st)).
      { unfold es. rewrite Hn.
        replace (Z.to_nat (Z.of_nat n - 1 - Z.of_nat i)) with (n - S i) by lia.
        rewrite shift_down_spec by lia. do 3 f_equal. lia. }
      assert (Hlen1 : length es = length (entries st)).
      { rewrite Hes, !length_app, !length_take, !length_drop. lia. }
      destruct (IH fuel i (n - 1) (removed + 1)%Z st1)
        as (H1 & H2 & H3 & H4); simpl; try lia.
      assert (Hlive1 : live st1 = take i (entries st)
                                  ++ take (n - S i) (drop (S i) (entries st))).
      { unfold live, st1. simpl. rewrite Hn, Hes.
        replace (Z.to_nat (Z.of_nat n - 1)) with (i + (n - S i)) by lia.
        rewrite take_app_add' by done.
        f_equal. rewrite take_app_length'; [done|].
        rewrite length_take, length_drop. lia. }
      fold st1. split; [|split; [exact H2|split; [by rewrite H3|exact H4]]].
      rewrite H1, Hlive1, Hlive.
      rewrite !take_app_length' by done.
      rewrite !drop_app_length' by done.
      by rewrite filter_cons_False by (unfold keep; tauto).
    + (* slot i stays *)
      replace (Z.of_nat i + 1)%Z with (Z.of_nat (S i)) by lia.
      destruct (IH fuel (S i) n removed st)
        as (H1 & H2 & H3 & H4); simpl; try lia.
      split; [|split; [exact H2|split; [exact H3|exact H4]]].
      rewrite H1, Hlive.
      replace (S i) with (i + 1) by lia.
      rewrite (take_app_add' _ _ i 1 (eq_sym Htk)).
      rewrite (drop_app_add' _ _ i 1 (eq_sym Htk)).
      rewrite (take_app_length' _ _ i (eq_sym Htk)).
      rewrite (drop_app_length' _ _ i (eq_sym Htk)).
      rewrite filter_cons_True by done. simpl.
      by rewrite take_0, drop_0, <- app_assoc.
Qed.

(** The loop has run to its end: with log_size iterations allowed the exit
    test [i < log_size] is what stops it, and what is left in use is the
    filtered log. *)
Lemma cleanup_loop_done (b : Z) (st : pgraft_log_state_t) :
  well_formed st ->
  let st' := pgraft_log_cleanup_old_entries b st in
  live st' = filter (keep b) (live st) /\
  log_size st' = Z.of_nat (length (live st')) /\
  length (entries st') = length (entries st) /\
  same_counters st st'.
Proof.
  intros [H0 Hlen]. unfold pgraft_log_cleanup_old_entries.
  destruct (cleanup_loop_spec b (Z.to_nat (log_size st))
              (Z.to_nat (log_size st)) 0 (Z.to_nat (log_size st)) 0%Z st)
    as (H1 & H2 & H3 & H4); try lia.
  simpl in *. done.
Qed.

(** *** Invariant of the tracker *)

Lemma log_inv_well_formed st : log_inv st -> well_formed st.
Proof. intros [H1 H2 _ _ _]. split; [lia|]. rewrite H1. lia. Qed.

Lemma log_inv_init : log_inv pgraft_log_init_shared_memory.
Proof.
  split.
  - apply length_replicate.
  - unfold LOG_CAPACITY. simpl. lia.
  - simpl. lia.
  - change (indices pgraft_log_init_shared_memory) with (@nil Z). constructor.
  - change (indices pgraft_log_init_shared_memory) with (@nil Z). constructor.
Qed.

(** What a successful append does to the entries in use. *)
Lemma append_entry_spec (t : Z) (d : option (list byte)) (sz now : Z)
    (st : pgraft_log_state_t) :
  log_inv st -> (last_index st < INT64_MAX)%Z ->
  let '(r, st') := pgraft_log_append_entry t d sz now st in
  (r <> Ret 0%Z /\ st' = st) \/
  (r = Ret 0%Z /\
   last_index st' = (last_index st + 1)%Z /\
   indices st' = indices st ++ [(last_index st + 1)%Z] /\
   log_inv st').
Proof.
  intros Hinv Hlast. unfold pgraft_log_append_entry.
  destruct Hinv as [Hlen Hsz H0 Hsorted Hbound].
  case_bool_decide; [left; done|].
  case_bool_decide as Hfull; [left; done|].
  case_bool_decide as Hread; [left; done|].
  right. unfold LOG_CAPACITY, INT64_MAX in *.
  rewrite wrap64_small, wrap32_small by lia.
  set (e := mk_entry _ _ _ _ _ _ _).
  assert (Hidx : indices
            (mk_state (<[Z.to_nat (log_size st) := e]> (entries st))
               (log_size st + 1) (last_index st + 1) (commit_index st)
               (last_applied st) (entries_replicated st)
               (entries_committed st) (entries_applied st)
               (replication_errors st))
          = indices st ++ [(last_index st + 1)%Z]).
  { unfold indices, live. simpl.
    replace (Z.to_nat (log_size st + 1)) with (S (Z.to_nat (log_size st)))
      by lia.
    rewrite (take_S_r _ _ e) by (apply list_lookup_insert_eq; lia).
    rewrite take_insert_ge by lia. by rewrite fmap_app. }
  split; [done|]. split; [done|]. split; [done|].
  split.
  - simpl. by rewrite length_insert.
  - unfold LOG_CAPACITY. simpl. lia.
  - simpl. lia.
  - rewrite Hidx. apply StronglySorted_app_2; [|done|repeat constructor].
    intros x y Hx Hy. apply list_elem_of_singleton in Hy as ->.
    rewrite Forall_forall in Hbound. specialize (Hbound x Hx). lia.
  - rewrite Hidx. simpl. apply Forall_app. split.
    + eapply Forall_impl; [exact Hbound|]. simpl. lia.
    + repeat constructor; lia.
Qed.

(** Commit and apply rewrite the flags of one slot; the indices stay. *)
Lemma indices_set_flags (st : pgraft_log_state_t) (i : nat)
    (e' : pgraft_log_entry_t) (n : Z) :
  index e' = index (entries st !!! i) ->
  i < length (entries st) ->
  index <$> take (Z.to_nat n) (<[i := e']> (entries st))
  = index <$> take (Z.to_nat n) (entries st).
Proof.
  intros He Hi. rewrite !fmap_take, list_fmap_insert, He.
  destruct (lookup_lt_is_Some_2 (entries st) i Hi) as [e Hie].
  rewrite (list_lookup_total_correct _ _ _ Hie).
  by rewrite list_insert_id by (by rewrite list_lookup_fmap, Hie).
Qed.

Lemma find_entry_lt (st : pgraft_log_state_t) (idx : Z) (i : nat) :
  well_formed st -> find_entry st idx = Some i -> i < length (entries st).
Proof.
  intros Hwf. rewrite find_entry_list_find by done.
  destruct (list_find _ _) as [[k e]|] eqn:Hfind; [|done].
  intros [= <-]. apply list_find_Some in Hfind as (Hk & _ & _).
  unfold live in Hk. apply lookup_take_Some in Hk as [Hk _].
  by eapply lookup_lt_Some.
Qed.

Lemma commit_entry_inv (idx : Z) (st : pgraft_log_state_t) :
  log_inv st ->
  let st' := (pgraft_log_commit_entry idx st).2 in
  last_index st' = last_index st /\ log_inv st'.
Proof.
  intros Hinv. unfold pgraft_log_commit_entry.
  destruct (find_entry st idx) as [i|] eqn:Hfind; [|done].
  pose proof (find_entry_lt _ _ _ (log_inv_well_formed _ Hinv) Hfind) as Hi.
  destruct Hinv as [Hlen Hsz H0 Hsorted Hbound]. simpl.
  split; [done|]. split; simpl; try done.
  - by rewrite length_insert.
  - unfold indices, live in *. simpl. by rewrite indices_set_flags.
  - unfold indices, live in *. simpl. by rewrite indices_set_flags.
Qed.

Lemma apply_entry_inv (idx : Z) (st : pgraft_log_state_t) :
  log_inv st ->
  let st' := (pgraft_log_apply_entry idx st).2 in
  last_index st' = last_index st /\ log_inv st'.
Proof.
  intros Hinv. unfold pgraft_log_apply_entry.
  destruct (find_entry st idx) as [i|] eqn:Hfind; [|done].
  case_bool_decide; [done|].
  pose proof (find_entry_lt _ _ _ (log_inv_well_formed _ Hinv) Hfind) as Hi.
  destruct Hinv as [Hlen Hsz H0 Hsorted Hbound]. simpl.
  split; [done|]. split; simpl; try done.
  - by rewrite length_insert.
  - unfold indices, live in *. simpl. by rewrite indices_set_flags.
  - unfold indices, live in *. simpl. by rewrite indices_set_flags.
Qed.

Lemma sorted_fmap_filter (P : pgraft_log_entry_t -> Prop)
    `{!forall e, Decision (P e)} (Q : Z -> Prop)
    (l : list pgraft_log_entry_t) :
  StronglySorted Z.lt (index <$> l) -> Forall Q (index <$> l) ->
  StronglySorted Z.lt (index <$> filter P l) /\
  Forall Q (index <$> filter P l) /\
  (forall z, Forall (Z.lt z) (index <$> l) ->
             Forall (Z.lt z) (index <$> filter P l)).
Proof.
  induction l as [|e l IH]; simpl; [by repeat constructor|].
  rewrite StronglySorted_cons, Forall_cons. intros [Hhd Htl] [Hq Hqs].
  destruct (IH Htl Hqs) as (IH1 & IH2 & IH3).
  destruct (decide (P e)) as [Hp|Hp].
  - rewrite filter_cons_True by done. simpl.
    rewrite StronglySorted_cons, Forall_cons. repeat split; auto.
    intros z. rewrite !Forall_cons. intros [? ?]. auto.
  - rewrite filter_cons_False by done. repeat split; auto.
    intros z. rewrite !Forall_cons. intros [? ?]. auto.
Qed.

Lemma cleanup_inv (b : Z) (st : pgraft_log_state_t) :
  log_inv st ->
  let st' := pgraft_log_cleanup_old_entries b st in
  last_index st' = last_index st /\ log_inv st'.
Proof.
  intros Hinv.
  destruct (cleanup_loop_done b st (log_inv_well_formed _ Hinv))
    as (Hlive & Hsz & Hlen & Hsame).
  destruct Hinv as [Hlen0 Hsz0 H0 Hsorted Hbound].
  destruct Hsame as (Hl & _). simpl.
  destruct (sorted_fmap_filter (keep b) _ (live st) Hsorted Hbound)
    as (Hs' & Hb' & _).
  split; [done|]. split.
  - by rewrite Hlen.
  - rewrite Hsz, Hlive. split; [lia|].
    pose proof (length_filter (keep b) (live st)) as Hle.
    unfold live in Hle at 2. rewrite length_take in Hle. lia.
  - by rewrite Hl.
  - unfold indices. by rewrite Hlive.
  - unfold indices. by rewrite Hlive, Hl.
Qed.

Lemma run_assigned (ops : list log_op) :
  forall st : pgraft_log_state_t,
    log_inv st ->
    (last_index st + Z.of_nat (length ops) <= INT64_MAX)%Z ->
    assigned ops st
    = seqZ (last_index st + 1) (Z.of_nat (length (assigned ops st))) /\
    last_index (run ops st)
    = (last_index st + Z.of_nat (length (assigned ops st)))%Z /\
    (length (assigned ops st) <= length ops) /\
    log_inv (run ops st).
Proof.
  induction ops as [|op ops IH]; intros st Hinv Hbound.
  - simpl. rewrite Z.add_0_r. by rewrite seqZ_nil.
  - simpl in Hbound.
    assert (Hstep : forall st', log_inv st' ->
              last_index st' = last_index st ->
              assigned ops st'
              = seqZ (last_index st + 1)
                     (Z.of_nat (length (assigned ops st'))) /\
              last_index (run ops st')
              = (last_index st + Z.of_nat (length (assigned ops st')))%Z /\
              (length (assigned ops st') <= length (op :: ops)) /\
              log_inv (run ops st')).
    { intros st' Hinv' Hl.
      destruct (IH st' Hinv') as (I1 & I2 & I3 & I4); [lia|].
      rewrite Hl in I1, I2. simpl.
      split; [done|split; [done|split; [lia|done]]]. }
    destruct op as [t d now|i|i|b]; simpl.
    + pose proof (append_entry_spec t (Some d) (Z.of_nat (length d)) now st
                    Hinv) as Happ.
      destruct (pgraft_log_append_entry _ _ _ _ _) as [r st'].
      destruct Happ as [[Hr ->]|(-> & Hl & _ & Hinv')]; [lia| |].
      * destruct r as [[| |]| |]; try (by apply Hstep); by destruct Hr.
      * destruct (IH st' Hinv') as (I1 & I2 & I3 & I4); [lia|].
        simpl. rewrite Hl in *.
        split; [|split; [lia|split; [lia|done]]].
        rewrite seqZ_cons by lia. f_equal. rewrite I1 at 1.
        f_equal; lia.
    + destruct (commit_entry_inv i st Hinv) as [Hl Hinv'].
      destruct (pgraft_log_commit_entry i st) as [r st'].
      by apply Hstep.
    + destruct (apply_entry_inv i st Hinv) as [Hl Hinv'].
      destruct (pgraft_log_apply_entry i st) as [r st'].
      by apply Hstep.
    + destruct (cleanup_inv b st Hinv) as [Hl Hinv'].
      by apply Hstep.
Qed.

(** C5. From a fresh tracker, whatever commits, applies and cleanups come in
    between, the appends that succeed are handed the indices 1, 2, 3, ...:
    each one gets last_index + 1, the entries in use carry strictly increasing
    indices, and a cleanup does not change what the next append gets.  The
    bound on the number of calls keeps the int64 counter from wrapping. *)
Theorem append_indices_gapless (ops : list log_op) :
  (Z.of_nat (length ops) < INT64_MAX)%Z ->
  let st := run ops pgraft_log_init_shared_memory in
  let ids := assigned ops pgraft_log_init_shared_memory in
  ids = seqZ 1 (Z.of_nat (length ids)) /\
  last_index st = Z.of_nat (length ids) /\
  StronglySorted Z.lt (indices st) /\
  (forall b, last_index (pgraft_log_cleanup_old_entries b st) = last_index st
             /\ StronglySorted Z.lt
                  (indices (pgraft_log_cleanup_old_entries b st))) /\
  (forall t d now st',
     exec (Append t d now) st = (Ret 0%Z, st') ->
     last_index st' = (last_index st + 1)%Z /\
     indices st' = indices st ++ [(last_index st + 1)%Z]).
Proof.
  intros Hlen st ids.
  destruct (run_assigned ops _ log_inv_init) as (H1 & H2 & H3 & H4);
    [simpl; lia|].
  fold st in H2, H4. fold ids in H1, H2, H3. simpl in H1, H2.
  repeat split; try done.
  - apply H4.
  - by apply cleanup_inv.
  - apply (cleanup_inv b st H4).
  - pose proof (append_entry_spec t (Some d) (Z.of_nat (length d)) now st H4)
      as Happ.
    simpl in H. rewrite H in Happ.
    destruct Happ as [[Hr _]|(_ & Hl & _)]; [lia|done|done].
  - pose proof (append_entry_spec t (Some d) (Z.of_nat (length d)) now st H4)
      as Happ.
    simpl in H. rewrite H in Happ.
    destruct Happ as [[Hr _]|(_ & _ & Hi & _)]; [lia|done|done].
Qed.

Lemma append_indices_gapless_witness :
  let ops := [Append 7 [x61; x62] 100; Append 7 [x63] 101; Commit 1;
              Apply 1; Append 8 [] 5; Cleanup 3; Append 9 [] 6] in
  assigned ops pgraft_log_init_shared_memory = [1; 2; 3; 4]%Z /\
  indices (run ops pgraft_log_init_shared_memory) = [3; 4]%Z /\
  assigned ops pgraft_log_init_shared_memory
  = seqZ 1 (Z.of_nat (length (assigned ops pgraft_log_init_shared_memory))).
Proof.
  intros ops. split; [reflexivity|]. split; [reflexivity|].
  apply (append_indices_gapless ops). vm_compute. reflexivity.
Defined.

End LogFacts.

(** ** More on the log replication tracker *)

Module LogMore.
Import Log LogFacts.

Local Open Scope Z_scope.

(** A scan for an index still reaches slot [k] after the flags of that slot
    were rewritten. *)
Lemma list_find_same_index (l : list pgraft_log_entry_t) (i : Z) (k : nat)
    (e e' : pgraft_log_entry_t) :
  list_find (fun e => index e = i) l = Some (k, e) ->
  index e' = index e ->
  list_find (fun e => index e = i) (<[k := e']> l) = Some (k, e').
Proof.
  intros Hfind He'. apply list_find_insert_Some. right; left.
  apply list_find_Some in Hfind as (Hk & Hi & Hleast).
  split; [done|]. split; [done|]. split; [by eapply lookup_lt_Some|].
  split; [congruence|]. exact Hleast.
Qed.

Lemma if_gt_max (a b : Z) : (if bool_decide (b > a) then b else a) = Z.max a b.
Proof. case_bool_decide; lia. Qed.

Lemma live_set_slot (st : pgraft_log_state_t) (k : nat)
    (e' : pgraft_log_entry_t) (es : list pgraft_log_entry_t) (n : Z) :
  (k < Z.to_nat n)%nat ->
  take (Z.to_nat n) (<[k := e']> es) = <[k := e']> (take (Z.to_nat n) es).
Proof. intros Hk. by rewrite take_insert_lt. Qed.

(** X1. An entry in use can be committed and then applied: both calls return
    0, the entry carries both flags, commit_index and last_applied become the
    maximum of their old value and the index, and last_index and log_size do
    not move. *)
Theorem commit_then_apply_succeeds (st : pgraft_log_state_t) (i : Z)
    (k : nat) (e : pgraft_log_entry_t) :
  well_formed st ->
  list_find (fun e => index e = i) (live st) = Some (k, e) ->
  let r1 := pgraft_log_commit_entry i st in
  let r2 := pgraft_log_apply_entry i r1.2 in
  r1.1 = Ret 0 /\ r2.1 = Ret 0 /\
  commit_index r2.2 = Z.max (commit_index st) i /\
  last_applied r2.2 = Z.max (last_applied st) i /\
  live r2.2
  = <[k := mk_entry (index e) (term e) (timestamp e) (data e) (data_size e)
                    1 1]> (live st) /\
  last_index r2.2 = last_index st /\ log_size r2.2 = log_size st /\
  entries_committed r2.2 = wrap64 (entries_committed st + 1) /\
  entries_applied r2.2 = wrap64 (entries_applied st + 1).
Proof.
  intros Hwf Hfind r1 r2.
  destruct (find_entry_Some _ _ _ _ Hwf Hfind) as [Hk He].
  pose proof (find_entry_lt _ _ _ Hwf Hk) as Hlen.
  assert (Hkn : (k < Z.to_nat (log_size st))%nat).
  { apply list_find_Some in Hfind as (Hl & _). unfold live in Hl.
    by apply lookup_take_Some in Hl as [_ ?]. }
  set (e1 := mk_entry (index e) (term e) (timestamp e) (data e) (data_size e)
                      1 (applied e)).
  assert (Hr1 : r1 = (Ret 0,
            mk_state (<[k := e1]> (entries st)) (log_size st) (last_index st)
              (if bool_decide (i > commit_index st) then i else commit_index st)
              (last_applied st) (entries_replicated st)
              (wrap64 (entries_committed st + 1)) (entries_applied st)
              (replication_errors st))).
  { unfold r1, pgraft_log_commit_entry. by rewrite Hk, He. }
  assert (Hwf1 : well_formed r1.2).
  { rewrite Hr1. destruct Hwf as [H0 H1]. split; [done|].
    cbn. by rewrite length_insert. }
  assert (Hlive1 : live r1.2 = <[k := e1]> (live st)).
  { rewrite Hr1. unfold live. cbn. by apply live_set_slot. }
  assert (Hfind1 : list_find (fun e => index e = i) (live r1.2) = Some (k, e1)).
  { rewrite Hlive1. by apply (list_find_same_index _ _ _ e). }
  destruct (find_entry_Some _ _ _ _ Hwf1 Hfind1) as [Hk1 He1].
  assert (Hr2 : r2 = (Ret 0,
            mk_state (<[k := mk_entry (index e) (term e) (timestamp e) (data e)
                                      (data_size e) 1 1]> (entries r1.2))
              (log_size r1.2) (last_index r1.2) (commit_index r1.2)
              (if bool_decide (i > last_applied r1.2) then i
               else last_applied r1.2)
              (entries_replicated r1.2) (entries_committed r1.2)
              (wrap64 (entries_applied r1.2 + 1)) (replication_errors r1.2))).
  { unfold r2, pgraft_log_apply_entry. rewrite Hk1, He1. by cbn. }
  rewrite Hr2. cbn [fst snd]. rewrite Hr1. cbn.
  split; [done|]. split; [done|].
  rewrite !if_gt_max.
  split; [done|]. split; [done|].
  split; [|done].
  unfold live. cbn. rewrite list_insert_insert_eq.
  by apply live_set_slot.
Qed.

Lemma commit_then_apply_succeeds_witness :
  let st := run [Append 7 [x61] 100; Append 7 [x62] 101]
                pgraft_log_init_shared_memory in
  let r := pgraft_log_apply_entry 2 (pgraft_log_commit_entry 2 st).2 in
  r.1 = Ret 0 /\ commit_index r.2 = 2 /\ last_applied r.2 = 2.
Proof.
  intros st r.
  assert (Hwf : well_formed st) by (split; by_compute).
  destruct (commit_then_apply_succeeds st 2 1 (live st !!! 1%nat) Hwf)
    as (_ & H2 & H3 & H4 & _); [vm_compute; reflexivity|].
  split; [exact H2|]. split; [exact H3|exact H4].
Defined.

(** The state after an append that succeeded. *)
Lemma append_shape (t : Z) (d : option (list byte)) (sz now : Z)
    (st : pgraft_log_state_t) :
  log_inv st -> last_index st < INT64_MAX ->
  let r := pgraft_log_append_entry t d sz now st in
  (r.1 <> Ret 0 /\ r.2 = st) \/
  exists e,
    r.1 = Ret 0 /\
    r.2 = mk_state (<[Z.to_nat (log_size st) := e]> (entries st))
                   (log_size st + 1) (last_index st + 1) (commit_index st)
                   (last_applied st) (entries_replicated st)
                   (entries_committed st) (entries_applied st)
                   (replication_errors st) /\
    live r.2 = live st ++ [e] /\
    index e = last_index st + 1 /\ term e = t /\ timestamp e = now /\
    data_size e = sz /\ committed e = 0 /\ applied e = 0 /\
    (forall bytes, d = Some bytes ->
       take (Z.to_nat sz) (data e) = take (Z.to_nat sz) bytes) /\
    log_size st < LOG_CAPACITY.
Proof.
  intros [Hlen Hsz Hpos _ _] Hlast r. unfold r, pgraft_log_append_entry.
  case_bool_decide; [left; done|].
  case_bool_decide as Hfull; [left; done|].
  case_bool_decide as Hread; [left; done|].
  right. unfold LOG_CAPACITY, INT64_MAX in *.
  rewrite wrap64_small, wrap32_small by lia.
  eexists. split; [reflexivity|]. split; [reflexivity|]. cbn [snd].
  split.
  { unfold live. cbn.
    replace (Z.to_nat (log_size st + 1)) with (S (Z.to_nat (log_size st)))
      by lia.
    erewrite take_S_r by (apply list_lookup_insert_eq; lia).
    by rewrite take_insert_ge by lia. }
  cbn. repeat (split; [done|]). split; [|lia].
  intros bytes ->. rewrite take_insert_ge by lia.
  destruct Hread as [Hnn Hb].
  case_bool_decide.
  - unfold memcpy. rewrite take_app_length'; [done|]. rewrite length_take. lia.
  - by replace (Z.to_nat sz) with 0%nat by lia.
Qed.

(** One call keeps the invariant of the tracker and moves last_index by at
    most one, upwards. *)
Lemma exec_inv (op : log_op) (st : pgraft_log_state_t) :
  log_inv st -> last_index st < INT64_MAX ->
  log_inv (exec op st).2 /\
  last_index st <= last_index (exec op st).2 <= last_index st + 1.
Proof.
  intros Hinv Hlast. destruct op as [t d now|i|i|b]; cbn [exec].
  - pose proof (append_entry_spec t (Some d) (Z.of_nat (length d)) now st
                  Hinv Hlast) as Happ.
    destruct (pgraft_log_append_entry _ _ _ _ _) as [r st'].
    destruct Happ as [[_ ->]|(_ & Hl & _ & Hinv')]; cbn; [split; [done|lia]|].
    split; [done|lia].
  - destruct (commit_entry_inv i st Hinv) as [Hl Hinv']. cbn in *.
    split; [done|lia].
  - destruct (apply_entry_inv i st Hinv) as [Hl Hinv']. cbn in *.
    split; [done|lia].
  - destruct (cleanup_inv b st Hinv) as [Hl Hinv']. cbn in *.
    split; [done|lia].
Qed.

Lemma Forall_insert_flags (P : pgraft_log_entry_t -> Prop)
    (l : list pgraft_log_entry_t) (k : nat) (e' : pgraft_log_entry_t) :
  Forall P l -> P e' -> Forall P (<[k := e']> l).
Proof. intros Hl He'. by apply Forall_insert. Qed.

(** One call keeps the order of the flags. *)
Lemma exec_flags_ordered (op : log_op) (st : pgraft_log_state_t) :
  log_inv st -> last_index st < INT64_MAX -> flags_ordered st ->
  flags_ordered (exec op st).2 /\
  commit_index st <= commit_index (exec op st).2 /\
  last_applied st <= last_applied (exec op st).2.
Proof.
  intros Hinv Hlast [Hflags Hord].
  pose proof (log_inv_well_formed _ Hinv) as Hwf.
  destruct op as [t d now|i|i|b]; cbn [exec].
  - destruct (append_shape t (Some d) (Z.of_nat (length d)) now st Hinv Hlast)
      as [[_ ->]|(e & _ & -> & Hlive & _ & _ & _ & _ & Hc & Ha & _)];
      [done|].
    split; [|done]. split; [|cbn; lia].
    fold (pgraft_log_append_entry t (Some d) (Z.of_nat (length d)) now st) in Hlive.
    cbn [exec] in Hlive. revert Hlive. unfold live at 1 3. cbn. intros ->.
    apply Forall_app. split; [exact Hflags|].
    constructor; [|done]. rewrite Hc, Ha. by split.
  - unfold pgraft_log_commit_entry.
    destruct (find_entry st i) as [k|] eqn:Hk; cbn; [|done].
    pose proof (find_entry_lt _ _ _ Hwf Hk) as Hklen.
    rewrite find_entry_list_find in Hk by done.
    destruct (list_find _ _) as [[k' e]|] eqn:Hfind; [|done].
    injection Hk as ->.
    destruct (find_entry_Some _ _ _ _ Hwf Hfind) as [_ He].
    apply list_find_Some in Hfind as (Hl & Hi & _).
    assert (Hkn : (k < Z.to_nat (log_size st))%nat).
    { unfold live in Hl. by apply lookup_take_Some in Hl as [_ ?]. }
    assert (Hbound : i <= last_index st).
    { destruct Hinv as [_ _ _ _ Hb]. rewrite Forall_forall in Hb.
      specialize (Hb (index e)). rewrite <- Hi.
      apply Hb. unfold indices. apply list_elem_of_fmap. exists e.
      split; [done|]. by eapply list_elem_of_lookup_2. }
    split; [|split; [case_bool_decide; lia|done]].
    split; [|cbn; case_bool_decide; lia].
    unfold live. cbn. rewrite take_insert_lt by done.
    apply Forall_insert_flags.
    + eapply Forall_impl; [exact Hflags|]. cbn.
      intros x [Hx1 Hx2]. split; [done|]. intros Hc. specialize (Hx2 Hc).
      case_bool_decide; lia.
    + rewrite He. cbn. split; [done|]. intros _. case_bool_decide; lia.
  - unfold pgraft_log_apply_entry.
    destruct (find_entry st i) as [k|] eqn:Hk; cbn; [|done].
    pose proof (find_entry_lt _ _ _ Hwf Hk) as Hklen.
    rewrite find_entry_list_find in Hk by done.
    destruct (list_find _ _) as [[k' e]|] eqn:Hfind; [|done].
    injection Hk as ->.
    destruct (find_entry_Some _ _ _ _ Hwf Hfind) as [_ He].
    apply list_find_Some in Hfind as (Hl & Hi & _).
    assert (Hkn : (k < Z.to_nat (log_size st))%nat).
    { unfold live in Hl. by apply lookup_take_Some in Hl as [_ ?]. }
    rewrite He. case_bool_decide as Hc; cbn; [done|].
    assert (Hcov : i <= commit_index st).
    { rewrite Forall_forall in Hflags.
      destruct (Hflags e) as [_ Hx]; [by eapply list_elem_of_lookup_2|].
      rewrite <- Hi. by apply Hx. }
    split; [|split; [done|case_bool_decide; lia]].
    split; [|cbn; case_bool_decide; lia].
    unfold live. cbn. rewrite take_insert_lt by done.
    apply Forall_insert_flags; [done|].
    cbn. split; [done|]. intros _. rewrite Hi. done.
  - destruct (cleanup_loop_done b st Hwf) as (Hlive & _ & _ & Hsame).
    destruct Hsame as (Hl & Hc & Ha & _). cbn [snd]. unfold flags_ordered.
    rewrite Hl, Hc, Ha, Hlive. split; [|done]. split; [|done].
    by apply Forall_filter_keep.
Qed.

Lemma run_flags_ordered (ops : list log_op) :
  forall st : pgraft_log_state_t,
    log_inv st -> flags_ordered st ->
    last_index st + Z.of_nat (length ops) <= INT64_MAX ->
    log_inv (run ops st) /\ flags_ordered (run ops st) /\
    last_index st <= last_index (run ops st)
                  <= last_index st + Z.of_nat (length ops) /\
    commit_index st <= commit_index (run ops st) /\
    last_applied st <= last_applied (run ops st).
Proof.
  induction ops as [|op ops IH]; intros st Hinv Hflags Hbound.
  - change (run [] st) with st. split; [done|]. split; [done|]. cbn. lia.
  - cbn [length] in Hbound.
    destruct (exec_inv op st Hinv) as [Hinv' Hl]; [lia|].
    destruct (exec_flags_ordered op st Hinv) as (Hflags' & Hc & Ha);
      [lia|done|].
    destruct (IH (exec op st).2 Hinv' Hflags') as (I1 & I2 & I3 & I4 & I5);
      [lia|].
    change (run (op :: ops) st) with (run ops (exec op st).2).
    split; [done|]. split; [done|]. cbn [length]. lia.
Qed.

(** X2. Whatever calls are made on a fresh tracker, an entry in use that is
    applied is committed, a committed entry has an index at or below
    commit_index, and last_applied <= commit_index <= last_index. *)
Theorem applied_implies_committed (ops : list log_op) :
  Z.of_nat (length ops) < INT64_MAX ->
  let st := run ops pgraft_log_init_shared_memory in
  Forall (fun e => (applied e <> 0 -> committed e <> 0) /\
                   (committed e <> 0 -> index e <= commit_index st))
         (live st) /\
  last_applied st <= commit_index st <= last_index st.
Proof.
  intros Hlen st.
  destruct (run_flags_ordered ops pgraft_log_init_shared_memory log_inv_init)
    as (_ & Hflags & _).
  - split; [|done]. change (live pgraft_log_init_shared_memory) with
      (@nil pgraft_log_entry_t). constructor.
  - cbn. lia.
  - exact Hflags.
Qed.

Lemma applied_implies_committed_witness :
  let st := run [Append 7 [x61] 100; Append 7 [x62] 101; Apply 2; Commit 2;
                 Apply 2; Commit 1]
                pgraft_log_init_shared_memory in
  ((fun e => (committed e, applied e)) <$> live st) = [(1, 0); (1, 1)] /\
  last_applied st <= commit_index st <= last_index st.
Proof.
  intros st. split; [vm_compute; reflexivity|].
  refine (proj2 (applied_implies_committed _ _)). by_compute.
Defined.



(** X4. A cleanup removes from the entries in use exactly those with an
    index below the threshold: the others stay, in their order and with
    their flags, log_size is their number, and last_index, commit_index and
    last_applied are not touched. *)
Theorem cleanup_removes_exactly_older (b : Z) (st : pgraft_log_state_t) :
  well_formed st ->
  let st' := pgraft_log_cleanup_old_entries b st in
  live st' = filter (fun e => ~ index e < b) (live st) /\
  (forall e, e ∈ live st' <-> e ∈ live st /\ b <= index e) /\
  log_size st' = Z.of_nat (length (live st')) /\
  last_index st' = last_index st /\ commit_index st' = commit_index st /\
  last_applied st' = last_applied st.
Proof.
  intros Hwf st'. subst st'.
  destruct (cleanup_loop_done b st Hwf) as (Hlive & Hsz & _ & Hsame).
  destruct Hsame as (Hl & Hc & Ha & _).
  split; [exact Hlive|]. split; [|done].
  intros e. rewrite Hlive, list_elem_of_filter. unfold keep.
  split; intros [? ?]; split; try done; lia.
Qed.

Lemma cleanup_removes_exactly_older_witness :
  let st := run [Append 7 [x61] 100; Append 7 [x62] 101; Append 8 [x63] 102;
                 Commit 2] pgraft_log_init_shared_memory in
  (index <$> live (pgraft_log_cleanup_old_entries 2 st)) = [2; 3] /\
  live (pgraft_log_cleanup_old_entries 2 st)
  = filter (fun e => ~ index e < 2) (live st).
Proof.
  intros st. split; [vm_compute; reflexivity|].
  refine (proj1 (cleanup_removes_exactly_older 2 st _)). split; by_compute.
Defined.

(** After an append that succeeded the new index is looked up in the last
    slot in use, and every other index is looked up as before. *)
Lemma append_get_entry (t : Z) (d : list byte) (now : Z)
    (st st' : pgraft_log_state_t) :
  log_inv st -> last_index st < INT64_MAX ->
  pgraft_log_append_entry t (Some d) (Z.of_nat (length d)) now st
  = (Ret 0, st') ->
  (exists e,
     pgraft_log_get_entry (last_index st + 1) st' = (0, Some e) /\
     index e = last_index st + 1 /\ term e = t /\
     data_size e = Z.of_nat (length d) /\
     take (length d) (data e) = d /\ committed e = 0 /\ applied e = 0) /\
  (forall j, j <> last_index st + 1 ->
     pgraft_log_get_entry j st' = pgraft_log_get_entry j st).
Proof.
  intros Hinv Hlast Happ.
  pose proof (log_inv_well_formed _ Hinv) as Hwf.
  destruct (append_shape t (Some d) (Z.of_nat (length d)) now st Hinv Hlast)
    as [[Hne _]|(e & _ & Hst' & Hlive & Hi & Ht & _ & Hsz & Hc & Ha & Hd
                 & Hroom)];
    rewrite Happ in *; [done|].
  cbn [snd] in Hst', Hlive.
  assert (Hwf' : well_formed st').
  { destruct Hinv as [Hlen Hn _ _ _]. unfold LOG_CAPACITY in *.
    rewrite Hst'. split; cbn; [lia|]. rewrite length_insert. lia. }
  assert (Hn : length (live st) = Z.to_nat (log_size st)).
  { unfold live. rewrite length_take. destruct Hwf. lia. }
  assert (Hslot : forall k, (k < Z.to_nat (log_size st))%nat ->
            entries st' !!! k = entries st !!! k).
  { intros k Hk. rewrite Hst'. cbn.
    by rewrite list_lookup_total_insert_ne by lia. }
  assert (Hold : Forall (fun x => index x <> last_index st + 1) (live st)).
  { destruct Hinv as [_ _ _ _ Hb]. unfold indices in Hb.
    rewrite Forall_fmap in Hb. eapply Forall_impl; [exact Hb|].
    cbn. intros x Hx. lia. }
  split.
  - exists e. unfold pgraft_log_get_entry.
    rewrite find_entry_list_find, Hlive by done.
    rewrite list_find_app_r by (by apply list_find_None).
    cbn [list_find]. rewrite decide_True by done. cbn. rewrite Hn.
    rewrite Hst'. cbn. rewrite list_lookup_total_insert_eq
      by (destruct Hinv as [Hlen Hsz' _ _ _]; unfold LOG_CAPACITY in *; lia).
    split; [done|]. split; [done|]. split; [done|]. split; [done|].
    split; [|done].
    specialize (Hd d eq_refl). rewrite Nat2Z.id in Hd. rewrite Hd.
    by rewrite take_ge.
  - intros j Hj. unfold pgraft_log_get_entry.
    rewrite !find_entry_list_find, Hlive by done.
    destruct (list_find (fun x => index x = j) (live st)) as [[k x]|] eqn:Hf.
    + rewrite (list_find_app_l _ _ _ _ _ Hf). cbn.
      rewrite Hslot; [done|].
      apply list_find_Some in Hf as (Hk & _). apply lookup_lt_Some in Hk. lia.
    + rewrite list_find_app_r by done. cbn [list_find].
      rewrite decide_False by congruence. done.
Qed.

(** X5. An entry that was appended is returned by a lookup of the index it
    was given, with its term, its length and its payload, and with neither
    flag set; every other index is looked up as before the append. *)
Theorem append_then_get_entry (t : Z) (d : list byte) (now : Z)
    (ops : list log_op) (st' : pgraft_log_state_t) :
  Z.of_nat (length ops) < INT64_MAX ->
  let st := run ops pgraft_log_init_shared_memory in
  pgraft_log_append_entry t (Some d) (Z.of_nat (length d)) now st
  = (Ret 0, st') ->
  (exists e,
     pgraft_log_get_entry (last_index st + 1) st' = (0, Some e) /\
     term e = t /\ data_size e = Z.of_nat (length d) /\
     take (length d) (data e) = d /\ committed e = 0 /\ applied e = 0) /\
  (forall j, j <> last_index st + 1 ->
     pgraft_log_get_entry j st' = pgraft_log_get_entry j st).
Proof.
  intros Hlen st Happ.
  destruct (run_flags_ordered ops pgraft_log_init_shared_memory log_inv_init)
    as (Hinv & _ & Hl & _).
  { split; [|done]. change (live pgraft_log_init_shared_memory) with
      (@nil pgraft_log_entry_t). constructor. }
  { cbn. lia. }
  fold st in Hinv, Hl. cbn in Hl.
  destruct (append_get_entry t d now st st' Hinv) as [(e & He) Hothers];
    [lia|done|].
  split; [|exact Hothers]. exists e. tauto.
Qed.

Lemma append_then_get_entry_witness :
  let ops := [Append 7 [x61] 100; Cleanup 2] in
  let st := run ops pgraft_log_init_shared_memory in
  exists st' e,
    pgraft_log_append_entry 9 (Some [x68; x69]) 2 101 st = (Ret 0, st') /\
    pgraft_log_get_entry 2 st' = (0, Some e) /\
    term e = 9 /\ take 2 (data e) = [x68; x69].
Proof.
  intros ops st.
  set (r := pgraft_log_append_entry 9 (Some [x68; x69]) 2 101 st).
  assert (Hr : r = (Ret 0, r.2)) by (vm_compute; reflexivity).
  destruct (append_then_get_entry 9 [x68; x69] 101 ops r.2)
    as [(e & Hget & Ht & _ & Hd & _) _]; [by_compute|exact Hr|].
  exists r.2, e. split; [exact Hr|]. split; [exact Hget|]. by split.
Defined.

(** The counting loop counts the entries at or above the threshold. *)
Lemma count_from_filter (es : list pgraft_log_entry_t) (from_index : Z)
    (n i : nat) (acc : Z) :
  (i + n <= length es)%nat -> 0 <= acc -> acc + Z.of_nat n < 2 ^ 31 ->
  count_from es from_index n i acc
  = acc + Z.of_nat (length (filter (fun e => index e >= from_index)
                                   (take n (drop i es)))).
Proof.
  revert i acc. induction n as [|n IH]; intros i acc Hlen H0 Hacc.
  - cbn [count_from]. rewrite take_0, filter_nil. cbn [length]. lia.
  - destruct (lookup_lt_is_Some_2 es i) as [e He]; [lia|].
    cbn [count_from]. rewrite (list_lookup_total_correct _ _ _ He).
    rewrite (drop_S _ _ _ He), firstn_cons.
    case_bool_decide as Hge.
    + rewrite filter_cons_True by done. rewrite wrap32_small by lia.
      rewrite IH by lia. cbn [length]. lia.
    + rewrite filter_cons_False by done. rewrite IH by lia. done.
Qed.

(** X6. pgraft_log_replicate_to_node returns 0 and adds to
    entries_replicated the number of entries in use whose index is at or
    above [from_index]; the entries and the other counters are as before. *)
Theorem replicate_counts_entries (node_id from_index : Z)
    (st : pgraft_log_state_t) :
  log_inv st ->
  let r := pgraft_log_replicate_to_node node_id from_index st in
  r.1 = 0 /\
  entries_replicated r.2
  = wrap64 (entries_replicated st
            + Z.of_nat (length (filter (fun e => index e >= from_index)
                                       (live st)))) /\
  entries r.2 = entries st /\ log_size r.2 = log_size st /\
  last_index r.2 = last_index st /\ commit_index r.2 = commit_index st /\
  last_applied r.2 = last_applied st.
Proof.
  intros [Hlen Hsz _ _ _] r. unfold LOG_CAPACITY in *.
  unfold r, pgraft_log_replicate_to_node. cbn.
  rewrite count_from_filter by (cbn; lia).
  rewrite drop_0. by repeat split.
Qed.

Lemma replicate_counts_entries_witness :
  let st := run [Append 7 [x61] 100; Append 7 [x62] 101; Append 7 [x63] 102]
                pgraft_log_init_shared_memory in
  entries_replicated (pgraft_log_replicate_to_node 2 2 st).2 = 2.
Proof.
  intros st.
  destruct (replicate_counts_entries 2 2 st) as (_ & H & _).
  - destruct (run_flags_ordered
                [Append 7 [x61] 100; Append 7 [x62] 101; Append 7 [x63] 102]
                pgraft_log_init_shared_memory log_inv_init) as (Hinv & _).
    + split; [|done]. change (live pgraft_log_init_shared_memory) with
        (@nil pgraft_log_entry_t). constructor.
    + by_compute.
    + exact Hinv.
  - rewrite H. vm_compute. reflexivity.
Defined.

(** X7. A reset takes the tracker back to an empty log: nothing is in use
    and the counters are 0, so the next append is given index 1 again, and a
    lookup of index 1 returns that entry and not one left in the array from
    before the reset. *)
Theorem reset_restarts_log (ops : list log_op) (t : Z) (d : list byte)
    (now : Z) :
  Z.of_nat (length ops) < INT64_MAX ->
  (Z.of_nat (length d) <= 1024) ->
  let st := pgraft_log_reset (run ops pgraft_log_init_shared_memory) in
  live st = [] /\ last_index st = 0 /\ commit_index st = 0 /\
  last_applied st = 0 /\
  exists st' e,
    pgraft_log_append_entry t (Some d) (Z.of_nat (length d)) now st
    = (Ret 0, st') /\
    last_index st' = 1 /\
    pgraft_log_get_entry 1 st' = (0, Some e) /\
    term e = t /\ take (length d) (data e) = d /\ committed e = 0.
Proof.
  intros Hlen Hd st.
  destruct (run_flags_ordered ops pgraft_log_init_shared_memory log_inv_init)
    as (Hinv & _).
  { split; [|done]. change (live pgraft_log_init_shared_memory) with
      (@nil pgraft_log_entry_t). constructor. }
  { cbn. lia. }
  assert (Hinv0 : log_inv st).
  { destruct Hinv as [Hl _ _ _ _]. split; cbn; try done;
      try (unfold LOG_CAPACITY; lia).
    change (indices st) with (@nil Z). constructor. }
  do 4 (split; [done|]).
  destruct (append_shape t (Some d) (Z.of_nat (length d)) now st Hinv0)
    as [[Hne Hsame]|(e0 & Hr & Hst' & _)]; [by_compute| |].
  { exfalso. apply Hne. unfold pgraft_log_append_entry.
    rewrite bool_decide_eq_false_2 by lia.
    rewrite bool_decide_eq_false_2 by (cbn; unfold LOG_CAPACITY; lia).
    rewrite bool_decide_eq_false_2; [done|].
    intros Hnr. apply Hnr. split; [lia|done]. }
  set (r := pgraft_log_append_entry t (Some d) (Z.of_nat (length d)) now st)
    in *.
  assert (Happ : r = (Ret 0, r.2)) by (destruct r; cbn in *; by subst).
  destruct (append_get_entry t d now st r.2 Hinv0)
    as [(e & Hget & _ & Ht & _ & Hdat & Hc & _) _]; [by_compute|exact Happ|].
  exists r.2, e. split; [exact Happ|]. split; [by rewrite Hst'|].
  by repeat split.
Qed.

Lemma reset_restarts_log_witness :
  let st := pgraft_log_reset
              (run [Append 7 [x61] 100; Append 7 [x62] 101; Commit 1]
                   pgraft_log_init_shared_memory) in
  exists st' e,
    pgraft_log_append_entry 9 (Some [x7a]) 1 102 st = (Ret 0, st') /\
    pgraft_log_get_entry 1 st' = (0, Some e) /\ term e = 9.
Proof.
  intros st.
  destruct (reset_restarts_log
              [Append 7 [x61] 100; Append 7 [x62] 101; Commit 1] 9 [x7a] 102)
    as (_ & _ & _ & _ & st' & e & Happ & _ & Hget & Ht & _);
    [by_compute|by_compute|].
  by exists st', e.
Defined.

End LogMore.

Module QueueFacts.
Import Queue.

Local Open Scope Z_scope.

(** C7. With the command ring at capacity a submission returns false at once
    and the worker state is untouched: count, head, tail, every slot, and so
    the commands waiting and their order.  The same holds for the log and KV
    variants of the submission. *)
Theorem queue_full_rejects `{pgraft_core_h} (st : pgraft_worker_state_t)
    (ty : COMMAND_TYPE) (node : Z) (addr : option string) (port0 : Z)
    (cluster : option string) (now : Z) :
  command_count st >= MAX_COMMANDS ->
  let r := pgraft_queue_command ty node addr port0 cluster now st in
  r.1 = false /\ r.2 = st /\
  command_count r.2 = command_count st /\
  command_head r.2 = command_head st /\
  command_tail r.2 = command_tail st /\
  commands r.2 = commands st /\
  queued_commands r.2 = queued_commands st /\
  (forall d i, pgraft_queue_log_command ty d i now st = (false, st)) /\
  (forall k v c, pgraft_queue_kv_command ty k v c now st = (false, st)).
Proof.
  intros Hfull r.
  assert (Hr : r = (false, st)).
  { unfold r, pgraft_queue_command. by rewrite bool_decide_eq_true_2. }
  rewrite Hr. simpl. repeat split.
  - intros d i. unfold pgraft_queue_log_command.
    by rewrite bool_decide_eq_true_2.
  - intros k v c. unfold pgraft_queue_kv_command.
    by rewrite bool_decide_eq_true_2.
Qed.

Lemma queue_full_rejects_witness :
  command_count full_ring = 256 /\
  pgraft_queue_command COMMAND_SHUTDOWN 0 None 0 None 1700000001 full_ring
  = (false, full_ring).
Proof.
  split; [by vm_compute|].
  pose proof (queue_full_rejects full_ring COMMAND_SHUTDOWN 0 None 0 None
                1700000001) as Hq.
  destruct Hq as (H1 & H2 & _); [by_compute|].
  by apply injective_projections.
Defined.

(** C10. The enqueue of a committed entry is refused, with the worker state
    as it was, when the apply ring is full or the payload is longer than the
    data buffer of a slot.  Otherwise the slot at the tail receives the index,
    the length and the first [data_len] bytes of the payload, nothing else in
    the ring moves, the tail advances and the count grows by one. *)
Theorem enqueue_apply_entry_spec `{pgraft_core_h}
    (st : pgraft_worker_state_t) (idx : Z) (payload : option (list byte))
    (len : Z) :
  (apply_count st >= MAX_APPLY_ENTRIES \/ len > Z.of_nat sizeof_apply_data ->
   pgraft_enqueue_apply_entry idx payload len st = (false, st)) /\
  (apply_count st < MAX_APPLY_ENTRIES ->
   len <= Z.of_nat sizeof_apply_data ->
   0 <= apply_tail st < Z.of_nat (length (apply_queue st)) ->
   0 <= apply_count st < INT32_MAX ->
   exists st' e,
     pgraft_enqueue_apply_entry idx payload len st = (true, st') /\
     apply_count st' = apply_count st + 1 /\
     apply_head st' = apply_head st /\
     apply_tail st' = Z.rem (apply_tail st + 1) MAX_APPLY_ENTRIES /\
     apply_queue st' !! Z.to_nat (apply_tail st) = Some e /\
     raft_index e = idx /\ data_len e = len /\ applied e = false /\
     (forall bytes, payload = Some bytes -> len <= Z.of_nat (length bytes) ->
        take (Z.to_nat len) (data e) = take (Z.to_nat len) bytes) /\
     (forall j, j <> Z.to_nat (apply_tail st) ->
        apply_queue st' !! j = apply_queue st !! j) /\
     commands st' = commands st /\ command_count st' = command_count st).
Proof.
  split.
  - intros Hfail. unfold pgraft_enqueue_apply_entry.
    case_bool_decide; [done|]. case_bool_decide; [done|]. lia.
  - intros Hroom Hlen Htail Hcount. unfold pgraft_enqueue_apply_entry.
    rewrite bool_decide_eq_false_2 by lia.
    rewrite bool_decide_eq_false_2 by lia.
    eexists _, _. split; [reflexivity|]. simpl.
    split. { apply wrap32_small_count. done. }
    split; [done|]. split; [done|].
    split. { apply list_lookup_insert_eq. lia. }
    split; [done|]. split; [done|]. split; [done|].
    split.
    { intros bytes -> Hbytes. case_bool_decide; simpl.
      - unfold memcpy. rewrite take_app_length'; [done|].
        rewrite length_take. lia.
      - by replace (Z.to_nat len) with 0%nat by lia. }
    split; [|done].
    intros j Hj. by apply list_lookup_insert_ne.
Qed.

Lemma enqueue_apply_entry_spec_witness :
  let st := pgraft_worker_get_state_init in
  pgraft_enqueue_apply_entry 5 (Some [x7b; x7d]) 2000 st = (false, st) /\
  exists st' e,
    pgraft_enqueue_apply_entry 5 (Some [x7b; x7d]) 2 st = (true, st') /\
    apply_count st' = 1 /\
    apply_queue st' !! 0%nat = Some e /\
    raft_index e = 5 /\ data_len e = 2 /\
    take 2 (data e) = [x7b; x7d].
Proof.
  intros st.
  destruct (enqueue_apply_entry_spec st 5 (Some [x7b; x7d]) 2000) as [Hno _].
  destruct (enqueue_apply_entry_spec st 5 (Some [x7b; x7d]) 2) as [_ Hyes].
  split; [apply Hno; right; by_compute|].
  destruct Hyes as (st' & e & Hrun & Hcount & _ & _ & Hslot & Hidx & Hlen & _
                    & Hbytes & _); try by_compute.
  exists st', e. split; [exact Hrun|]. split; [exact Hcount|].
  split; [exact Hslot|]. split; [exact Hidx|]. split; [exact Hlen|].
  apply (Hbytes [x7b; x7d]); [reflexivity|by_compute].
Defined.

(** The ring hands the commands back in the order of their submission. *)
Example queue_is_fifo :
  let st0 := pgraft_worker_get_state_init in
  let st1 := (pgraft_queue_command COMMAND_INIT 1 (Some "10.0.0.1") 7000
                (Some "c1") 10 st0).2 in
  let st2 := (pgraft_queue_kv_command COMMAND_KV_PUT (Some "alpha") (Some "1")
                (Some "pg_1") 11 st1).2 in
  let '(first, st3) := pgraft_dequeue_command st2 in
  let '(second, st4) := pgraft_dequeue_command st3 in
  (type <$> queued_commands st2) = [COMMAND_INIT; COMMAND_KV_PUT] /\
  (type <$> first) = Some COMMAND_INIT /\
  (kv_key <$> second) = Some "alpha" /\
  (pgraft_dequeue_command st4).1 = None.
Proof. vm_compute. by repeat split. Qed.

(** An entry that went through the apply ring comes out as it went in. *)
Example apply_ring_round_trip :
  let st1 := (pgraft_enqueue_apply_entry 5 (Some [x7b; x7d]) 2
                pgraft_worker_get_state_init).2 in
  let '(out, st2) := pgraft_dequeue_apply_entry st1 in
  (raft_index <$> out) = Some 5 /\ (data_len <$> out) = Some 2 /\
  ((fun e => take 2 (data e)) <$> out) = Some [x7b; x7d] /\
  apply_count st2 = 0.
Proof. vm_compute. by repeat split. Qed.

End QueueFacts.
Module QueueMore.
Import Queue.

Local Open Scope Z_scope.

(** *** Rings as lists *)

Section ring.
Context {A : Type} `{!Inhabited A}.
Implicit Types (ring : list A) (cap h : Z).

Lemma slot_distinct cap h (i j : Z) :
  0 < cap -> 0 <= h -> 0 <= i < cap -> 0 <= j < cap ->
  (h + i) mod cap = (h + j) mod cap -> i = j.
Proof.
  intros Hcap Hh Hi Hj Heq.
  pose proof (Z.div_mod (h + i) cap ltac:(lia)) as Hdi.
  pose proof (Z.div_mod (h + j) cap ltac:(lia)) as Hdj.
  rewrite Heq in Hdi.
  set (q1 := (h + i) / cap) in *. set (q2 := (h + j) / cap) in *.
  destruct (Z.lt_trichotomy q1 q2) as [Hlt|[Heq'|Hgt]]; [|lia|].
  - assert (cap * q1 + cap <= cap * q2) by nia. lia.
  - assert (cap * q2 + cap <= cap * q1) by nia. lia.
Qed.

Lemma rem_slot cap (x : Z) :
  0 < cap -> 0 <= x -> Z.rem x cap = x mod cap.
Proof. intros. apply Z.rem_mod_nonneg; lia. Qed.

Lemma slot_range cap (x : Z) : 0 < cap -> 0 <= x mod cap < cap.
Proof. intros. apply Z.mod_pos_bound. lia. Qed.

Lemma ring_contents_length ring cap h (n : nat) :
  length (ring_contents ring cap h n) = n.
Proof. revert h. induction n as [|n IH]; intros h; cbn; [done|]. by rewrite IH. Qed.

Lemma ring_contents_lookup ring cap h (n i : nat) :
  0 < cap -> 0 <= h < cap -> (i < n)%nat ->
  ring_contents ring cap h n !! i
  = Some (ring !!! Z.to_nat ((h + Z.of_nat i) mod cap)).
Proof.
  intros Hcap. revert h i. induction n as [|n IH]; intros h i Hh Hi; [lia|].
  destruct i as [|i]; cbn [ring_contents lookup list_lookup].
  - by rewrite Z.add_0_r, Z.mod_small by lia.
  - rewrite rem_slot by lia.
    rewrite IH by (lia || by apply slot_range).
    rewrite Zplus_mod_idemp_l.
    by replace (h + 1 + Z.of_nat i) with (h + Z.of_nat (S i)) by lia.
Qed.

Lemma ring_contents_snoc ring cap h (n : nat) :
  0 < cap -> 0 <= h < cap ->
  ring_contents ring cap h (S n)
  = ring_contents ring cap h n
    ++ [ring !!! Z.to_nat ((h + Z.of_nat n) mod cap)].
Proof.
  intros Hcap Hh. apply list_eq. intros i.
  destruct (decide (i < n)%nat) as [Hi|Hi].
  - rewrite lookup_app_l by (by rewrite ring_contents_length).
    by rewrite !ring_contents_lookup by lia.
  - rewrite lookup_app_r by (rewrite ring_contents_length; lia).
    rewrite ring_contents_length.
    destruct (decide (i = n)) as [->|Hne].
    + rewrite ring_contents_lookup by lia. by rewrite Nat.sub_diag.
    + rewrite lookup_ge_None_2 by (rewrite ring_contents_length; lia).
      symmetry. apply lookup_ge_None_2. cbn. lia.
Qed.

Lemma ring_contents_insert ring cap h (n j : nat) (x : A) :
  0 < cap -> 0 <= h < cap -> length ring = Z.to_nat cap ->
  (Z.of_nat n <= cap) -> (Z.of_nat j < cap) ->
  ring_contents (<[Z.to_nat ((h + Z.of_nat j) mod cap) := x]> ring) cap h n
  = <[j := x]> (ring_contents ring cap h n).
Proof.
  intros Hcap Hh Hlen Hn Hj. apply list_eq. intros i.
  destruct (decide (i < n)%nat) as [Hi|Hi].
  - rewrite ring_contents_lookup by lia.
    pose proof (slot_range cap (h + Z.of_nat j) Hcap).
    pose proof (slot_range cap (h + Z.of_nat i) Hcap).
    destruct (decide (i = j)) as [->|Hne].
    + rewrite list_lookup_insert_eq by (rewrite ring_contents_length; lia).
      by rewrite list_lookup_total_insert_eq by lia.
    + rewrite list_lookup_insert_ne by done.
      rewrite ring_contents_lookup by lia.
      rewrite list_lookup_total_insert_ne; [done|].
      intros Heq. apply Hne. apply Nat2Z.inj.
      symmetry. apply (slot_distinct cap h); lia.
  - rewrite !lookup_ge_None_2;
      rewrite ?length_insert, ?ring_contents_length; done || lia.
Qed.

Lemma ring_contents_tail ring cap h (n : nat) :
  0 < cap -> 0 <= h < cap ->
  ring_contents ring cap ((h + 1) mod cap) n
  = drop 1 (ring_contents ring cap h (S n)).
Proof.
  intros Hcap Hh. cbn [ring_contents drop]. by rewrite rem_slot by lia.
Qed.

End ring.

Section ring_ops.
Context {A : Type} `{!Inhabited A}.
Implicit Types (ring : list A) (cap head tail count : Z).

Lemma ring_push ring cap head tail count (x : A) :
  0 < cap -> ring_ok ring cap head tail count -> count < cap ->
  ring_ok (<[Z.to_nat tail := x]> ring) cap head (Z.rem (tail + 1) cap)
          (count + 1) /\
  ring_contents (<[Z.to_nat tail := x]> ring) cap head (Z.to_nat (count + 1))
  = ring_contents ring cap head (Z.to_nat count) ++ [x].
Proof.
  intros Hcap (Hlen & Hhead & Hcount & ->) Hroom.
  pose proof (slot_range cap (head + count) Hcap) as Hslot.
  split.
  - split; [by rewrite length_insert|]. split; [done|]. split; [lia|].
    rewrite rem_slot by lia. rewrite Zplus_mod_idemp_l. f_equal. lia.
  - replace (Z.to_nat (count + 1)) with (S (Z.to_nat count)) by lia.
    rewrite ring_contents_snoc by done.
    rewrite Z2Nat.id by lia.
    rewrite list_lookup_total_insert_eq by lia.
    pose proof (ring_contents_insert ring cap head (Z.to_nat count)
                  (Z.to_nat count) x Hcap Hhead Hlen) as Hins.
    rewrite Z2Nat.id in Hins by lia. rewrite Hins by lia.
    by rewrite list_insert_ge by (rewrite ring_contents_length; lia).
Qed.

Lemma ring_pop ring cap head tail count :
  0 < cap -> ring_ok ring cap head tail count -> 0 < count ->
  ring_ok ring cap (Z.rem (head + 1) cap) tail (count - 1) /\
  ring_contents ring cap head (Z.to_nat count)
  = ring !!! Z.to_nat head
    :: ring_contents ring cap (Z.rem (head + 1) cap) (Z.to_nat (count - 1)).
Proof.
  intros Hcap (Hlen & Hhead & Hcount & ->) Hsome.
  split.
  - split; [done|]. rewrite rem_slot by lia.
    split; [by apply slot_range|]. split; [lia|].
    rewrite Zplus_mod_idemp_l. f_equal. lia.
  - by replace (Z.to_nat count) with (S (Z.to_nat (count - 1))) by lia.
Qed.

Lemma ring_contents_empty ring cap head (n : nat) :
  ring_contents ring cap head n = [] <-> n = 0%nat.
Proof. split; [by destruct n|by intros ->]. Qed.


End ring_ops.

Section with_header.
Context `{pgraft_core_h}.

Lemma init_rings_ok :
  0 < MAX_COMMANDS -> 0 < MAX_APPLY_ENTRIES ->
  command_ring_ok pgraft_worker_get_state_init /\
  apply_ring_ok pgraft_worker_get_state_init /\
  status_ring_ok pgraft_worker_get_state_init.
Proof.
  intros Hc Ha. unfold command_ring_ok, apply_ring_ok, status_ring_ok, ring_ok.
  cbn. rewrite !length_replicate, !Z.mod_0_l by lia. repeat split; lia.
Qed.

(** X18. The command ring is a first-in first-out queue.  A submission that
    is accepted puts its command behind the commands waiting, with status
    pending and the time of the call; the worker takes the command that has
    waited longest and leaves the others in their order; on an empty ring
    the worker gets nothing and the state is unchanged. *)
Theorem command_ring_fifo (st : pgraft_worker_state_t) (ty : COMMAND_TYPE)
    (node : Z) (addr : option string) (port0 : Z) (cluster : option string)
    (now : Z) :
  0 < MAX_COMMANDS <= INT32_MAX -> command_ring_ok st ->
  (command_count st < MAX_COMMANDS ->
   exists st' cmd,
     pgraft_queue_command ty node addr port0 cluster now st = (true, st') /\
     command_ring_ok st' /\
     queued_commands st' = queued_commands st ++ [cmd] /\
     (type cmd, node_id cmd, port cmd, status cmd, timestamp cmd)
     = (ty, node, port0, COMMAND_STATUS_PENDING, now) /\
     address cmd = opt_strncpy0 sizeof_address addr /\
     cluster_id cmd = opt_strncpy0 sizeof_cluster_id cluster) /\
  match queued_commands st with
  | [] => pgraft_dequeue_command st = (None, st) /\
          pgraft_queue_is_empty st = true
  | first :: rest =>
      exists st',
        pgraft_dequeue_command st = (Some first, st') /\
        command_ring_ok st' /\ queued_commands st' = rest /\
        pgraft_queue_is_empty st = false
  end.
Proof.
  intros Hmax Hok. split.
  - intros Hroom. unfold pgraft_queue_command.
    rewrite bool_decide_eq_false_2 by lia.
    destruct (ring_push (commands st) MAX_COMMANDS (command_head st)
                (command_tail st) (command_count st)
                (mk_command ty node (opt_strncpy0 sizeof_address addr) port0
                   (opt_strncpy0 sizeof_cluster_id cluster)
                   (log_data (commands st !!! Z.to_nat (command_tail st)))
                   (log_index (commands st !!! Z.to_nat (command_tail st)))
                   (kv_key (commands st !!! Z.to_nat (command_tail st)))
                   (kv_value (commands st !!! Z.to_nat (command_tail st)))
                   (kv_client_id (commands st !!! Z.to_nat (command_tail st)))
                   COMMAND_STATUS_PENDING EmptyString now))
      as [Hok' Hq]; [lia|done|done|].
    destruct Hok as (_ & _ & Hcount & _).
    eexists _, _. split; [reflexivity|].
    unfold command_ring_ok, queued_commands. cbn.
    rewrite wrap32_small_count by lia. done.
  - destruct Hok as (Hlen & Hhead & Hcount & Htail).
    unfold pgraft_dequeue_command, pgraft_queue_is_empty, queued_commands.
    destruct (decide (command_count st = 0)) as [Hz|Hnz].
    + rewrite Hz. cbn. by rewrite bool_decide_eq_true_2.
    + destruct (ring_pop (commands st) MAX_COMMANDS (command_head st)
                  (command_tail st) (command_count st))
        as [Hok' ->]; [lia|done|lia|].
      rewrite !bool_decide_eq_false_2 by done.
      eexists. split; [reflexivity|].
      unfold command_ring_ok, queued_commands. cbn.
      rewrite wrap32_small by (unfold INT32_MAX in *; lia). done.
Qed.

(** X19. The apply ring is a first-in first-out queue of committed entries:
    an accepted entry goes behind the entries waiting, with its index and
    length and not yet applied; the dequeue hands out the entry that has
    waited longest, and fails on an empty ring without changing the state.
    The callback of the consensus engine returns 0 for an accepted entry
    and -1 for a refused one. *)
Theorem apply_ring_fifo (st : pgraft_worker_state_t) (idx : Z)
    (payload : option (list byte)) (len : Z) :
  0 < MAX_APPLY_ENTRIES <= INT32_MAX -> apply_ring_ok st ->
  (apply_count st < MAX_APPLY_ENTRIES -> len <= Z.of_nat sizeof_apply_data ->
   exists st' e,
     pgraft_enqueue_apply_entry idx payload len st = (true, st') /\
     pgraft_enqueue_for_apply_from_go idx payload len st = (0, st') /\
     apply_ring_ok st' /\
     queued_apply_entries st' = queued_apply_entries st ++ [e] /\
     (raft_index e, data_len e, applied e) = (idx, len, false) /\
     pgraft_get_apply_queue_count st' = pgraft_get_apply_queue_count st + 1) /\
  (apply_count st >= MAX_APPLY_ENTRIES \/ len > Z.of_nat sizeof_apply_data ->
   pgraft_enqueue_for_apply_from_go idx payload len st = (-1, st)) /\
  match queued_apply_entries st with
  | [] => pgraft_dequeue_apply_entry st = (None, st) /\
          pgraft_apply_queue_is_empty st = true
  | first :: rest =>
      exists st',
        pgraft_dequeue_apply_entry st = (Some first, st') /\
        apply_ring_ok st' /\ queued_apply_entries st' = rest /\
        pgraft_apply_queue_is_empty st = false
  end.
Proof.
  intros Hmax Hok. split; [|split].
  - intros Hroom Hlen.
    unfold pgraft_enqueue_for_apply_from_go, pgraft_enqueue_apply_entry.
    rewrite !bool_decide_eq_false_2 by lia.
    set (entry := mk_apply_entry idx _ len false).
    destruct (ring_push (apply_queue st) MAX_APPLY_ENTRIES (apply_head st)
                (apply_tail st) (apply_count st) entry)
      as [Hok' Hq]; [lia|done|done|].
    destruct Hok as (_ & _ & Hcount & _).
    exists (set_apply_ring (<[Z.to_nat (apply_tail st) := entry]> (apply_queue st))
              (apply_head st) (Z.rem (apply_tail st + 1) MAX_APPLY_ENTRIES)
              (wrap32 (apply_count st + 1)) st), entry.
    split; [done|]. split; [done|].
    unfold apply_ring_ok, queued_apply_entries, pgraft_get_apply_queue_count.
    cbn. rewrite wrap32_small_count by lia. done.
  - intros Hfail.
    unfold pgraft_enqueue_for_apply_from_go, pgraft_enqueue_apply_entry.
    case_bool_decide; [done|]. case_bool_decide; [done|]. lia.
  - destruct Hok as (Hlen & Hhead & Hcount & Htail).
    unfold pgraft_dequeue_apply_entry, pgraft_apply_queue_is_empty,
      queued_apply_entries.
    destruct (decide (apply_count st = 0)) as [Hz|Hnz].
    + rewrite Hz. cbn. by rewrite bool_decide_eq_true_2.
    + destruct (ring_pop (apply_queue st) MAX_APPLY_ENTRIES (apply_head st)
                  (apply_tail st) (apply_count st))
        as [Hok' ->]; [lia|done|lia|].
      rewrite !bool_decide_eq_false_2 by done.
      eexists. split; [reflexivity|].
      unfold apply_ring_ok, queued_apply_entries. cbn.
      rewrite wrap32_small by (unfold INT32_MAX in *; lia). done.
Qed.

End with_header.

Section status_buffer.
Context `{pgraft_core_h}.
Implicit Types (st : pgraft_worker_state_t) (sz : nat).

Lemma status_scan_spec st (ts : Z) (n : nat) (i : Z) :
  0 < MAX_COMMANDS -> 0 <= status_head st -> 0 <= i ->
  status_scan st ts n i
  = (fun p : nat * pgraft_command_t =>
       Z.to_nat ((status_head st + i + Z.of_nat p.1) mod MAX_COMMANDS))
      <$> list_find (fun c => timestamp c = ts)
            (ring_contents (status_commands st) MAX_COMMANDS
               ((status_head st + i) mod MAX_COMMANDS) n).
Proof.
  intros Hcap Hhead. revert i. induction n as [|n IH]; intros i Hi; [done|].
  cbn [status_scan ring_contents list_find].
  pose proof (slot_range MAX_COMMANDS (status_head st + i) Hcap) as Hslot.
  rewrite !rem_slot by lia.
  destruct (decide (timestamp (status_commands st
              !!! Z.to_nat ((status_head st + i) mod MAX_COMMANDS)) = ts))
    as [Hts|Hts].
  - rewrite bool_decide_eq_true_2 by done. cbn. by rewrite Z.add_0_r.
  - rewrite bool_decide_eq_false_2 by done. rewrite IH by lia.
    rewrite Zplus_mod_idemp_l.
    replace (status_head st + (i + 1)) with (status_head st + i + 1) by lia.
    destruct (list_find _ _) as [[p c]|]; cbn; [|done].
    do 3 f_equal. lia.
Qed.

Lemma status_scan_tracked st (ts : Z) :
  0 < MAX_COMMANDS -> status_ring_ok st ->
  match list_find (fun c => timestamp c = ts) (tracked_commands st) with
  | Some (p, c) =>
      status_scan st ts (Z.to_nat (status_count st)) 0
      = Some (Z.to_nat ((status_head st + Z.of_nat p) mod MAX_COMMANDS)) /\
      status_commands st
        !!! Z.to_nat ((status_head st + Z.of_nat p) mod MAX_COMMANDS) = c /\
      (p < Z.to_nat (status_count st))%nat
  | None => status_scan st ts (Z.to_nat (status_count st)) 0 = None
  end.
Proof.
  intros Hcap (Hlen & Hhead & Hcount & Htail).
  rewrite status_scan_spec by lia. unfold tracked_commands.
  rewrite Z.add_0_r, (Z.mod_small (status_head st)) by lia.
  destruct (list_find _ _) as [[p c]|] eqn:Hfind; cbn; [|done].
  apply list_find_Some in Hfind as (Hp & _ & _).
  pose proof (lookup_lt_Some _ _ _ Hp) as Hlt.
  rewrite ring_contents_length in Hlt.
  rewrite ring_contents_lookup in Hp by lia.
  split; [done|]. split; [congruence|done].
Qed.

(** X20. The status buffer keeps the most recent commands.  Adding a command
    always succeeds and puts it behind the tracked ones; when the buffer
    holds MAX_COMMANDS entries the oldest one is dropped.  A status query
    returns the oldest tracked command that carries the timestamp. *)
Theorem status_buffer_add_get (st : pgraft_worker_state_t)
    (cmd : pgraft_command_t) (ts : Z) :
  0 < 2 * MAX_COMMANDS <= INT32_MAX -> status_ring_ok st ->
  (exists st',
     pgraft_add_command_to_status cmd st = (true, st') /\
     status_ring_ok st' /\
     tracked_commands st'
     = (if bool_decide (status_count st >= MAX_COMMANDS)
        then drop 1 (tracked_commands st) else tracked_commands st)
       ++ [cmd]) /\
  pgraft_get_command_status ts st
  = snd <$> list_find (fun c => timestamp c = ts) (tracked_commands st).
Proof.
  intros Hmax Hok. split.
  - unfold pgraft_add_command_to_status. eexists. split; [reflexivity|].
    unfold status_ring_ok, tracked_commands. cbn.
    pose proof Hok as (Hlen & Hhead & Hcount & Htail).
    case_bool_decide as Hfull.
    + destruct (ring_pop (status_commands st) MAX_COMMANDS (status_head st)
                  (status_tail st) (status_count st))
        as [Hok1 Hq1]; [lia|done|lia|].
      destruct (ring_push (status_commands st) MAX_COMMANDS
                  (Z.rem (status_head st + 1) MAX_COMMANDS)
                  (status_tail st) (status_count st - 1) cmd)
        as [Hok2 Hq2]; [lia|done|lia|].
      rewrite (wrap32_small (status_count st - 1))
        by (unfold INT32_MAX in *; lia).
      rewrite wrap32_small by (unfold INT32_MAX in *; lia).
      split; [done|]. rewrite Hq2, Hq1. done.
    + destruct (ring_push (status_commands st) MAX_COMMANDS (status_head st)
                  (status_tail st) (status_count st) cmd)
        as [Hok2 Hq2]; [lia|done|lia|].
      rewrite wrap32_small_count by lia. done.
  - unfold pgraft_get_command_status.
    pose proof (status_scan_tracked st ts ltac:(lia) Hok) as Hscan.
    destruct (list_find _ (tracked_commands st)) as [[p c]|].
    + destruct Hscan as (-> & <- & _). done.
    + by rewrite Hscan.
Qed.

(** X21. A status update changes the oldest tracked command that carries
    the timestamp: it gets the new status, and the new message when one is
    given, and stays at its place; the other tracked commands and both
    queues are untouched, and the next query for the timestamp returns the
    updated command.  Without such a command the update returns false and
    changes nothing. *)
Theorem status_update_then_get sz (st : pgraft_worker_state_t) (ts : Z)
    (s : COMMAND_STATUS) (msg : option string) :
  0 < 2 * MAX_COMMANDS <= INT32_MAX -> status_ring_ok st ->
  match list_find (fun c => timestamp c = ts) (tracked_commands st) with
  | Some (p, c) =>
      exists st',
        pgraft_update_command_status sz ts s msg st = (true, st') /\
        status_ring_ok st' /\
        tracked_commands st' = <[p := set_status sz s msg c]> (tracked_commands st) /\
        pgraft_get_command_status ts st' = Some (set_status sz s msg c) /\
        queued_commands st' = queued_commands st /\
        queued_apply_entries st' = queued_apply_entries st
  | None => pgraft_update_command_status sz ts s msg st = (false, st)
  end.
Proof.
  intros Hmax Hok. assert (Hcap : 0 < MAX_COMMANDS) by lia.
  pose proof (status_scan_tracked st ts Hcap Hok) as Hscan.
  destruct (list_find _ (tracked_commands st)) as [[p c]|] eqn:Hfind.
  - destruct Hscan as (Hscan & Hc & Hp).
    unfold pgraft_update_command_status. rewrite Hscan, Hc.
    eexists. split; [reflexivity|].
    pose proof Hok as (Hlen & Hhead & Hcount & Htail).
    assert (Hok' : status_ring_ok
              (set_status_ring
                 (<[Z.to_nat ((status_head st + Z.of_nat p) mod MAX_COMMANDS)
                    := set_status sz s msg c]> (status_commands st))
                 (status_head st) (status_tail st) (status_count st) st)).
    { unfold status_ring_ok, ring_ok. cbn. by rewrite length_insert. }
    assert (Htracked : tracked_commands
              (set_status_ring
                 (<[Z.to_nat ((status_head st + Z.of_nat p) mod MAX_COMMANDS)
                    := set_status sz s msg c]> (status_commands st))
                 (status_head st) (status_tail st) (status_count st) st)
              = <[p := set_status sz s msg c]> (tracked_commands st)).
    { unfold tracked_commands. cbn. apply ring_contents_insert; lia. }
    split; [done|]. split; [done|]. split; [|done].
    unfold pgraft_get_command_status.
    pose proof (status_scan_tracked _ ts Hcap Hok') as Hscan'.
    rewrite Htracked in Hscan'.
    assert (Hfind' : list_find (fun c => timestamp c = ts)
                       (<[p := set_status sz s msg c]> (tracked_commands st))
                     = Some (p, set_status sz s msg c)).
    { apply list_find_insert_Some. right; left.
      apply list_find_Some in Hfind as (Hpl & Hts & Hleast).
      split; [done|]. split; [done|].
      split; [by eapply lookup_lt_Some|]. split; [done|]. exact Hleast. }
    rewrite Hfind' in Hscan'. destruct Hscan' as (Hsc & Hel & _).
    rewrite Hsc. cbn [fmap option_fmap option_map]. f_equal. exact Hel.
  - unfold pgraft_update_command_status. by rewrite Hscan.
Qed.



End status_buffer.

Lemma command_ring_fifo_witness :
  exists st1 cmd,
    pgraft_queue_command COMMAND_ADD_NODE 2 (Some "10.0.0.2") 7000 None
      1700000000 pgraft_worker_get_state_init = (true, st1) /\
    queued_commands st1 = [cmd] /\
    (type cmd, node_id cmd, port cmd, status cmd, timestamp cmd)
    = (COMMAND_ADD_NODE, 2, 7000, COMMAND_STATUS_PENDING, 1700000000).
Proof.
  destruct (command_ring_fifo pgraft_worker_get_state_init COMMAND_ADD_NODE 2
              (Some "10.0.0.2") 7000 None 1700000000) as [Henq _];
    [by_compute_all|unfold command_ring_ok, ring_ok; by_compute_all|].
  destruct Henq as (st1 & cmd & Hq & _ & Hl & Hf & _); [by_compute|].
  exists st1, cmd. split; [exact Hq|]. split; [exact Hl|exact Hf].
Defined.

Lemma apply_ring_fifo_witness :
  exists st1 e,
    pgraft_enqueue_for_apply_from_go 5 (Some [x7b; x7d]) 2
      pgraft_worker_get_state_init = (0, st1) /\
    queued_apply_entries st1 = [e] /\
    (raft_index e, data_len e, applied e) = (5, 2, false).
Proof.
  destruct (apply_ring_fifo pgraft_worker_get_state_init 5
              (Some [x7b; x7d]) 2) as [Henq _];
    [by_compute_all|unfold apply_ring_ok, ring_ok; by_compute_all|].
  destruct Henq as (st1 & e & _ & Hgo & _ & Hl & Hf & _);
    [by_compute|by_compute|].
  exists st1, e. split; [exact Hgo|]. split; [exact Hl|exact Hf].
Defined.

Lemma status_buffer_add_get_witness :
  exists st',
    pgraft_add_command_to_status
      (tracked_command 13 COMMAND_STATUS_PENDING) three_tracked
    = (true, st') /\
    (timestamp <$> tracked_commands st') = [10; 11; 12; 13] /\
    (status <$> pgraft_get_command_status 12 three_tracked)
    = Some COMMAND_STATUS_PROCESSING.
Proof.
  destruct (status_buffer_add_get three_tracked
              (tracked_command 13 COMMAND_STATUS_PENDING) 12)
    as [(st' & Hadd & _ & Ht) Hget];
    [by_compute_all|unfold status_ring_ok, ring_ok; by_compute_all|].
  exists st'. split; [exact Hadd|].
  split; [rewrite Ht|rewrite Hget]; vm_compute; reflexivity.
Defined.

Lemma status_update_then_get_witness :
  exists st',
    pgraft_update_command_status 256 11 COMMAND_STATUS_FAILED
      (Some "Failed to add node") three_tracked = (true, st') /\
    ((fun c => (status c, error_message c))
       <$> pgraft_get_command_status 11 st')
    = Some (COMMAND_STATUS_FAILED, "Failed to add node") /\
    (status <$> tracked_commands st')
    = [COMMAND_STATUS_COMPLETED; COMMAND_STATUS_FAILED;
       COMMAND_STATUS_PROCESSING].
Proof.
  pose proof (status_update_then_get 256 three_tracked 11
                COMMAND_STATUS_FAILED (Some "Failed to add node")) as Hup.
  assert (Hfind : list_find (fun c => timestamp c = 11)
                    (tracked_commands three_tracked)
                  = Some (1%nat, tracked_command 11 COMMAND_STATUS_PENDING))
    by (vm_compute; reflexivity).
  rewrite Hfind in Hup.
  destruct Hup as (st' & Hrun & _ & Ht & Hget & _);
    [by_compute_all|unfold status_ring_ok, ring_ok; by_compute_all|].
  exists st'. split; [exact Hrun|].
  split; [rewrite Hget|rewrite Ht]; vm_compute; reflexivity.
Defined.


End QueueMore.

Module CoreFacts.
Import Core.

Local Open Scope Z_scope.

(** C9. On a descriptor that is already initialised pgraft_core_init returns
    0 and writes nothing: the identity, term, leader, state label, node list
    and counters are the ones from before the call, whatever the arguments. *)
Theorem core_init_twice_unchanged `{pgraft_core_h} (cluster : pgraft_cluster_t)
    (node_id0 : Z) (address0 : option string) (port0 : Z) :
  initialized cluster = true ->
  let r := pgraft_core_init node_id0 address0 port0 cluster in
  r.1 = Ret 0 /\ r.2 = cluster /\
  node_id r.2 = node_id cluster /\
  current_term r.2 = current_term cluster /\
  leader_id r.2 = leader_id cluster /\
  state r.2 = state cluster /\
  num_nodes r.2 = num_nodes cluster /\
  nodes r.2 = nodes cluster /\
  messages_processed r.2 = messages_processed cluster /\
  heartbeats_sent r.2 = heartbeats_sent cluster /\
  elections_triggered r.2 = elections_triggered cluster /\
  initialized r.2 = true.
Proof.
  intros Hinit r. subst r. unfold pgraft_core_init.
  rewrite Hinit. cbn [fst snd]. by repeat split.
Qed.

Lemma core_init_twice_unchanged_witness :
  leader_id running_cluster = 1 /\ num_nodes running_cluster = 2 /\
  pgraft_core_init 9 (Some "192.168.0.9") 9999 running_cluster
  = (Ret 0, running_cluster).
Proof.
  split; [reflexivity|]. split; [reflexivity|].
  destruct (core_init_twice_unchanged running_cluster 9 (Some "192.168.0.9")
              9999) as (H1 & H2 & _); [reflexivity|].
  by apply injective_projections.
Defined.

End CoreFacts.
Module CoreMore.
Import Core.

Local Open Scope Z_scope.

Section with_header.
Context `{pgraft_core_h}.

(** *** The loops of pgraft_core_remove_node *)

Lemma find_node_spec (ns : list pgraft_node_t) (x : Z) (n i : nat) :
  (i + n <= length ns)%nat ->
  find_node ns x n i
  = (fun p : nat * pgraft_node_t => (i + p.1)%nat)
      <$> list_find (fun nd => id nd = x) (take n (drop i ns)).
Proof.
  revert i. induction n as [|n IH]; intros i Hlen; [done|].
  destruct (lookup_lt_is_Some_2 ns i) as [e He]; [lia|].
  cbn [find_node]. rewrite (list_lookup_total_correct _ _ _ He).
  rewrite (drop_S _ _ _ He), firstn_cons. cbn [list_find].
  destruct (decide (id e = x)) as [Hx|Hx].
  - rewrite bool_decide_eq_true_2 by done. cbn. f_equal. lia.
  - rewrite bool_decide_eq_false_2 by done. rewrite IH by lia.
    destruct (list_find _ _) as [[j e']|]; cbn; [f_equal; lia|done].
Qed.

Lemma shift_nodes_spec (n j : nat) (ns : list pgraft_node_t) :
  (j + n < length ns)%nat ->
  shift_nodes n j ns
  = take j ns ++ take n (drop (S j) ns) ++ drop (j + n) ns.
Proof.
  revert j ns. induction n as [|n IH]; intros j ns Hlen.
  - rewrite take_0, Nat.add_0_r. cbn [app]. by rewrite take_drop.
  - destruct (lookup_lt_is_Some_2 ns (S j)) as [x Hx]; [lia|].
    cbn [shift_nodes]. rewrite (list_lookup_total_correct _ _ _ Hx).
    rewrite IH by (rewrite length_insert; lia).
    rewrite (take_S_r _ _ x) by (apply list_lookup_insert_eq; lia).
    rewrite take_insert_ge by lia. rewrite !drop_insert_lt by lia.
    rewrite (drop_S _ _ _ Hx), firstn_cons.
    rewrite <- app_assoc. cbn [app].
    by replace (j + S n)%nat with (S j + n)%nat by lia.
Qed.

Lemma remove_node_members (c : pgraft_cluster_t) (x : Z) :
  cluster_ok c -> initialized c = true ->
  match list_find (fun nd => id nd = x) (members c) with
  | Some (i, nd) =>
      exists c',
        pgraft_core_remove_node x c = (Ret 0, c') /\
        members c' = delete i (members c) /\
        num_nodes c' = num_nodes c - 1 /\ cluster_ok c' /\
        (initialized c', node_id c', current_term c', leader_id c', state c')
        = (true, node_id c, current_term c, leader_id c, state c)
  | None => pgraft_core_remove_node x c = (Ret (-1), c)
  end.
Proof.
  intros [Hlen Hn] Hinit. unfold pgraft_core_remove_node, members.
  rewrite Hinit. cbn [negb].
  rewrite find_node_spec by lia. rewrite drop_0.
  destruct (list_find _ _) as [[i nd]|] eqn:Hfind; cbn; [|done].
  apply list_find_Some in Hfind as (Hi & _ & _).
  apply lookup_take_Some in Hi as [Hi Hlt].
  eexists. split; [reflexivity|]. cbn.
  rewrite wrap32_small by lia.
  rewrite shift_nodes_spec by lia.
  split.
  { rewrite delete_take_drop, take_take, skipn_firstn_comm.
    replace (i `min` Z.to_nat (num_nodes c))%nat with i by lia.
    rewrite app_assoc. rewrite take_app_length'.
    - do 2 f_equal. lia.
    - rewrite length_app, !length_take, length_drop. lia. }
  split; [done|]. split; [|done].
  split; [|cbn; lia]. cbn.
  rewrite !length_app, !length_take, !length_drop. lia.
Qed.

Lemma add_node_members (c c1 : pgraft_cluster_t) (x : Z) (a : option string)
    (p : Z) :
  cluster_ok c ->
  pgraft_core_add_node x a p c = (Ret 0, c1) ->
  exists a0,
    a = Some a0 /\ initialized c = true /\ num_nodes c < 16 /\
    members c1
    = members c ++ [mk_node x (strncpy0 sizeof_node_address a0) p false] /\
    num_nodes c1 = num_nodes c + 1 /\ cluster_ok c1 /\
    initialized c1 = true.
Proof.
  intros [Hlen Hn]. unfold pgraft_core_add_node.
  destruct (initialized c); cbn [negb]; [|intros [=]].
  case_bool_decide as Hfull; [intros [=]|].
  destruct a as [a0|]; [|intros [=]]. intros [= <-].
  exists a0. split; [done|]. split; [done|]. split; [lia|].
  unfold members, cluster_ok. cbn. rewrite wrap32_small_count by
    (unfold INT32_MAX; lia).
  rewrite length_insert.
  split; [|split; [done|split; [split; [done|lia]|done]]].
  replace (Z.to_nat (num_nodes c + 1)) with (S (Z.to_nat (num_nodes c))) by lia.
  rewrite (take_S_r _ _ (mk_node x (strncpy0 sizeof_node_address a0) p false))
    by (apply list_lookup_insert_eq; lia).
  by rewrite take_insert_ge by lia.
Qed.

(** X23. Removing a node deletes the first member that carries the id and
    keeps the other members in their order; identity, term, leader and
    state label stay.  When no member carries the id the call returns -1
    and the descriptor is unchanged. *)
Theorem remove_node_deletes_first (c : pgraft_cluster_t) (x : Z) :
  cluster_ok c -> initialized c = true ->
  match list_find (fun nd => id nd = x) (members c) with
  | Some (i, nd) =>
      exists c',
        pgraft_core_remove_node x c = (Ret 0, c') /\
        members c' = delete i (members c) /\
        num_nodes c' = num_nodes c - 1 /\ cluster_ok c' /\
        (initialized c', node_id c', current_term c', leader_id c', state c')
        = (true, node_id c, current_term c, leader_id c, state c)
  | None => pgraft_core_remove_node x c = (Ret (-1), c)
  end.
Proof. apply remove_node_members. Qed.

(** X24. A node that was added is appended to the members, with the address
    cut to its buffer and not a leader; ids are not compared, so a second
    node with an id already present is accepted.  Removing the id afterwards
    gives back the members from before the add when the id was new, and
    otherwise removes the older member and keeps the one just added. *)
Theorem add_then_remove_node (c c1 : pgraft_cluster_t) (x : Z)
    (a : option string) (p : Z) :
  cluster_ok c ->
  pgraft_core_add_node x a p c = (Ret 0, c1) ->
  exists a0 c2,
    a = Some a0 /\
    members c1
    = members c ++ [mk_node x (strncpy0 sizeof_node_address a0) p false] /\
    pgraft_core_remove_node x c1 = (Ret 0, c2) /\
    num_nodes c2 = num_nodes c /\
    members c2
    = match list_find (fun nd => id nd = x) (members c) with
      | Some (i, _) =>
          delete i (members c)
          ++ [mk_node x (strncpy0 sizeof_node_address a0) p false]
      | None => members c
      end.
Proof.
  intros Hok Hadd.
  destruct (add_node_members _ _ _ _ _ Hok Hadd)
    as (a0 & -> & Hinit & Hroom & Hm1 & Hn1 & Hok1 & Hinit1).
  pose proof (remove_node_members c1 x Hok1 Hinit1) as Hrem.
  rewrite Hm1 in Hrem.
  destruct (list_find _ (members c)) as [[i nd]|] eqn:Hfind.
  - rewrite (list_find_app_l _ _ _ _ _ Hfind) in Hrem.
    destruct Hrem as (c2 & Hr & Hm2 & Hn2 & _).
    exists a0, c2. split; [done|]. split; [done|]. split; [done|].
    split; [lia|]. rewrite Hm2.
    apply list_find_Some in Hfind as (Hi & _).
    pose proof (lookup_lt_Some _ _ _ Hi) as Hlt.
    rewrite !delete_take_drop.
    rewrite take_app_le, drop_app_le by lia. by rewrite <- app_assoc.
  - rewrite (list_find_app_r _ _ _ Hfind) in Hrem. cbn in Hrem.
    rewrite decide_True in Hrem by done. cbn in Hrem.
    destruct Hrem as (c2 & Hr & Hm2 & Hn2 & _).
    exists a0, c2. split; [done|]. split; [done|]. split; [done|].
    split; [lia|]. rewrite Hm2, ?Nat.add_0_r.
    rewrite delete_take_drop, take_app_length.
    rewrite drop_ge by (rewrite length_app; cbn; lia).
    apply app_nil_r.
Qed.

(** X25. After pgraft_core_cleanup the descriptor refuses every change and
    leaves it untouched (add and remove raise, the two updates return -1);
    the readers answer not leader, leader -1 and term 0, while the copy of
    the descriptor is the zeroed struct, whose leader is 0.  A later
    pgraft_core_init starts the cluster again from this node alone, at term
    0 and without a leader, whatever the members were before. *)
Theorem cleanup_then_reinit (c : pgraft_cluster_t) (x : Z) (a : string)
    (p : Z) :
  cluster_ok c ->
  let c0 := pgraft_core_cleanup c in
  (forall y b q, exists msg, pgraft_core_add_node y b q c0 = (Raise msg, c0)) /\
  (forall y, exists msg, pgraft_core_remove_node y c0 = (Raise msg, c0)) /\
  (forall l t s, pgraft_core_update_cluster_state l t s c0 = (-1, c0)) /\
  (forall n ids addrs,
     pgraft_core_update_nodes n ids addrs c0 = (Ret (-1), c0)) /\
  (pgraft_core_is_leader c0, pgraft_core_get_leader_id c0,
   pgraft_core_get_current_term c0) = (false, -1, 0) /\
  pgraft_core_get_cluster_state c0 = (0, zero_cluster) /\
  exists c1,
    pgraft_core_init x (Some a) p c0 = (Ret 0, c1) /\
    members c1 = [mk_node x (strncpy0 sizeof_node_address a) p false] /\
    (pgraft_core_is_leader c1, pgraft_core_get_leader_id c1,
     pgraft_core_get_current_term c1) = (bool_decide (x = -1), -1, 0) /\
    state c1 = strncpy0 sizeof_cluster_state "follower".
Proof.
  intros [Hlen Hn] c0.
  assert (Hoff : initialized c0 = false).
  { subst c0. unfold pgraft_core_cleanup. by destruct (initialized c) eqn:Hi. }
  split; [intros y b q; unfold pgraft_core_add_node; rewrite Hoff; by eexists|].
  split; [intros y; unfold pgraft_core_remove_node; rewrite Hoff; by eexists|].
  split; [intros l t s; unfold pgraft_core_update_cluster_state;
          by rewrite Hoff|].
  split; [intros n ids addrs; unfold pgraft_core_update_nodes;
          by rewrite Hoff|].
  split; [unfold pgraft_core_is_leader, pgraft_core_get_leader_id,
            pgraft_core_get_current_term; by rewrite Hoff|].
  split; [unfold pgraft_core_get_cluster_state; by rewrite Hoff|].
  unfold pgraft_core_init. rewrite Hoff. eexists. split; [reflexivity|].
  unfold members, pgraft_core_is_leader, pgraft_core_get_leader_id,
    pgraft_core_get_current_term. cbn.
  split; [|done].
  assert (Hnodes : length (nodes c0) = 16%nat).
  { subst c0. unfold pgraft_core_cleanup. by destruct (initialized c). }
  destruct (nodes c0) as [|n0 rest]; [done|]. done.
Qed.

(** *** The copy loop of pgraft_core_update_nodes *)

Lemma copy_nodes_spec (n i : nat) (node_ids : list Z) (addresses : list string)
    (ns : list pgraft_node_t) :
  length ns = 16%nat -> (i + n <= 16)%nat ->
  (i + n <= length node_ids)%nat -> (i + n <= length addresses)%nat ->
  drop i ns = replicate (16 - i) zero_node ->
  exists ns',
    copy_nodes n i node_ids addresses ns = Some ns' /\
    length ns' = 16%nat /\
    take (i + n) ns'
    = take i ns
      ++ zip_with
           (fun nid a => mk_node nid (strncpy0 sizeof_node_address a) 0 false)
           (take n (drop i node_ids)) (take n (drop i addresses)).
Proof.
  revert i ns. induction n as [|n IH]; intros i ns Hlen Hin Hids Haddrs Hzero.
  - exists ns. rewrite Nat.add_0_r, !take_0. cbn. by rewrite app_nil_r.
  - destruct (lookup_lt_is_Some_2 node_ids i) as [nid Hnid]; [lia|].
    destruct (lookup_lt_is_Some_2 addresses i) as [a Ha]; [lia|].
    assert (Hold : ns !! i = Some zero_node).
    { rewrite <- (Nat.add_0_r i), <- lookup_drop, Hzero.
      apply lookup_replicate_2. lia. }
    cbn [copy_nodes]. rewrite Hnid, Ha.
    rewrite (list_lookup_total_correct _ _ _ Hold). cbn [port is_leader zero_node].
    destruct (IH (S i)
                (<[i := mk_node nid (strncpy0 sizeof_node_address a) 0 false]> ns))
      as (ns' & Hrun & Hlen' & Htake).
    + by rewrite length_insert.
    + lia.
    + lia.
    + lia.
    + rewrite drop_insert_lt by lia.
      replace (S i) with (i + 1)%nat by lia.
      rewrite <- drop_drop, Hzero, drop_replicate. f_equal. lia.
    + exists ns'. split; [done|]. split; [done|].
      replace (i + S n)%nat with (S i + n)%nat by lia. rewrite Htake.
      rewrite (take_S_r _ _ (mk_node nid (strncpy0 sizeof_node_address a) 0 false))
        by (apply list_lookup_insert_eq; lia).
      rewrite take_insert_ge by lia.
      rewrite (drop_S _ _ _ Hnid), (drop_S _ _ _ Ha), !firstn_cons.
      cbn [zip_with]. by rewrite <- app_assoc.
Qed.

(** X26. A refresh of the node list replaces the members by the first
    min(num_nodes, 16) pairs of id and address it is given, in their order:
    the members from before are gone, and every new member has port 0 and is
    not marked as leader, since the call sets ids and addresses only.
    Identity, term, leader and state label of the cluster stay. *)
Theorem update_nodes_replaces_members (c : pgraft_cluster_t) (n : Z)
    (node_ids : list Z) (addresses : list string) :
  initialized c = true ->
  (Z.to_nat (Z.min n 16) <= length node_ids)%nat ->
  (Z.to_nat (Z.min n 16) <= length addresses)%nat ->
  exists c',
    pgraft_core_update_nodes n node_ids addresses c = (Ret 0, c') /\
    members c'
    = zip_with
        (fun nid a => mk_node nid (strncpy0 sizeof_node_address a) 0 false)
        (take (Z.to_nat (Z.min n 16)) node_ids)
        (take (Z.to_nat (Z.min n 16)) addresses) /\
    num_nodes c' = Z.of_nat (Z.to_nat (Z.min n 16)) /\ cluster_ok c' /\
    (pgraft_core_get_leader_id c', pgraft_core_get_current_term c',
     pgraft_core_is_leader c', state c')
    = (pgraft_core_get_leader_id c, pgraft_core_get_current_term c,
       pgraft_core_is_leader c, state c).
Proof.
  intros Hinit Hids Haddrs. unfold pgraft_core_update_nodes.
  rewrite Hinit. cbn [negb].
  destruct (copy_nodes_spec (Z.to_nat (Z.min n 16)) 0 node_ids addresses
              (replicate 16 zero_node))
    as (ns & -> & Hlen & Htake); [done|lia|lia|lia|done|].
  eexists. split; [reflexivity|].
  unfold members, cluster_ok, pgraft_core_get_leader_id,
    pgraft_core_get_current_term, pgraft_core_is_leader. cbn.
  rewrite Hinit, Nat2Z.id. cbn in Htake. rewrite !drop_0 in Htake.
  split; [done|]. split; [done|]. split; [|done]. split; [done|lia].
Qed.

End with_header.

Lemma remove_node_deletes_first_witness :
  exists c',
    pgraft_core_remove_node 1 running_cluster = (Ret 0, c') /\
    (id <$> members running_cluster) = [1; 2] /\
    (id <$> members c') = [2] /\
    pgraft_core_remove_node 7 running_cluster = (Ret (-1), running_cluster).
Proof.
  pose proof (remove_node_deletes_first running_cluster 1) as Hfirst.
  pose proof (remove_node_deletes_first running_cluster 7) as Hmissing.
  assert (Hf : list_find (fun nd => id nd = 1) (members running_cluster)
               = Some (0%nat, mk_node 1 "10.0.0.1" 7000 false))
    by (vm_compute; reflexivity).
  assert (Hm : list_find (fun nd => id nd = 7) (members running_cluster) = None)
    by (vm_compute; reflexivity).
  rewrite Hf in Hfirst. rewrite Hm in Hmissing.
  destruct Hfirst as (c' & Hrun & Hmem & _);
    [unfold cluster_ok; by_compute_all|reflexivity|].
  exists c'. split; [exact Hrun|]. split; [vm_compute; reflexivity|].
  split; [rewrite Hmem; vm_compute; reflexivity|].
  apply Hmissing; [unfold cluster_ok; by_compute_all|reflexivity].
Defined.

Lemma add_then_remove_node_witness :
  let c1 := (pgraft_core_add_node 3 (Some "10.0.0.3") 7000 running_cluster).2 in
  exists c2,
    pgraft_core_remove_node 3 c1 = (Ret 0, c2) /\
    members c2 = members running_cluster.
Proof.
  intros c1.
  destruct (add_then_remove_node running_cluster c1 3 (Some "10.0.0.3") 7000)
    as (a0 & c2 & _ & _ & Hrem & _ & Hmem);
    [unfold cluster_ok; by_compute_all|vm_compute; reflexivity|].
  exists c2. split; [exact Hrem|]. rewrite Hmem. vm_compute. reflexivity.
Defined.

Lemma cleanup_then_reinit_witness :
  let c0 := pgraft_core_cleanup running_cluster in
  pgraft_core_get_leader_id running_cluster = 1 /\
  pgraft_core_get_leader_id c0 = -1 /\
  exists c1,
    pgraft_core_init 5 (Some "10.0.0.5") 7005 c0 = (Ret 0, c1) /\
    members c1 = [mk_node 5 "10.0.0.5" 7005 false].
Proof.
  intros c0.
  destruct (cleanup_then_reinit running_cluster 5 "10.0.0.5" 7005)
    as (_ & _ & _ & _ & Hread & _ & c1 & Hinit & Hmem & _);
    [unfold cluster_ok; by_compute_all|].
  split; [reflexivity|]. split; [exact (f_equal (fun t => t.1.2) Hread)|].
  exists c1. split; [exact Hinit|exact Hmem].
Defined.

Lemma update_nodes_replaces_members_witness :
  exists c',
    pgraft_core_update_nodes 2 [7; 8] ["10.0.0.7:7001"; "10.0.0.8:7001"]
      running_cluster = (Ret 0, c') /\
    members c'
    = [mk_node 7 "10.0.0.7:7001" 0 false; mk_node 8 "10.0.0.8:7001" 0 false].
Proof.
  destruct (update_nodes_replaces_members running_cluster 2 [7; 8]
              ["10.0.0.7:7001"; "10.0.0.8:7001"])
    as (c' & Hrun & Hmem & _); [reflexivity|by_compute|by_compute|].
  exists c'. split; [exact Hrun|exact Hmem].
Defined.

End CoreMore.

Module KVFacts.
Import KV.

Local Open Scope Z_scope.

(** *** Strings that fit their buffer are copied whole *)

Lemma substring_all (s : string) (m : nat) :
  (String.length s <= m)%nat -> String.substring 0 m s = s.
Proof.
  revert m. induction s as [|c s IH]; intros m Hm.
  - by destruct m.
  - destruct m as [|m]; simpl in *; [lia|]. rewrite IH; [done|lia].
Qed.

Lemma strncpy0_fits (size : nat) (s : string) :
  (String.length s < size)%nat -> strncpy0 size s = s.
Proof. intros Hs. unfold strncpy0. apply substring_all. lia. Qed.

(** *** The scan and the first live entry *)

Lemma kv_find_from_list_find (es : list pgraft_kv_entry_t) (k : string)
    (n i : nat) :
  (i + n <= length es)%nat ->
  find_from es k n i =
  from_option (fun p : nat * pgraft_kv_entry_t => Z.of_nat (i + p.1)) (-1)
              (list_find (holds k) (take n (drop i es))).
Proof.
  revert i. induction n as [|n IH]; intros i Hlen; [done|].
  destruct (lookup_lt_is_Some_2 es i) as [e He]; [lia|].
  cbn [find_from]. rewrite (list_lookup_total_correct _ _ _ He).
  rewrite (drop_S _ _ _ He). cbn [take list_find].
  destruct (decide (holds k e)) as [[Hd Hk]|Hno].
  - rewrite Hd, bool_decide_eq_true_2 by done. simpl. f_equal. lia.
  - assert (negb (deleted e) && bool_decide (key e = k) = false) as ->.
    { destruct (deleted e) eqn:Hd; [done|]. simpl.
      apply bool_decide_eq_false_2. intros Hk. by apply Hno. }
    rewrite IH by lia.
    destruct (list_find _ _) as [[j e']|]; simpl; [f_equal; lia|done].
Qed.

Lemma well_formed_used (store : pgraft_kv_store_t) :
  well_formed store ->
  (Z.to_nat (num_entries store) <= length (entries store))%nat.
Proof. unfold KV_CAPACITY. intros [-> ?]. lia. Qed.

Lemma find_entry_index_spec (store : pgraft_kv_store_t) (k : string) :
  well_formed store ->
  pgraft_kv_find_entry_index (Some store) (Some k) =
  from_option (fun p : nat * pgraft_kv_entry_t => Z.of_nat p.1) (-1)
              (live_entry store k).
Proof.
  intros Hwf. unfold pgraft_kv_find_entry_index, live_entry, used.
  rewrite kv_find_from_list_find by (pose proof (well_formed_used _ Hwf); lia).
  by rewrite drop_0.
Qed.

Lemma live_entry_lookup (store : pgraft_kv_store_t) (k : string) (i : nat)
    (e : pgraft_kv_entry_t) :
  live_entry store k = Some (i, e) ->
  entries store !! i = Some e /\ (i < Z.to_nat (num_entries store))%nat /\
  deleted e = false /\ key e = k.
Proof.
  intros (Hi & [Hd Hk] & _)%list_find_Some.
  unfold used in Hi. apply lookup_take_Some in Hi as [Hi Hlt]. done.
Qed.

(** *** The snapshot leaves the store in memory alone *)

Lemma save_keeps_store (path : option string) (w : kv_world) :
  g_kv_store (pgraft_kv_save_to_disk path w).2 = g_kv_store w.
Proof.
  unfold pgraft_kv_save_to_disk.
  destruct (g_kv_store w) as [store|] eqn:Hs; [|done].
  destruct path as [p|]; [|done].
  destruct (FS.fopen_w p (disk w)) as [[] d1]; simpl; [|done].
  by destruct (FS.fwrite p store d1) as [[] d2].
Qed.

(** *** Put and delete on a key with a live entry *)

Lemma put_live (w : kv_world) (store : pgraft_kv_store_t) (k v : string)
    (idx now : Z) (i : nat) (e : pgraft_kv_entry_t) :
  g_kv_store w = Some store -> well_formed store ->
  (String.length k < 256)%nat -> (String.length v < 1024)%nat ->
  live_entry store k = Some (i, e) -> 0 <= version e < INT64_MAX ->
  exists w' s',
    pgraft_kv_put (Some k) (Some v) idx now w = (Ret 0, w') /\
    g_kv_store w' = Some s' /\
    live_entry s' k
    = Some (i, mk_entry k v (version e + 1) (created_at e) now idx false) /\
    num_entries s' = num_entries store /\
    puts s' = wrap64 (puts store + 1) /\
    last_applied_index s' = idx.
Proof.
  intros Hs Hwf Hk Hv Hlive Hver. unfold pgraft_kv_put. rewrite Hs.
  rewrite !bool_decide_eq_false_2 by lia.
  rewrite find_entry_index_spec, Hlive by done. cbn [from_option fst].
  rewrite bool_decide_eq_true_2 by lia. rewrite Nat2Z.id.
  destruct (live_entry_lookup _ _ _ _ Hlive) as (Hi & Hlt & Hd & Hke).
  rewrite (list_lookup_total_correct _ _ _ Hi).
  rewrite strncpy0_fits, wrap64_small_count, Hke by done.
  eexists _, _. split; [reflexivity|].
  split; [by rewrite save_keeps_store|].
  split; [|done].
  unfold live_entry, used. cbn [entries num_entries count_put].
  rewrite take_insert_lt by done.
  apply list_find_insert_Some. right; left.
  apply list_find_Some in Hlive as (Hu & _ & Hleast).
  split; [done|]. split; [done|].
  split; [by eapply lookup_lt_Some|]. split; [done|]. exact Hleast.
Qed.

Lemma delete_live (w : kv_world) (store : pgraft_kv_store_t) (k : string)
    (idx now : Z) (i : nat) (e : pgraft_kv_entry_t) :
  g_kv_store w = Some store -> well_formed store ->
  live_entry store k = Some (i, e) -> 0 <= version e < INT64_MAX ->
  exists w' s',
    pgraft_kv_delete (Some k) idx now w = (Ret 0, w') /\
    g_kv_store w' = Some s' /\
    entries s' !! i
    = Some (mk_entry k (value e) (version e + 1) (created_at e) now idx true) /\
    num_entries s' = num_entries store.
Proof.
  intros Hs Hwf Hlive Hver. unfold pgraft_kv_delete. rewrite Hs.
  rewrite find_entry_index_spec, Hlive by done. cbn [from_option fst].
  rewrite bool_decide_eq_false_2 by lia. rewrite Nat2Z.id.
  destruct (live_entry_lookup _ _ _ _ Hlive) as (Hi & Hlt & Hd & Hke).
  rewrite (list_lookup_total_correct _ _ _ Hi).
  rewrite wrap64_small_count, Hke by done.
  eexists _, _. split; [reflexivity|].
  split; [by rewrite save_keeps_store|].
  split; [|done]. cbn [entries].
  apply list_lookup_insert_eq. by eapply lookup_lt_Some.
Qed.

(** *** Put and delete on a key without a live entry *)

Lemma put_fresh (w : kv_world) (store : pgraft_kv_store_t) (k v : string)
    (idx now : Z) :
  g_kv_store w = Some store -> well_formed store ->
  (String.length k < 256)%nat -> (String.length v < 1024)%nat ->
  live_entry store k = None -> num_entries store < KV_CAPACITY ->
  exists w' s',
    pgraft_kv_put (Some k) (Some v) idx now w = (Ret 0, w') /\
    g_kv_store w' = Some s' /\
    used s' = used store ++ [mk_entry k v 1 now now idx false] /\
    live_entry s' k
    = Some (Z.to_nat (num_entries store), mk_entry k v 1 now now idx false) /\
    num_entries s' = num_entries store + 1 /\
    last_applied_index s' = idx.
Proof.
  intros Hs Hwf Hk Hv Hlive Hroom. unfold pgraft_kv_put. rewrite Hs.
  rewrite !bool_decide_eq_false_2 by lia.
  rewrite find_entry_index_spec, Hlive by done. cbn [from_option].
  rewrite bool_decide_eq_false_2 by lia.
  destruct Hwf as [Hlen Hn]. unfold KV_CAPACITY in *.
  rewrite bool_decide_eq_false_2 by lia.
  rewrite !strncpy0_fits by done.
  rewrite wrap32_small by lia.
  eexists _, _. split; [reflexivity|].
  split; [by rewrite save_keeps_store|].
  assert (Hused : take (Z.to_nat (num_entries store + 1))
                    (<[Z.to_nat (num_entries store)
                       := mk_entry k v 1 now now idx false]> (entries store))
                  = used store ++ [mk_entry k v 1 now now idx false]).
  { replace (Z.to_nat (num_entries store + 1))
      with (S (Z.to_nat (num_entries store))) by lia.
    erewrite take_S_r by (apply list_lookup_insert_eq; lia).
    by rewrite take_insert_ge by lia. }
  split; [exact Hused|]. split; [|done].
  unfold live_entry at 1, used at 1. cbn [entries num_entries count_put].
  rewrite Hused, list_find_app_r by done.
  cbn [list_find]. rewrite decide_True by done. simpl.
  do 2 f_equal. unfold used. rewrite length_take. lia.
Qed.

Lemma delete_missing (w : kv_world) (store : pgraft_kv_store_t) (k : string)
    (idx now : Z) :
  g_kv_store w = Some store -> well_formed store ->
  live_entry store k = None ->
  pgraft_kv_delete (Some k) idx now w = (Ret (-1), w).
Proof.
  intros Hs Hwf Hlive. unfold pgraft_kv_delete. rewrite Hs.
  rewrite find_entry_index_spec, Hlive by done. cbn [from_option].
  by rewrite bool_decide_eq_true_2 by lia.
Qed.

(** C3, as the code has it.  A put or a delete of a key that has a live entry
    raises the version of that entry by one.  A key without a live entry,
    be it new or deleted, cannot be deleted, and a put of it appends an entry
    with version 1 behind the entries in use, tombstones included: after a
    delete the version of the key starts again at 1. *)
Theorem kv_version_put_delete (w : kv_world) (store : pgraft_kv_store_t)
    (k v : string) (idx now : Z) :
  g_kv_store w = Some store -> well_formed store ->
  (String.length k < 256)%nat -> (String.length v < 1024)%nat ->
  match live_entry store k with
  | Some (i, e) =>
      0 <= version e < INT64_MAX ->
      (exists w' s',
         pgraft_kv_put (Some k) (Some v) idx now w = (Ret 0, w') /\
         g_kv_store w' = Some s' /\
         live_version s' k = Some (version e + 1)) /\
      (exists w' s' e',
         pgraft_kv_delete (Some k) idx now w = (Ret 0, w') /\
         g_kv_store w' = Some s' /\
         entries s' !! i = Some e' /\ key e' = k /\ deleted e' = true /\
         version e' = version e + 1)
  | None =>
      pgraft_kv_delete (Some k) idx now w = (Ret (-1), w) /\
      (num_entries store < KV_CAPACITY ->
       exists w' s' e',
         pgraft_kv_put (Some k) (Some v) idx now w = (Ret 0, w') /\
         g_kv_store w' = Some s' /\
         used s' = used store ++ [e'] /\
         key e' = k /\ deleted e' = false /\ version e' = 1 /\
         live_version s' k = Some 1)
  end.
Proof.
  intros Hs Hwf Hk Hv.
  destruct (live_entry store k) as [[i e]|] eqn:Hlive.
  - intros Hver. split.
    + destruct (put_live w store k v idx now i e) as (w' & s' & Hp & Hs' & Hl & _);
        try done.
      exists w', s'. split; [done|]. split; [done|].
      unfold live_version. by rewrite Hl.
    + destruct (delete_live w store k idx now i e) as (w' & s' & Hd & Hs' & He & _);
        try done.
      by eexists w', s', _.
  - split; [by eapply delete_missing|].
    intros Hroom.
    destruct (put_fresh w store k v idx now) as (w' & s' & Hp & Hs' & Hu & Hl & _);
      try done.
    eexists w', s', _. split; [done|]. split; [done|]. split; [exact Hu|].
    split; [done|]. split; [done|]. split; [done|].
    unfold live_version. by rewrite Hl.
Qed.

Lemma kv_version_put_delete_witness :
  (exists w', pgraft_kv_put (Some "alpha") (Some "2") 6 101 kv_w1 = (Ret 0, w')
              /\ live_version (store_of w') "alpha" = Some 2) /\
  (exists w', pgraft_kv_put (Some "alpha") (Some "2") 7 102 kv_w2 = (Ret 0, w')
              /\ live_version (store_of w') "alpha" = Some 1).
Proof.
  split.
  - pose proof (kv_version_put_delete kv_w1 (store_of kv_w1) "alpha" "2" 6 101)
      as Hlive.
    assert (Hfound : live_entry (store_of kv_w1) "alpha"
                     = Some (0%nat, mk_entry "alpha" "1" 1 100 100 5 false))
      by (vm_compute; reflexivity).
    rewrite Hfound in Hlive.
    destruct Hlive as [(w' & s' & Hp & Hs' & Hv) _];
      [reflexivity|split; by_compute|by_compute|by_compute|by_compute|].
    exists w'. split; [exact Hp|]. unfold store_of. by rewrite Hs'.
  - pose proof (kv_version_put_delete kv_w2 (store_of kv_w2) "alpha" "2" 7 102)
      as Hdead.
    assert (Hgone : live_entry (store_of kv_w2) "alpha" = None)
      by (vm_compute; reflexivity).
    rewrite Hgone in Hdead.
    destruct Hdead as [_ Hput];
      [reflexivity|split; by_compute|by_compute|by_compute|].
    destruct Hput as (w' & s' & e' & Hp & Hs' & _ & _ & _ & _ & Hv);
      [by_compute|].
    exists w'. split; [exact Hp|]. unfold store_of. by rewrite Hs'.
Defined.

(** C3 as stated fails: alpha is put (version 1) and deleted (its tombstone
    has version 2); the next put of alpha succeeds and leaves the key at
    version 1. *)
Lemma version_restarts_after_delete : ~ version_increases_on_put.
Proof.
  intros Hclaim.
  specialize (Hclaim kv_w2 kv_w3 (store_of kv_w2) (store_of kv_w3)
                     "alpha" "2" 7 102 2 1).
  assert (2 < 1) as Habs; [|lia].
  apply Hclaim; vm_compute; reflexivity.
Qed.

(** *** Snapshots *)

(** What a save does on a disk without failures: the file is truncated by
    fopen, then receives the image. *)
Lemma save_calls (w : kv_world) (store : pgraft_kv_store_t) (p : string) :
  g_kv_store w = Some store -> healthy (disk w) ->
  let r := pgraft_kv_save_to_disk (Some p) w in
  r.1 = 0 /\
  FS.calls_between (disk w) (disk r.2)
  = [FS.Sys_creat p; FS.Sys_write p store] /\
  FS.files (disk r.2) !! p = Some [store] /\
  FS.replay [FS.Sys_creat p] (FS.files (disk w)) !! p = Some [].
Proof.
  intros Hs [Hopen Hwrite]. unfold pgraft_kv_save_to_disk.
  rewrite Hs. unfold FS.fopen_w, FS.fwrite. rewrite Hopen. cbn.
  rewrite Hwrite. cbn. split; [done|]. split.
  - unfold FS.calls_between. cbn. rewrite <- app_assoc.
    by rewrite drop_app_length.
  - split; [|by rewrite lookup_insert_eq].
    by rewrite lookup_alter_eq, lookup_insert_eq.
Qed.

(** C8. A store saved to a snapshot file and read back into a store that was
    just initialised gives the same entry array, tombstones and unused slots
    included, and the same num_entries, last_applied_index and counters. *)
Theorem snapshot_round_trip (w w1 : kv_world) (store : pgraft_kv_store_t)
    (path : string) :
  g_kv_store w = Some store ->
  pgraft_kv_save_to_disk (Some path) w = (0, w1) ->
  exists loaded,
    pgraft_kv_load_from_disk (Some path) (mk_world (Some empty_store) (disk w1))
    = (0, mk_world (Some loaded) (disk w1)) /\
    entries loaded = entries store /\
    num_entries loaded = num_entries store /\
    last_applied_index loaded = last_applied_index store /\
    puts loaded = puts store /\ deletes loaded = deletes store /\
    gets loaded = gets store /\
    total_operations loaded = total_operations store /\
    loaded = store.
Proof.
  intros Hs. unfold pgraft_kv_save_to_disk. rewrite Hs.
  unfold FS.fopen_w, FS.fwrite.
  destruct (FS.fopen_w_fails (disk w) path); cbn; [intros [=]|].
  destruct (FS.fwrite_fails (disk w)); cbn; [intros [=]|].
  intros [= <-]. exists store.
  split; [|by destruct store].
  unfold pgraft_kv_load_from_disk, FS.fopen_r. cbn.
  rewrite lookup_alter_eq, lookup_insert_eq. cbn.
  by destruct store.
Qed.

Lemma snapshot_round_trip_witness :
  exists w1 loaded,
    pgraft_kv_save_to_disk (Some "/tmp/snapshot.dat") kv_w3 = (0, w1) /\
    pgraft_kv_load_from_disk (Some "/tmp/snapshot.dat")
      (mk_world (Some empty_store) (disk w1))
    = (0, mk_world (Some loaded) (disk w1)) /\
    (version <$> used loaded) = [2; 1] /\
    (deleted <$> used loaded) = [true; false] /\
    puts loaded = 2 /\ deletes loaded = 1.
Proof.
  set (r := pgraft_kv_save_to_disk (Some "/tmp/snapshot.dat") kv_w3).
  assert (Hsave : r = (0, r.2)) by (vm_compute; reflexivity).
  destruct (snapshot_round_trip kv_w3 r.2 (store_of kv_w3) "/tmp/snapshot.dat")
    as (loaded & Hload & _ & _ & _ & _ & _ & _ & _ & ->);
    [reflexivity|exact Hsave|].
  exists r.2, (store_of kv_w3). split; [exact Hsave|]. split; [exact Hload|].
  repeat split; vm_compute; reflexivity.
Defined.

(** C4, the KV half on a concrete store.  The snapshot of [kv_w1] holds the
    image of the store; the put of a second key opens the snapshot file
    itself for writing and then writes the new image.  A process that dies
    between the two calls leaves an empty file at the final path: neither
    the old image nor the new one. *)
Lemma kv_snapshot_written_in_place :
  let w' := (pgraft_kv_put (Some "beta") (Some "2") 6 101 kv_w1).2 in
  let cs := FS.calls_between (disk kv_w1) (disk w') in
  FS.files (disk kv_w1) !! PGRAFT_KV_PERSIST_FILE = Some [store_of kv_w1] /\
  cs = [FS.Sys_creat PGRAFT_KV_PERSIST_FILE;
        FS.Sys_write PGRAFT_KV_PERSIST_FILE (store_of w')] /\
  FS.replay (take 1 cs) (FS.files (disk kv_w1)) !! PGRAFT_KV_PERSIST_FILE
  = Some [] /\
  FS.replay (take 1 cs) (FS.files (disk kv_w1))
  ∈ FS.crash_states cs (FS.files (disk kv_w1)).
Proof.
  intros w' cs.
  assert (Hcs : cs = [FS.Sys_creat PGRAFT_KV_PERSIST_FILE;
                      FS.Sys_write PGRAFT_KV_PERSIST_FILE (store_of w')])
    by (vm_compute; reflexivity).
  split; [vm_compute; reflexivity|]. split; [exact Hcs|].
  split; [rewrite Hcs; vm_compute; reflexivity|].
  unfold FS.crash_states. apply list_elem_of_fmap.
  exists 1%nat. split; [done|]. rewrite Hcs. cbn. set_solver.
Qed.

(** Compaction drops the tombstone of alpha and keeps its live entry; a
    second compaction changes nothing in the store. *)
Example compact_drops_tombstones :
  let w := pgraft_kv_compact kv_w3 in
  (deleted <$> used (store_of kv_w3)) = [true; false] /\
  used (store_of w) = [mk_entry "alpha" "2" 1 102 102 7 false] /\
  num_entries (store_of w) = 1 /\
  g_kv_store (pgraft_kv_compact w) = g_kv_store w.
Proof. vm_compute. by repeat split. Qed.

(** A reset empties the store and removes the snapshot file. *)
Example reset_removes_snapshot :
  let w := pgraft_kv_reset kv_w3 in
  g_kv_store w = Some empty_store /\
  FS.files (disk w) !! PGRAFT_KV_PERSIST_FILE = None /\
  pgraft_kv_exists (Some "alpha") kv_w3 = true /\
  pgraft_kv_exists (Some "alpha") w = false.
Proof. vm_compute. by repeat split. Qed.

End KVFacts.
Module KVMore.
Import KV KVFacts.

Local Open Scope Z_scope.

(** *** The store a successful put or delete leaves *)

Lemma put_shape (w w' : kv_world) (store : pgraft_kv_store_t) (k v : string)
    (idx now : Z) :
  g_kv_store w = Some store -> well_formed store ->
  pgraft_kv_put (Some k) (Some v) idx now w = (Ret 0, w') ->
  (String.length k < 256)%nat /\ (String.length v < 1024)%nat /\
  w' = (pgraft_kv_save_to_disk (Some PGRAFT_KV_PERSIST_FILE)
          (set_store (from_option id store (g_kv_store w')) w)).2 /\
  match live_entry store k with
  | Some (i, e) =>
      g_kv_store w'
      = Some (count_put idx
                (<[i := mk_entry k v (wrap64 (version e + 1)) (created_at e)
                                 now idx false]> (entries store))
                (num_entries store) store)
  | None =>
      num_entries store < KV_CAPACITY /\
      g_kv_store w'
      = Some (count_put idx
                (<[Z.to_nat (num_entries store)
                   := mk_entry k v 1 now now idx false]> (entries store))
                (num_entries store + 1) store)
  end.
Proof.
  intros Hs Hwf. unfold pgraft_kv_put. rewrite Hs.
  case_bool_decide as Hk; [intros [=]|].
  case_bool_decide as Hv; [intros [=]|].
  rewrite find_entry_index_spec by done.
  destruct (live_entry store k) as [[i e]|] eqn:Hlive; cbn [from_option fst].
  - rewrite bool_decide_eq_true_2 by lia. rewrite Nat2Z.id.
    destruct (live_entry_lookup _ _ _ _ Hlive) as (Hi & Hlt & Hd & Hke).
    rewrite (list_lookup_total_correct _ _ _ Hi).
    rewrite strncpy0_fits, Hke by lia.
    intros [= <-]. rewrite save_keeps_store. cbn [g_kv_store set_store from_option id].
    split; [lia|]. split; [lia|]. done.
  - rewrite bool_decide_eq_false_2 by lia.
    case_bool_decide as Hfull; [intros [=]|].
    destruct Hwf as [Hlen Hn]. unfold KV_CAPACITY in *.
    rewrite !strncpy0_fits by lia. rewrite wrap32_small by lia.
    intros [= <-]. rewrite save_keeps_store. cbn [g_kv_store set_store from_option id].
    split; [lia|]. split; [lia|]. split; [done|]. split; [lia|done].
Qed.

Lemma delete_shape (w w' : kv_world) (store : pgraft_kv_store_t) (k : string)
    (idx now : Z) :
  g_kv_store w = Some store -> well_formed store ->
  pgraft_kv_delete (Some k) idx now w = (Ret 0, w') ->
  exists i e,
    live_entry store k = Some (i, e) /\
    w' = (pgraft_kv_save_to_disk (Some PGRAFT_KV_PERSIST_FILE)
            (set_store (from_option id store (g_kv_store w')) w)).2 /\
    g_kv_store w'
    = Some (mk_store
              (<[i := mk_entry k (value e) (wrap64 (version e + 1))
                               (created_at e) now idx true]> (entries store))
              (num_entries store) (wrap64 (total_operations store + 1)) idx
              (puts store) (wrap64 (deletes store + 1)) (gets store)).
Proof.
  intros Hs Hwf. unfold pgraft_kv_delete. rewrite Hs.
  rewrite find_entry_index_spec by done.
  destruct (live_entry store k) as [[i e]|] eqn:Hlive; cbn [from_option fst].
  - rewrite bool_decide_eq_false_2 by lia. rewrite Nat2Z.id.
    destruct (live_entry_lookup _ _ _ _ Hlive) as (Hi & Hlt & Hd & Hke).
    rewrite (list_lookup_total_correct _ _ _ Hi), Hke.
    intros [= <-]. exists i, e. rewrite save_keeps_store.
    cbn [g_kv_store set_store from_option id]. done.
  - rewrite bool_decide_eq_true_2 by lia. intros [=].
Qed.

(** The scan after an entry was overwritten in place or appended. *)
Lemma list_find_insert_other {A} (P : A -> Prop) `{!forall x, Decision (P x)}
    (l : list A) (i : nat) (x y : A) :
  l !! i = Some y -> ~ P x -> ~ P y ->
  list_find P (<[i := x]> l) = list_find P l.
Proof.
  revert i. induction l as [|a l IH]; intros [|i] Hi Hx Hy; try done.
  - simplify_eq/=. by rewrite !decide_False.
  - cbn in Hi. change (<[S i:=x]> (a :: l)) with (a :: <[i:=x]> l).
    cbn [list_find]. destruct (decide (P a)); [done|].
    by rewrite (IH i).
Qed.

Lemma used_insert (store : pgraft_kv_store_t) (i : nat) (e : pgraft_kv_entry_t)
    (es : list pgraft_kv_entry_t) (n : Z) :
  (i < Z.to_nat n)%nat ->
  take (Z.to_nat n) (<[i := e]> es) = <[i := e]> (take (Z.to_nat n) es).
Proof. intros Hi. by rewrite take_insert_lt. Qed.

(** *** Readers in terms of the first live entry *)

Lemma get_spec (w : kv_world) (store : pgraft_kv_store_t) (k : string)
    (size : nat) :
  g_kv_store w = Some store -> well_formed store ->
  (pgraft_kv_get (Some k) size w).1
  = match live_entry store k with
    | Some (_, e) => (Ret 0, Some (strncpy0 size (value e), version e))
    | None => (Ret (-1), None)
    end.
Proof.
  intros Hs Hwf. unfold pgraft_kv_get. rewrite Hs.
  rewrite find_entry_index_spec by done.
  destruct (live_entry store k) as [[i e]|] eqn:Hlive; cbn [from_option fst].
  - rewrite bool_decide_eq_false_2 by lia. rewrite Nat2Z.id.
    destruct (live_entry_lookup _ _ _ _ Hlive) as (Hi & _).
    by rewrite (list_lookup_total_correct _ _ _ Hi).
  - by rewrite bool_decide_eq_true_2 by lia.
Qed.

Lemma get_missing (w : kv_world) (store : pgraft_kv_store_t) (k : string)
    (size : nat) :
  g_kv_store w = Some store -> well_formed store ->
  live_entry store k = None ->
  pgraft_kv_get (Some k) size w = (Ret (-1), None, w).
Proof.
  intros Hs Hwf Hlive. unfold pgraft_kv_get. rewrite Hs.
  rewrite find_entry_index_spec, Hlive by done. cbn [from_option].
  by rewrite bool_decide_eq_true_2 by lia.
Qed.

Lemma exists_spec (w : kv_world) (store : pgraft_kv_store_t) (k : string) :
  g_kv_store w = Some store -> well_formed store ->
  pgraft_kv_exists (Some k) w = bool_decide (is_Some (live_entry store k)).
Proof.
  intros Hs Hwf. unfold pgraft_kv_exists. rewrite Hs.
  rewrite find_entry_index_spec by done.
  destruct (live_entry store k) as [[i e]|]; cbn [from_option fst].
  - rewrite !bool_decide_eq_true_2; [done|by eexists|lia].
  - rewrite !bool_decide_eq_false_2; [done|by intros [? [=]]|lia].
Qed.

(** *** The two loops of the compaction *)

Lemma compact_move_spec (n i j : nat) (es : list pgraft_kv_entry_t) :
  (j <= i)%nat -> (i + n <= length es)%nat ->
  let r := compact_move n i j es in
  length r.1 = length es /\
  r.2 = (j + length (filter not_deleted (take n (drop i es))))%nat /\
  take r.2 r.1 = take j es ++ filter not_deleted (take n (drop i es)).
Proof.
  revert i j es. induction n as [|n IH]; intros i j es Hji Hlen.
  - cbn. rewrite take_0, filter_nil, app_nil_r. split; [done|]. split; [|done].
    cbn. lia.
  - destruct (lookup_lt_is_Some_2 es i) as [e He]; [lia|].
    cbn [compact_move]. rewrite (list_lookup_total_correct _ _ _ He).
    rewrite (drop_S _ _ _ He), firstn_cons.
    destruct (deleted e) eqn:Hd.
    + rewrite filter_cons_False by (unfold not_deleted; by rewrite Hd).
      apply IH; lia.
    + rewrite filter_cons_True by done.
      assert ((if bool_decide (i <> j) then <[j:=e]> es else es)
              = <[j:=e]> es) as ->.
      { case_bool_decide as Hij; [done|].
        assert (i = j) as <- by lia. by rewrite list_insert_id. }
      specialize (IH (S i) (S j) (<[j:=e]> es)).
      rewrite length_insert in IH.
      destruct IH as (IH1 & IH2 & IH3); [lia|lia|].
      rewrite drop_insert_lt in IH2, IH3 by lia.
      split; [done|]. split; [rewrite IH2; cbn; lia|].
      rewrite IH3.
      rewrite (take_S_r _ _ e) by (apply list_lookup_insert_eq; lia).
      rewrite take_insert_ge by lia. by rewrite <- app_assoc.
Qed.

Lemma compact_move_id (n i : nat) (es : list pgraft_kv_entry_t) :
  (i + n <= length es)%nat ->
  Forall not_deleted (take n (drop i es)) ->
  compact_move n i i es = (es, (i + n)%nat).
Proof.
  revert i. induction n as [|n IH]; intros i Hlen Hall.
  - cbn. f_equal. lia.
  - destruct (lookup_lt_is_Some_2 es i) as [e He]; [lia|].
    cbn [compact_move]. rewrite (list_lookup_total_correct _ _ _ He).
    rewrite (drop_S _ _ _ He), firstn_cons in Hall.
    apply Forall_cons in Hall as [-> Hall].
    rewrite bool_decide_eq_false_2 by lia.
    rewrite IH by (done || lia). f_equal. lia.
Qed.

Lemma compact_clear_spec (n i m : nat) (es : list pgraft_kv_entry_t) :
  (m <= i)%nat ->
  length (compact_clear n i es) = length es /\
  take m (compact_clear n i es) = take m es.
Proof.
  revert i es. induction n as [|n IH]; intros i es Hm; [done|].
  cbn [compact_clear].
  destruct (IH (S i) (<[i:=zero_entry]> es)) as [IH1 IH2]; [lia|].
  rewrite IH1, IH2, length_insert. by rewrite take_insert_ge by lia.
Qed.

Lemma compact_shape (w : kv_world) (store : pgraft_kv_store_t) :
  g_kv_store w = Some store -> well_formed store ->
  exists s',
    pgraft_kv_compact w
    = (pgraft_kv_save_to_disk (Some PGRAFT_KV_PERSIST_FILE)
         (set_store s' w)).2 /\
    g_kv_store (pgraft_kv_compact w) = Some s' /\
    well_formed s' /\
    used s' = filter not_deleted (used store) /\
    total_operations s' = total_operations store /\
    last_applied_index s' = last_applied_index store /\
    puts s' = puts store /\ deletes s' = deletes store /\
    gets s' = gets store.
Proof.
  intros Hs Hwf. unfold pgraft_kv_compact. rewrite Hs.
  pose proof (well_formed_used _ Hwf) as Hn.
  pose proof (compact_move_spec (Z.to_nat (num_entries store)) 0 0
                (entries store)) as Hmove.
  destruct (compact_move _ 0 0 (entries store)) as [es j].
  destruct Hmove as (Hlen & Hj & Htake); [lia|lia|].
  cbn [fst snd] in *. rewrite drop_0, take_0 in *. cbn in Hj, Htake.
  pose proof (length_filter not_deleted
                (take (Z.to_nat (num_entries store)) (entries store))) as Hle.
  rewrite length_take in Hle.
  destruct (compact_clear_spec (Z.to_nat (num_entries store) - j) j j es)
    as [Hclen Hctake]; [lia|].
  eexists. split; [reflexivity|]. rewrite save_keeps_store.
  split; [reflexivity|].
  destruct Hwf as [Hwlen Hwn]. unfold KV_CAPACITY in *.
  split.
  { split; cbn [entries num_entries]; [by rewrite Hclen, Hlen|].
    unfold KV_CAPACITY. lia. }
  split; [|done].
  unfold used at 1. cbn [entries num_entries]. rewrite Nat2Z.id.
  by rewrite Hctake, Htake.
Qed.

(** The scan of a list from which entries that cannot match were dropped. *)
Lemma list_find_filter_snd {A} (P Q : A -> Prop)
    `{!forall x, Decision (P x)} `{!forall x, Decision (Q x)} (l : list A) :
  (forall x, P x -> Q x) ->
  snd <$> list_find P (filter Q l) = snd <$> list_find P l.
Proof.
  intros HPQ. induction l as [|a l IH]; [done|].
  destruct (decide (Q a)) as [Hq|Hq].
  - rewrite filter_cons_True by done. cbn [list_find].
    destruct (decide (P a)); [done|].
    destruct (list_find P (filter Q l)) as [[]|],
             (list_find P l) as [[]|]; by simplify_eq/=.
  - rewrite filter_cons_False by done. cbn [list_find].
    rewrite decide_False by auto.
    destruct (list_find P (filter Q l)) as [[]|],
             (list_find P l) as [[]|]; by simplify_eq/=.
Qed.


(** *** What a call does to the entries in use *)

Lemma put_failure (w w' : kv_world) (k v : option string) (idx now : Z)
    (r : outcome Z) :
  pgraft_kv_put k v idx now w = (r, w') -> r <> Ret 0 -> w' = w.
Proof.
  unfold pgraft_kv_put.
  destruct (g_kv_store w), k, v; try (by intros [= <- <-]).
  repeat case_bool_decide; by intros [= <- <-].
Qed.

Lemma delete_failure (w w' : kv_world) (k : option string) (idx now : Z)
    (r : outcome Z) :
  pgraft_kv_delete k idx now w = (r, w') -> r <> Ret 0 -> w' = w.
Proof.
  unfold pgraft_kv_delete.
  destruct (g_kv_store w), k; try (by intros [= <- <-]).
  repeat case_bool_decide; by intros [= <- <-].
Qed.

Lemma get_failure (w w' : kv_world) (k : option string) (size : nat)
    (r : outcome Z) (out : option (string * Z)) :
  pgraft_kv_get k size w = (r, out, w') -> r <> Ret 0 -> w' = w /\ out = None.
Proof.
  unfold pgraft_kv_get.
  destruct (g_kv_store w), k; try (by intros [= <- <- <-]).
  repeat case_bool_decide; by intros [= <- <- <-].
Qed.

Lemma used_snoc (es : list pgraft_kv_entry_t) (n : Z) (e : pgraft_kv_entry_t) :
  0 <= n -> (Z.to_nat n < length es)%nat ->
  take (Z.to_nat (n + 1)) (<[Z.to_nat n := e]> es)
  = take (Z.to_nat n) es ++ [e].
Proof.
  intros Hn Hlen. replace (Z.to_nat (n + 1)) with (S (Z.to_nat n)) by lia.
  erewrite take_S_r by (by apply list_lookup_insert_eq).
  by rewrite take_insert_ge by lia.
Qed.

Lemma exec_used (op : kv_op) (w : kv_world) (store : pgraft_kv_store_t) :
  g_kv_store w = Some store -> well_formed store ->
  exists s',
    g_kv_store (kv_exec op w) = Some s' /\ well_formed s' /\
    (used s' = used store \/
     (exists k i e e',
        writes_key k op /\ live_entry store k = Some (i, e) /\
        used s' = <[i := e']> (used store) /\ key e' = k) \/
     (exists k e',
        writes_key k op /\ live_entry store k = None /\
        used s' = used store ++ [e'] /\ key e' = k /\ deleted e' = false) \/
     used s' = filter not_deleted (used store) \/
     (op = Reset /\ used s' = [])).
Proof.
  intros Hs Hwf. pose proof Hwf as [Hlen Hn]. unfold KV_CAPACITY in Hlen, Hn.
  destruct op as [k v idx now|k idx now|k size| |]; cbn [kv_exec].
  - destruct (pgraft_kv_put k v idx now w) as [r w'] eqn:Hput. cbn [snd].
    destruct (outcome_ret0_dec r) as [->|Hr];
      [|apply put_failure in Hput as ->; eauto].
    destruct k as [k|], v as [v|];
      try (unfold pgraft_kv_put in Hput; rewrite Hs in Hput; done).
    destruct (put_shape _ _ _ _ _ _ _ Hs Hwf Hput) as (_ & _ & _ & Hshape).
    destruct (live_entry store k) as [[i e]|] eqn:Hlive.
    + destruct (live_entry_lookup _ _ _ _ Hlive) as (Hi & Hlt & Hd & Hke).
      eexists. split; [exact Hshape|].
      split; [split; cbn; [by rewrite length_insert|done]|].
      right; left. eexists k, i, e, _. split; [done|]. split; [done|].
      split; [unfold used; cbn; by rewrite take_insert_lt|done].
    + destruct Hshape as [Hroom Hshape]. unfold KV_CAPACITY in Hroom.
      eexists. split; [exact Hshape|].
      split; [split; cbn; [by rewrite length_insert|unfold KV_CAPACITY; lia]|].
      right; right; left. eexists k, _. split; [done|]. split; [done|].
      split; [unfold used at 1; cbn [entries num_entries count_put];
              apply used_snoc; lia|done].
  - destruct (pgraft_kv_delete k idx now w) as [r w'] eqn:Hdel. cbn [snd].
    destruct (outcome_ret0_dec r) as [->|Hr];
      [|apply delete_failure in Hdel as ->; eauto].
    destruct k as [k|];
      [|unfold pgraft_kv_delete in Hdel; rewrite Hs in Hdel; done].
    destruct (delete_shape _ _ _ _ _ _ Hs Hwf Hdel)
      as (i & e & Hlive & _ & Hshape).
    destruct (live_entry_lookup _ _ _ _ Hlive) as (Hi & Hlt & Hd & Hke).
    eexists. split; [exact Hshape|].
    split; [split; cbn; [by rewrite length_insert|done]|].
    right; left. eexists k, i, e, _. split; [done|]. split; [done|].
    split; [unfold used; cbn; by rewrite take_insert_lt|done].
  - unfold pgraft_kv_get. rewrite Hs. destruct k as [k|]; [|eauto].
    case_bool_decide; cbn [snd]; [eauto|].
    eexists. split; [reflexivity|]. split; [done|]. by left.
  - destruct (compact_shape _ _ Hs Hwf) as (s' & _ & Hs' & Hwf' & Hused & _).
    exists s'. split; [done|]. split; [done|]. auto.
  - unfold pgraft_kv_reset. rewrite Hs. exists empty_store.
    split; [done|]. split; [by split|]. right; right; right; right. done.
Qed.

(** *** Keys of live entries are unique *)

Lemma unique_list_cons (x : pgraft_kv_entry_t) (l : list pgraft_kv_entry_t) :
  unique_list (x :: l) <->
  (deleted x = false -> Forall (fun y => ~ holds (key x) y) l) /\
  unique_list l.
Proof.
  split.
  - intros Hu. split.
    + intros Hx. apply Forall_lookup. intros i y Hy [Hd Hk].
      by specialize (Hu 0%nat (S i) x y eq_refl Hy Hx Hd (eq_sym Hk)).
    + intros i j ei ej Hi Hj Hdi Hdj Hk.
      by specialize (Hu (S i) (S j) ei ej Hi Hj Hdi Hdj Hk) as [= ->].
  - intros [Hx Hu] [|i] [|j] ei ej Hi Hj Hdi Hdj Hk; simplify_eq/=.
    + done.
    + specialize (Hx Hdi). rewrite Forall_lookup in Hx.
      by destruct (Hx j ej Hj).
    + specialize (Hx Hdj). rewrite Forall_lookup in Hx.
      by destruct (Hx i ei Hi).
    + f_equal. eauto.
Qed.

Lemma unique_list_filter (l : list pgraft_kv_entry_t) :
  unique_list l -> unique_list (filter not_deleted l).
Proof.
  induction l as [|a l IH]; [done|]. intros [Ha Hu]%unique_list_cons.
  destruct (decide (not_deleted a)).
  - rewrite filter_cons_True by done. apply unique_list_cons.
    split; [|auto]. intros Hd. by apply Forall_filter_keep, Ha.
  - rewrite filter_cons_False by done. auto.
Qed.

Lemma unique_list_insert (l : list pgraft_kv_entry_t) (i : nat)
    (e e' : pgraft_kv_entry_t) :
  l !! i = Some e -> deleted e = false -> key e' = key e ->
  unique_list l -> unique_list (<[i := e']> l).
Proof.
  intros Hi Hd Hk Hu p q ep eq Hp Hq Hdp Hdq Hkey.
  assert (Hold : forall p ep, <[i:=e']> l !! p = Some ep ->
                 exists e0, l !! p = Some e0 /\ key e0 = key ep /\
                            (deleted ep = false -> deleted e0 = false)).
  { intros p' ep' Hp'. destruct (decide (p' = i)) as [->|Hne].
    - rewrite list_lookup_insert_eq in Hp' by (by eapply lookup_lt_Some).
      simplify_eq. by exists e.
    - rewrite list_lookup_insert_ne in Hp' by done. by exists ep'. }
  destruct (Hold _ _ Hp) as (ep0 & Hp0 & Hkp & Hdp0).
  destruct (Hold _ _ Hq) as (eq0 & Hq0 & Hkq & Hdq0).
  eapply (Hu p q ep0 eq0); auto. congruence.
Qed.

Lemma unique_list_snoc (l : list pgraft_kv_entry_t) (e : pgraft_kv_entry_t) :
  Forall (fun x => ~ holds (key e) x) l ->
  unique_list l -> unique_list (l ++ [e]).
Proof.
  intros Hno Hu i j ei ej Hi Hj Hdi Hdj Hk. rewrite Forall_lookup in Hno.
  apply lookup_app_Some in Hi as [Hi|[Hil Hi]];
    apply lookup_app_Some in Hj as [Hj|[Hjl Hj]].
  - eauto.
  - apply list_lookup_singleton_Some in Hj as [_ <-].
    by destruct (Hno i ei Hi).
  - apply list_lookup_singleton_Some in Hi as [_ <-].
    by destruct (Hno j ej Hj).
  - apply list_lookup_singleton_Some in Hi as [Hi _].
    apply list_lookup_singleton_Some in Hj as [Hj _]. lia.
Qed.

Lemma exec_unique (op : kv_op) (w : kv_world) (store : pgraft_kv_store_t) :
  g_kv_store w = Some store -> well_formed store -> unique_live store ->
  exists s',
    g_kv_store (kv_exec op w) = Some s' /\ well_formed s' /\ unique_live s'.
Proof.
  intros Hs Hwf Hu.
  destruct (exec_used op w store Hs Hwf) as (s' & Hs' & Hwf' & Hcases).
  exists s'. split; [done|]. split; [done|]. unfold unique_live in *.
  destruct Hcases as [->|[(k & i & e & e' & _ & Hlive & -> & Hk)|
                     [(k & e' & _ & Hlive & -> & Hk & Hd)|[->|[_ ->]]]]].
  - done.
  - apply list_find_Some in Hlive as (Hi & [Hd Hke] & _).
    eapply unique_list_insert; eauto. congruence.
  - apply unique_list_snoc; [|done]. rewrite Hk.
    apply (proj1 (list_find_None _ _)). exact Hlive.
  - by apply unique_list_filter.
  - by intros [|?] ? ? ? ?.
Qed.

Lemma run_unique (ops : list kv_op) (w : kv_world) (store : pgraft_kv_store_t) :
  g_kv_store w = Some store -> well_formed store -> unique_live store ->
  exists s',
    g_kv_store (kv_run ops w) = Some s' /\ well_formed s' /\ unique_live s'.
Proof.
  revert w store. induction ops as [|op ops IH]; intros w store Hs Hwf Hu.
  - by exists store.
  - destruct (exec_unique op w store Hs Hwf Hu) as (s1 & Hs1 & Hwf1 & Hu1).
    exact (IH _ _ Hs1 Hwf1 Hu1).
Qed.

(** *** Readers of other keys *)

Lemma list_find_snoc_other {A} (P : A -> Prop) `{!forall x, Decision (P x)}
    (l : list A) (x : A) :
  ~ P x -> list_find P (l ++ [x]) = list_find P l.
Proof.
  intros Hx. induction l as [|a l IH]; cbn [app list_find].
  - by rewrite decide_False.
  - destruct (decide (P a)); [done|]. by rewrite IH.
Qed.

Lemma exec_live_other (op : kv_op) (w : kv_world) (store : pgraft_kv_store_t)
    (k : string) :
  g_kv_store w = Some store -> well_formed store -> ~ writes_key k op ->
  exists s',
    g_kv_store (kv_exec op w) = Some s' /\ well_formed s' /\
    snd <$> live_entry s' k = snd <$> live_entry store k.
Proof.
  intros Hs Hwf Hop.
  destruct (exec_used op w store Hs Hwf) as (s' & Hs' & Hwf' & Hcases).
  exists s'. split; [done|]. split; [done|]. unfold live_entry.
  destruct Hcases as [->|[(k' & i & e & e' & Hw & Hlive & -> & Hk)|
                     [(k' & e' & Hw & Hlive & -> & Hk & Hd)|[->|[-> _]]]]].
  - done.
  - assert (k' <> k) by (by intros ->).
    apply list_find_Some in Hlive as (Hi & [Hd Hke] & _).
    rewrite (list_find_insert_other _ _ _ _ e); first done; try done.
    + intros [_ ?]. congruence.
    + intros [_ ?]. congruence.
  - assert (k' <> k) by (by intros ->).
    rewrite list_find_snoc_other; [done|]. intros [_ ?]. congruence.
  - apply list_find_filter_snd. by intros x [? _].
  - by destruct Hop.
Qed.

(** *** Snapshots on a disk without failures *)

Lemma put_saves (w w' : kv_world) (k v : option string) (idx now : Z) :
  pgraft_kv_put k v idx now w = (Ret 0, w') ->
  exists s',
    w' = (pgraft_kv_save_to_disk (Some PGRAFT_KV_PERSIST_FILE)
            (set_store s' w)).2.
Proof.
  unfold pgraft_kv_put.
  destruct (g_kv_store w), k, v; try (by intros [=]).
  repeat case_bool_decide; intros [= <-]; eauto.
Qed.




(** *** The key list *)

Lemma key_list_from_spec (es : list pgraft_kv_entry_t) (n i : nat) :
  (i + n <= length es)%nat ->
  key_list_from es n i = key <$> filter not_deleted (take n (drop i es)).
Proof.
  revert i. induction n as [|n IH]; intros i Hlen; [done|].
  destruct (lookup_lt_is_Some_2 es i) as [e He]; [lia|].
  cbn [key_list_from]. rewrite (list_lookup_total_correct _ _ _ He).
  rewrite (drop_S _ _ _ He), firstn_cons.
  destruct (deleted e) eqn:Hd.
  - rewrite filter_cons_False by (unfold not_deleted; by rewrite Hd).
    apply IH. lia.
  - rewrite filter_cons_True by done. cbn. f_equal. apply IH. lia.
Qed.

Lemma unique_list_keys (l : list pgraft_kv_entry_t) :
  unique_list l -> NoDup (key <$> filter not_deleted l).
Proof.
  induction l as [|a l IH]; [constructor|].
  intros [Ha Hu]%unique_list_cons.
  destruct (decide (not_deleted a)) as [Hd|Hd].
  - rewrite filter_cons_True by done. cbn. constructor; [|auto].
    intros (y & Hy & [Hyd Hyl]%list_elem_of_filter)%list_elem_of_fmap.
    specialize (Ha Hd). rewrite Forall_forall in Ha.
    by destruct (Ha y Hyl).
  - rewrite filter_cons_False by done. auto.
Qed.

Lemma empty_store_inv :
  well_formed empty_store /\ unique_live empty_store.
Proof. split; [by split|]. by intros [|?] ? ? ? ?. Qed.

(** *** Properties of the store *)

(** X8. A put that returns 0 is seen by the next get of the key: the get
    returns 0 with the value put, cut to the buffer of the caller, and the
    version, which is one more than the version of the live entry the key
    had (in int64_t) and 1 when the key had none; exists answers true. *)
Theorem put_then_get (w w' : kv_world) (store : pgraft_kv_store_t)
    (k v : string) (idx now : Z) (size : nat) :
  g_kv_store w = Some store -> well_formed store ->
  pgraft_kv_put (Some k) (Some v) idx now w = (Ret 0, w') ->
  (0 < size)%nat ->
  (pgraft_kv_get (Some k) size w').1
  = (Ret 0,
     Some (strncpy0 size v,
           match live_version store k with
           | Some n => wrap64 (n + 1)
           | None => 1
           end)) /\
  pgraft_kv_exists (Some k) w' = true.
Proof.
  intros Hs Hwf Hput _.
  destruct (exec_used (Put (Some k) (Some v) idx now) w store Hs Hwf)
    as (s' & Hs' & Hwf' & _).
  cbn [kv_exec] in Hs'. rewrite Hput in Hs'. cbn [snd] in Hs'.
  destruct (put_shape _ _ _ _ _ _ _ Hs Hwf Hput) as (_ & _ & _ & Hshape).
  pose proof Hwf as [Hlen Hn]. unfold KV_CAPACITY in Hlen, Hn.
  rewrite (get_spec _ _ _ _ Hs' Hwf'), (exists_spec _ _ _ Hs' Hwf').
  unfold live_version.
  destruct (live_entry store k) as [[i e]|] eqn:Hlive.
  - destruct (live_entry_lookup _ _ _ _ Hlive) as (Hi & Hlt & Hd & Hke).
    assert (Hl : live_entry s' k
                 = Some (i, mk_entry k v (wrap64 (version e + 1))
                                     (created_at e) now idx false)).
    { assert (Some s' = Some (count_put idx
                (<[i := mk_entry k v (wrap64 (version e + 1)) (created_at e)
                                 now idx false]> (entries store))
                (num_entries store) store)) as [= ->] by congruence.
      unfold live_entry, used. cbn [entries num_entries count_put].
      rewrite take_insert_lt by done.
      apply list_find_insert_Some. right; left.
      apply list_find_Some in Hlive as (Hu & _ & Hleast).
      split; [done|]. split; [done|].
      split; [by eapply lookup_lt_Some|]. split; [done|]. exact Hleast. }
    rewrite Hl. split; [done|]. apply bool_decide_eq_true_2. by eexists.
  - destruct Hshape as [Hroom Hshape]. unfold KV_CAPACITY in Hroom.
    assert (Hl : live_entry s' k
                 = Some (Z.to_nat (num_entries store),
                         mk_entry k v 1 now now idx false)).
    { assert (Some s' = Some (count_put idx
                (<[Z.to_nat (num_entries store)
                   := mk_entry k v 1 now now idx false]> (entries store))
                (num_entries store + 1) store)) as [= ->] by congruence.
      unfold live_entry at 1, used at 1. cbn [entries num_entries count_put].
      rewrite used_snoc by lia. rewrite list_find_app_r by exact Hlive.
      cbn [list_find]. rewrite decide_True by done. cbn.
      do 2 f_equal. rewrite length_take. lia. }
    rewrite Hl. split; [done|]. apply bool_decide_eq_true_2. by eexists.
Qed.

Lemma put_then_get_witness :
  (pgraft_kv_get (Some "alpha") 1024 kv_w3).1 = (Ret 0, Some ("2", 1)) /\
  pgraft_kv_exists (Some "alpha") kv_w3 = true.
Proof.
  apply (put_then_get kv_w2 kv_w3 (store_of kv_w2) "alpha" "2" 7 102 1024);
    [reflexivity|split; by_compute|vm_compute; reflexivity|lia].
Defined.

(** X9. A put, a delete or a get that does not return 0 (a NULL argument,
    a key or a value that is too long, a full store, a key that is not
    stored) leaves the store in memory and the disk as they were, and the
    get stores nothing through its pointers. *)
Theorem failed_operations_change_nothing (w : kv_world) (k v : option string)
    (idx now : Z) (size : nat) :
  ((pgraft_kv_put k v idx now w).1 = Ret 0 \/
   (pgraft_kv_put k v idx now w).2 = w) /\
  ((pgraft_kv_delete k idx now w).1 = Ret 0 \/
   (pgraft_kv_delete k idx now w).2 = w) /\
  ((pgraft_kv_get k size w).1.1 = Ret 0 \/
   (pgraft_kv_get k size w).2 = w /\ (pgraft_kv_get k size w).1.2 = None).
Proof.
  split; [|split].
  - destruct (pgraft_kv_put k v idx now w) as [r w'] eqn:Hput.
    destruct (outcome_ret0_dec r) as [->|Hr]; [by left|right].
    by eapply put_failure.
  - destruct (pgraft_kv_delete k idx now w) as [r w'] eqn:Hdel.
    destruct (outcome_ret0_dec r) as [->|Hr]; [by left|right].
    by eapply delete_failure.
  - destruct (pgraft_kv_get k size w) as [[r out] w'] eqn:Hget.
    destruct (outcome_ret0_dec r) as [->|Hr]; [by left|right].
    by eapply get_failure.
Qed.

(** X10. A call that does not write the key k (a put or a delete of another
    key, a get, a compaction) does not change what a reader of k receives:
    get returns the same code, value and version, and exists the same
    answer. *)
Theorem other_keys_unaffected (op : kv_op) (w : kv_world)
    (store : pgraft_kv_store_t) (k : string) (size : nat) :
  g_kv_store w = Some store -> well_formed store -> ~ writes_key k op ->
  (0 < size)%nat ->
  (pgraft_kv_get (Some k) size (kv_exec op w)).1
  = (pgraft_kv_get (Some k) size w).1 /\
  pgraft_kv_exists (Some k) (kv_exec op w) = pgraft_kv_exists (Some k) w.
Proof.
  intros Hs Hwf Hop _.
  destruct (exec_live_other op w store k Hs Hwf Hop) as (s' & Hs' & Hwf' & Hl).
  rewrite (get_spec _ _ _ _ Hs' Hwf'), (get_spec _ _ _ _ Hs Hwf).
  rewrite (exists_spec _ _ _ Hs' Hwf'), (exists_spec _ _ _ Hs Hwf).
  destruct (live_entry s' k) as [[i' e']|], (live_entry store k) as [[i e]|];
    simplify_eq/=; done.
Qed.

Lemma other_keys_unaffected_witness :
  (pgraft_kv_get (Some "alpha") 1024
     (kv_exec (Put (Some "beta") (Some "9") 8 103) kv_w3)).1
  = (pgraft_kv_get (Some "alpha") 1024 kv_w3).1 /\
  pgraft_kv_exists (Some "alpha")
    (kv_exec (Put (Some "beta") (Some "9") 8 103) kv_w3)
  = pgraft_kv_exists (Some "alpha") kv_w3.
Proof.
  apply (other_keys_unaffected (Put (Some "beta") (Some "9") 8 103) kv_w3
           (store_of kv_w3) "alpha" 1024);
    [reflexivity|split; by_compute|cbn; by_compute|lia].
Defined.

(** X11. Whatever calls are made on a store that starts empty, the store
    stays inside its array, no two entries that are not deleted carry the
    same key, and the key list has no duplicates. *)
Theorem store_keys_unique (ops : list kv_op)
    (d : FS.disk pgraft_kv_store_t) :
  exists s,
    g_kv_store (kv_run ops (mk_world (Some empty_store) d)) = Some s /\
    well_formed s /\ unique_live s /\ NoDup (listed_keys s).
Proof.
  destruct empty_store_inv as [Hwf Hu].
  destruct (run_unique ops (mk_world (Some empty_store) d) empty_store)
    as (s & Hs & Hwf' & Hu'); [done..|].
  exists s. split; [done|]. split; [done|]. split; [done|].
  unfold listed_keys. rewrite key_list_from_spec
    by (pose proof (well_formed_used _ Hwf'); lia).
  rewrite drop_0. by apply unique_list_keys.
Qed.

(** X12. In a store that started empty, a delete that returns 0 removes the
    key for every reader: exists answers false, get returns -1 and stores
    nothing, and a second delete returns -1 and changes nothing. *)
Theorem delete_then_missing (ops : list kv_op)
    (d : FS.disk pgraft_kv_store_t) (k : string) (idx now idx' now' : Z)
    (size : nat) :
  let w := kv_run ops (mk_world (Some empty_store) d) in
  let w1 := (pgraft_kv_delete (Some k) idx now w).2 in
  (pgraft_kv_delete (Some k) idx now w).1 = Ret 0 ->
  pgraft_kv_exists (Some k) w1 = false /\
  pgraft_kv_get (Some k) size w1 = (Ret (-1), None, w1) /\
  pgraft_kv_delete (Some k) idx' now' w1 = (Ret (-1), w1).
Proof.
  intros w w1 Hret.
  destruct empty_store_inv as [Hwf0 Hu0].
  destruct (run_unique ops (mk_world (Some empty_store) d) empty_store)
    as (s & Hs & Hwf & Hu); [done..|].
  fold w in Hs. subst w1.
  destruct (pgraft_kv_delete (Some k) idx now w) as [r w1] eqn:Hdel.
  cbn [fst snd] in *. subst r.
  destruct (exec_used (Delete (Some k) idx now) w s Hs Hwf)
    as (s1 & Hs1 & Hwf1 & _).
  cbn [kv_exec] in Hs1. rewrite Hdel in Hs1. cbn [snd] in Hs1.
  destruct (delete_shape _ _ _ _ _ _ Hs Hwf Hdel)
    as (i & e & Hlive & _ & Hshape).
  destruct (live_entry_lookup _ _ _ _ Hlive) as (Hi & Hlt & Hd & Hke).
  assert (Hgone : live_entry s1 k = None).
  { rewrite Hshape in Hs1. injection Hs1 as <-.
    apply list_find_None, Forall_lookup. intros p ep Hp [Hdp Hkp].
    unfold used in Hp. cbn [entries num_entries] in Hp.
    rewrite take_insert_lt in Hp by done.
    assert (Hue : used s !! i = Some e)
      by (unfold used; rewrite lookup_take_lt by done; done).
    destruct (decide (p = i)) as [->|Hne].
    - rewrite list_lookup_insert_eq in Hp by (by eapply lookup_lt_Some).
      by simplify_eq.
    - rewrite list_lookup_insert_ne in Hp by done.
      apply Hne. eapply (Hu p i ep e); try done. congruence. }
  rewrite (exists_spec _ _ _ Hs1 Hwf1), Hgone.
  split; [apply bool_decide_eq_false_2; by intros [? [=]]|].
  split; [exact (get_missing _ _ _ _ Hs1 Hwf1 Hgone)|].
  exact (delete_missing _ _ _ _ _ Hs1 Hwf1 Hgone).
Qed.

Lemma delete_then_missing_witness :
  let w := kv_run [Put (Some "alpha") (Some "1") 5 100] kv_w0 in
  let w1 := (pgraft_kv_delete (Some "alpha") 6 101 w).2 in
  pgraft_kv_exists (Some "alpha") w1 = false /\
  pgraft_kv_get (Some "alpha") 1024 w1 = (Ret (-1), None, w1) /\
  pgraft_kv_delete (Some "alpha") 7 102 w1 = (Ret (-1), w1).
Proof.
  apply (delete_then_missing [Put (Some "alpha") (Some "1") 5 100]
           healthy_disk "alpha" 6 101 7 102 1024).
  vm_compute. reflexivity.
Defined.

(** X13. A compaction keeps exactly the entries in use that are not deleted,
    in their order, and sets num_entries to their number; the counters and
    last_applied_index stay.  No reader sees a difference, and a second
    compaction leaves the store as the first one left it. *)
Theorem compact_keeps_live_entries (w : kv_world) (store : pgraft_kv_store_t) :
  g_kv_store w = Some store -> well_formed store ->
  exists s',
    g_kv_store (pgraft_kv_compact w) = Some s' /\
    used s' = filter not_deleted (used store) /\
    num_entries s' = Z.of_nat (length (filter not_deleted (used store))) /\
    (total_operations s', last_applied_index s', puts s', deletes s', gets s')
    = (total_operations store, last_applied_index store, puts store,
       deletes store, gets store) /\
    (forall k size,
       (0 < size)%nat ->
       (pgraft_kv_get (Some k) size (pgraft_kv_compact w)).1
       = (pgraft_kv_get (Some k) size w).1) /\
    g_kv_store (pgraft_kv_compact (pgraft_kv_compact w)) = Some s'.
Proof.
  intros Hs Hwf.
  destruct (compact_shape _ _ Hs Hwf)
    as (s' & _ & Hs' & Hwf' & Hused & Ht & Hl & Hp & Hd & Hg).
  exists s'. split; [done|]. split; [done|].
  pose proof (well_formed_used _ Hwf') as Hn'.
  destruct Hwf' as [Hlen' Hnum']. unfold KV_CAPACITY in Hlen', Hnum'.
  split.
  { rewrite <- Hused. unfold used. rewrite length_take. lia. }
  split; [by rewrite Ht, Hl, Hp, Hd, Hg|].
  split.
  - intros k size _.
    rewrite (get_spec _ _ _ _ Hs' (conj Hlen' Hnum')), (get_spec _ _ _ _ Hs Hwf).
    assert (Hsnd : snd <$> live_entry s' k = snd <$> live_entry store k).
    { unfold live_entry. rewrite Hused.
      apply list_find_filter_snd. by intros x [? _]. }
    destruct (live_entry s' k) as [[i' e']|], (live_entry store k) as [[i e]|];
      simplify_eq/=; done.
  - unfold pgraft_kv_compact at 1. rewrite Hs'.
    rewrite (compact_move_id _ 0 (entries s')).
    + rewrite Nat.sub_diag. cbn [compact_clear Nat.add].
      rewrite save_keeps_store. cbn [g_kv_store set_store].
      rewrite Z2Nat.id by lia. by destruct s'.
    + cbn. lia.
    + rewrite drop_0. fold (used s'). rewrite Hused.
      apply Forall_forall. by intros x [? _]%list_elem_of_filter.
Qed.

Lemma compact_keeps_live_entries_witness :
  exists s',
    g_kv_store (pgraft_kv_compact kv_w3) = Some s' /\
    used s' = [mk_entry "alpha" "2" 1 102 102 7 false] /\
    num_entries s' = 1 /\
    g_kv_store (pgraft_kv_compact (pgraft_kv_compact kv_w3)) = Some s'.
Proof.
  destruct (compact_keeps_live_entries kv_w3 (store_of kv_w3))
    as (s' & Hs' & Hu & Hn & _ & _ & Hagain);
    [reflexivity|split; by_compute|].
  exists s'. split; [exact Hs'|]. split; [exact Hu|].
  split; [exact Hn|exact Hagain].
Defined.

(** X14. Deleted entries keep their slots.  In a store that started empty
    and has all 1000 slots in use, the key of a successful delete cannot be
    put back: the put raises the store-full error and changes nothing.
    After a compaction the same put returns 0. *)
Theorem tombstones_occupy_capacity (ops : list kv_op)
    (d : FS.disk pgraft_kv_store_t) (k v : string) (idx now idx' now' : Z) :
  let w := kv_run ops (mk_world (Some empty_store) d) in
  let w1 := (pgraft_kv_delete (Some k) idx now w).2 in
  num_entries (store_of w) = KV_CAPACITY ->
  (pgraft_kv_delete (Some k) idx now w).1 = Ret 0 ->
  (String.length k < 256)%nat -> (String.length v < 1024)%nat ->
  pgraft_kv_put (Some k) (Some v) idx' now' w1
  = (Raise "key/value store is full (1000 entries)", w1) /\
  (pgraft_kv_put (Some k) (Some v) idx' now' (pgraft_kv_compact w1)).1 = Ret 0.
Proof.
  intros w w1 Hfull Hret Hk Hv.
  destruct empty_store_inv as [Hwf0 Hu0].
  destruct (run_unique ops (mk_world (Some empty_store) d) empty_store)
    as (s & Hs & Hwf & Hu); [done..|].
  fold w in Hs. unfold store_of in Hfull. rewrite Hs in Hfull.
  cbn [default from_option] in Hfull. subst w1.
  destruct (pgraft_kv_delete (Some k) idx now w) as [r w1] eqn:Hdel.
  cbn [fst snd] in *. subst r.
  destruct (exec_unique (Delete (Some k) idx now) w s Hs Hwf Hu)
    as (s1 & Hs1 & Hwf1 & Hu1).
  cbn [kv_exec] in Hs1. rewrite Hdel in Hs1. cbn [snd] in Hs1.
  destruct (delete_shape _ _ _ _ _ _ Hs Hwf Hdel)
    as (i & e & Hlive & _ & Hshape).
  destruct (live_entry_lookup _ _ _ _ Hlive) as (Hi & Hlt & Hd & Hke).
  assert (Hs1' := Hs1). rewrite Hshape in Hs1'. injection Hs1' as Heq.
  assert (Hused1 : used s1 !! i
                   = Some (mk_entry k (value e) (wrap64 (version e + 1))
                                    (created_at e) now idx true)).
  { rewrite <- Heq. unfold used. cbn [entries num_entries].
    rewrite lookup_take_lt by done.
    apply list_lookup_insert_eq. by eapply lookup_lt_Some. }
  assert (Hnum1 : num_entries s1 = KV_CAPACITY) by (by rewrite <- Heq).
  assert (Hgone : live_entry s1 k = None).
  { apply list_find_None, Forall_lookup. intros p ep Hp [Hdp Hkp].
    rewrite <- Heq in Hp. unfold used in Hp. cbn [entries num_entries] in Hp.
    rewrite take_insert_lt in Hp by done.
    assert (Hue : used s !! i = Some e)
      by (unfold used; rewrite lookup_take_lt by done; done).
    destruct (decide (p = i)) as [->|Hne].
    - rewrite list_lookup_insert_eq in Hp by (by eapply lookup_lt_Some).
      by simplify_eq.
    - rewrite list_lookup_insert_ne in Hp by done.
      apply Hne. eapply (Hu p i ep e); try done. congruence. }
  split.
  - unfold pgraft_kv_put. rewrite Hs1.
    rewrite !bool_decide_eq_false_2 by lia.
    rewrite find_entry_index_spec, Hgone by done. cbn [from_option].
    rewrite bool_decide_eq_false_2 by lia.
    rewrite bool_decide_eq_true_2; [done|]. rewrite Hnum1. unfold KV_CAPACITY. lia.
  - destruct (compact_shape _ _ Hs1 Hwf1)
      as (s2 & _ & Hs2 & Hwf2 & Hused2 & _).
    assert (Hgone2 : live_entry s2 k = None).
    { assert (Hsnd : snd <$> live_entry s2 k = snd <$> live_entry s1 k).
      { unfold live_entry. rewrite Hused2.
        apply list_find_filter_snd. by intros x [? _]. }
      rewrite Hgone in Hsnd. by destruct (live_entry s2 k). }
    assert (Hroom : num_entries s2 < KV_CAPACITY).
    { pose proof (well_formed_used _ Hwf2) as Hn2.
      pose proof (well_formed_used _ Hwf1) as Hn1.
      assert (Hl2 : length (used s2) = Z.to_nat (num_entries s2))
        by (unfold used; rewrite length_take; lia).
      assert (Hl1 : length (used s1) = Z.to_nat (num_entries s1))
        by (unfold used; rewrite length_take; lia).
      assert (length (used s2) < length (used s1))%nat.
      { rewrite Hused2. eapply length_filter_lt.
        - eapply list_elem_of_lookup_2, Hused1.
        - by unfold not_deleted. }
      destruct Hwf2 as [_ ?]. lia. }
    destruct (put_fresh _ s2 k v idx' now' Hs2 Hwf2 Hk Hv Hgone2 Hroom)
      as (w' & s' & -> & _). done.
Qed.

Lemma tombstones_occupy_capacity_witness :
  let w := kv_run fill_store (mk_world (Some empty_store) read_only_disk) in
  let w1 := (pgraft_kv_delete (Some (slot_key 7)) 1000 101 w).2 in
  pgraft_kv_put (Some (slot_key 7)) (Some "again") 1001 102 w1
  = (Raise "key/value store is full (1000 entries)", w1) /\
  (pgraft_kv_put (Some (slot_key 7)) (Some "again") 1001 102
     (pgraft_kv_compact w1)).1 = Ret 0.
Proof.
  apply (tombstones_occupy_capacity fill_store read_only_disk (slot_key 7)
           "again" 1000 101 1001 102);
    [vm_compute; reflexivity|vm_compute; reflexivity|by_compute|by_compute].
Defined.



(** X16. The return code of a put and the store it leaves in memory do not
    depend on the disk.  When fopen succeeds and fwrite fails, a put that
    returns 0 leaves an empty snapshot file, and a restart comes up with
    the empty store: the data put and the data of earlier snapshots are
    gone, although every call reported success. *)
Theorem put_ignores_snapshot_failure (w : kv_world) (k v : option string)
    (idx now : Z) :
  FS.fopen_w_fails (disk w) PGRAFT_KV_PERSIST_FILE = false ->
  FS.fwrite_fails (disk w) = true ->
  let r := pgraft_kv_put k v idx now w in
  (forall d,
     (pgraft_kv_put k v idx now (set_disk d w)).1 = r.1 /\
     g_kv_store (pgraft_kv_put k v idx now (set_disk d w)).2
     = g_kv_store r.2) /\
  (r.1 = Ret 0 ->
   FS.fopen_r PGRAFT_KV_PERSIST_FILE (disk r.2) = Some [] /\
   g_kv_store (restart r.2) = Some empty_store).
Proof.
  intros Hopen Hwrite r. split.
  - intros d0. subst r. unfold pgraft_kv_put. cbn [g_kv_store set_disk].
    destruct (g_kv_store w) as [store|], k as [k|], v as [v|]; try done.
    repeat case_bool_decide; cbn [fst snd]; rewrite ?save_keeps_store; done.
  - destruct r as [r0 w'] eqn:Hput. cbn [fst snd]. intros ->.
    destruct (put_saves _ _ _ _ _ _ Hput) as [s' ->].
    unfold pgraft_kv_save_to_disk. cbn [g_kv_store set_store disk].
    unfold FS.fopen_w, FS.fwrite. rewrite Hopen. cbn. rewrite Hwrite. cbn.
    unfold restart, pgraft_kv_init_shared_memory, pgraft_kv_load_from_disk,
      FS.fopen_r. cbn. by rewrite lookup_insert_eq.
Qed.

Lemma put_ignores_snapshot_failure_witness :
  let w := set_disk (FS.mk_disk (FS.files (disk kv_w1)) [] (fun _ => false)
                       true false) kv_w1 in
  let r := pgraft_kv_put (Some "beta") (Some "2") 6 101 w in
  r.1 = Ret 0 /\
  pgraft_kv_exists (Some "alpha") kv_w1 = true /\
  pgraft_kv_exists (Some "alpha") (restart r.2) = false.
Proof.
  intros w r.
  destruct (put_ignores_snapshot_failure w (Some "beta") (Some "2") 6 101)
    as [_ Hlost]; [reflexivity|reflexivity|].
  destruct Hlost as [_ Hrestart]; [vm_compute; reflexivity|].
  split; [vm_compute; reflexivity|]. split; [vm_compute; reflexivity|].
  unfold pgraft_kv_exists. fold r in Hrestart. rewrite Hrestart.
  vm_compute. reflexivity.
Defined.



End KVMore.

Module StateFileFacts.
Import StateFile.

Lemma string_length_app (a b : string) :
  String.length (a +:+ b) = (String.length a + String.length b)%nat.
Proof. induction a as [|c a IH]; simpl; [done|]. by rewrite IH. Qed.

Lemma string_app_inj_r (s a b : string) : s +:+ a = s +:+ b -> a = b.
Proof. induction s as [|c s IH]; simpl; [done|]. intros [= Heq]. auto. Qed.

(** With a data directory short enough for both paths to fit MAXPGPATH, the
    temporary path is not the final path. *)
Lemma temppath_fresh (guc : option string) :
  (String.length (data_dir_of guc) + 24 < MAXPGPATH)%nat ->
  temppath guc <> filepath guc.
Proof.
  intros Hshort. unfold temppath, filepath.
  rewrite !KVFacts.strncpy0_fits by (rewrite string_length_app; simpl; lia).
  intros Heq%string_app_inj_r. discriminate Heq.
Qed.

Section replay.
Context {D : Type}.
Implicit Types (fs : gmap string (list D)) (cs : list (FS.syscall D)).

(** Calls that do not name a path leave the file at that path alone. *)
Lemma perform_other q c fs : ~ FS.touches q c -> FS.perform c fs !! q = fs !! q.
Proof.
  destruct c as [p|p x|src dst|p]; simpl; intros Hq.
  - by rewrite lookup_insert_ne.
  - by rewrite lookup_alter_ne.
  - destruct (fs !! src); [|done].
    rewrite lookup_insert_ne, lookup_delete_ne; tauto.
  - by rewrite lookup_delete_ne.
Qed.

Lemma replay_other q cs fs :
  Forall (fun c => ~ FS.touches q c) cs -> FS.replay cs fs !! q = fs !! q.
Proof.
  intros Hcs. revert fs. induction Hcs as [|c cs Hc _ IH]; intros fs; [done|].
  cbn. unfold FS.replay in IH. by rewrite IH, perform_other.
Qed.

Lemma replay_app cs1 cs2 fs :
  FS.replay (cs1 ++ cs2) fs = FS.replay cs2 (FS.replay cs1 fs).
Proof. unfold FS.replay. by rewrite foldl_app. Qed.

(** Writing chunks one after the other appends them. *)
Lemma replay_writes p (chunks : list D) fs (content : list D) :
  fs !! p = Some content ->
  FS.replay (FS.Sys_write p <$> chunks) fs !! p = Some (content ++ chunks).
Proof.
  revert fs content. induction chunks as [|x chunks IH]; intros fs content Hp.
  - cbn. by rewrite app_nil_r.
  - cbn. unfold FS.replay in IH. rewrite (IH _ (content ++ [x])).
    + by rewrite <- app_assoc.
    + by rewrite lookup_alter_eq, Hp.
Qed.

End replay.

Lemma fprintf_all_spec (p : string) (lines : list string) (d : FS.disk string) :
  FS.fwrite_fails d = false ->
  let d' := fprintf_all p lines d in
  FS.files d' = FS.replay (FS.Sys_write p <$> lines) (FS.files d) /\
  FS.journal d' = FS.journal d ++ (FS.Sys_write p <$> lines) /\
  FS.fwrite_fails d' = false /\ FS.rename_fails d' = FS.rename_fails d /\
  FS.fopen_w_fails d' = FS.fopen_w_fails d.
Proof.
  revert d. induction lines as [|l lines IH]; intros d Hw.
  - cbn. by rewrite app_nil_r.
  - assert (Hstep : (FS.fwrite p l d).2 = FS.call (FS.Sys_write p l) d)
      by (unfold FS.fwrite; by rewrite Hw).
    destruct (IH (FS.call (FS.Sys_write p l) d) Hw) as (H1 & H2 & H3 & H4 & H5).
    unfold fprintf_all in *. cbn [foldl]. rewrite Hstep.
    cbn zeta. rewrite H1, H2, H3, H4, H5. cbn.
    by rewrite <- app_assoc.
Qed.

Lemma write_state_spec (guc : option string) (lines : list string)
    (d : FS.disk string) :
  healthy d ->
  let d' := write_state guc lines d in
  FS.calls_between d d' = state_calls guc lines /\
  FS.files d' = FS.replay (state_calls guc lines) (FS.files d).
Proof.
  intros (Hopen & Hwrite & Hrename). unfold write_state, FS.fopen_w.
  rewrite Hopen. cbn [negb].
  set (d1 := FS.call (FS.Sys_creat (temppath guc)) d).
  destruct (fprintf_all_spec (temppath guc) lines d1 Hwrite)
    as (Hf & Hj & _ & Hr & _).
  assert (Hr' : FS.rename_fails (fprintf_all (temppath guc) lines d1) = false)
    by (rewrite Hr; exact Hrename).
  unfold FS.rename. rewrite Hr'.
  assert (Htmp : FS.files (fprintf_all (temppath guc) lines d1)
                 !! temppath guc = Some lines).
  { rewrite Hf. rewrite (replay_writes _ _ _ []); [done|].
    cbn. by rewrite lookup_insert_eq. }
  rewrite Htmp. cbn [negb]. split.
  - unfold FS.calls_between. cbn [FS.journal FS.call]. rewrite Hj.
    cbn [FS.journal d1 FS.call]. rewrite <- !app_assoc.
    by rewrite drop_app_length.
  - cbn [FS.files FS.call]. rewrite Hf. unfold state_calls.
    change (FS.Sys_creat (temppath guc) :: ?l) with
      ([FS.Sys_creat (temppath guc)] ++ l).
    by rewrite !replay_app.
Qed.

(** The cluster state file is replaced atomically.  On a disk where no call
    fails, whatever the number of calls completed when the process dies, the
    final path holds either what it held before or the whole new content; and
    when the writer returns it holds the new content. *)
Lemma state_file_crash_safe (guc : option string) (lines : list string)
    (d : FS.disk string) :
  healthy d ->
  (String.length (data_dir_of guc) + 24 < MAXPGPATH)%nat ->
  let d' := write_state guc lines d in
  FS.files d' !! filepath guc = Some lines /\
  forall fs, fs ∈ FS.crash_states (FS.calls_between d d') (FS.files d) ->
    fs !! filepath guc = FS.files d !! filepath guc \/
    fs !! filepath guc = Some lines.
Proof.
  intros Hd Hshort d'.
  pose proof (temppath_fresh guc Hshort) as Hne.
  destruct (write_state_spec guc lines d Hd) as [Hcalls Hfiles].
  fold d' in Hcalls, Hfiles. rewrite Hcalls.
  set (pre := FS.Sys_creat (temppath guc)
              :: (FS.Sys_write (temppath guc) <$> lines)).
  assert (Hpre : Forall (fun c => ~ FS.touches (filepath guc) c) pre).
  { constructor; [done|]. apply Forall_fmap, Forall_forall. by intros l _. }
  assert (Htmp : forall fs0 : gmap string (list string),
             FS.replay pre fs0 !! temppath guc = Some lines).
  { intros fs0. unfold pre.
    change (FS.Sys_creat (temppath guc) :: ?l) with
      ([FS.Sys_creat (temppath guc)] ++ l).
    rewrite replay_app. rewrite (replay_writes _ _ _ []); [done|].
    cbn. by rewrite lookup_insert_eq. }
  assert (Hall : FS.replay (state_calls guc lines) (FS.files d)
                 !! filepath guc = Some lines).
  { change (FS.replay
              (pre ++ [FS.Sys_rename (temppath guc) (filepath guc)])
              (FS.files d) !! filepath guc = Some lines).
    rewrite replay_app.
    change (FS.replay [?c] ?fs) with (FS.perform c fs).
    cbn [FS.perform]. rewrite Htmp. by rewrite lookup_insert_eq. }
  split; [by rewrite Hfiles|].
  intros fs (k & -> & Hk)%list_elem_of_fmap.
  apply elem_of_seq in Hk.
  assert (Hlen : length (state_calls guc lines) = S (length pre)).
  { change (state_calls guc lines)
      with (pre ++ [FS.Sys_rename (temppath guc) (filepath guc)]).
    rewrite length_app. cbn. lia. }
  destruct (decide (k <= length pre)%nat) as [Hle|Hgt].
  - left. apply replay_other.
    change (state_calls guc lines)
      with (pre ++ [FS.Sys_rename (temppath guc) (filepath guc)]).
    rewrite take_app_le by done. by apply Forall_take.
  - right. rewrite take_ge by lia. exact Hall.
Qed.

(** The file written for leader 1, term 3, node 1 under the default data
    directory. *)
Example state_file_content :
  let d := pgraft_write_state_to_file None 1 3 1 1700000000
             (FS.mk_disk ∅ [] (fun _ => false) false false) in
  FS.files d !! "pgraft-data/cluster_state.json"
  = Some (state_lines 1 3 1 1700000000) /\
  FS.files d !! "pgraft-data/cluster_state.json.tmp" = None /\
  length (FS.journal d) = 8%nat.
Proof. vm_compute. by repeat split. Qed.

End StateFileFacts.
Module StateFileMore.
Import StateFile StateFileFacts.

Lemma fprintf_all_fails (p : string) (lines : list string) (d : FS.disk string) :
  FS.fwrite_fails d = true -> fprintf_all p lines d = d.
Proof.
  intros Hw. unfold fprintf_all. induction lines as [|l lines IH]; [done|].
  cbn [foldl]. unfold FS.fwrite at 2. by rewrite Hw.
Qed.

Lemma write_state_done (guc : option string) (lines : list string)
    (d : FS.disk string) :
  healthy d ->
  (String.length (data_dir_of guc) + 24 < MAXPGPATH)%nat ->
  let d' := write_state guc lines d in
  FS.files d' !! filepath guc = Some lines /\
  FS.files d' !! temppath guc = None /\
  forall fs, fs ∈ FS.crash_states (FS.calls_between d d') (FS.files d) ->
    fs !! filepath guc = FS.files d !! filepath guc \/
    fs !! filepath guc = Some lines.
Proof.
  intros Hd Hshort d'.
  destruct (state_file_crash_safe guc lines d Hd Hshort) as [Hfinal Hcrash].
  split; [exact Hfinal|]. split; [|exact Hcrash].
  pose proof (temppath_fresh guc Hshort) as Hne.
  destruct (write_state_spec guc lines d Hd) as [_ Hfiles].
  fold d' in Hfiles. rewrite Hfiles. unfold state_calls.
  change (FS.Sys_creat (temppath guc) :: ?l ++ ?r) with
    (([FS.Sys_creat (temppath guc)] ++ l) ++ r).
  rewrite !replay_app.
  change (FS.replay [FS.Sys_rename ?a ?b] ?fs)
    with (FS.perform (FS.Sys_rename a b) fs).
  cbn [FS.perform].
  rewrite (replay_writes _ _ _ []) by (cbn; by rewrite lookup_insert_eq).
  by rewrite lookup_insert_ne, lookup_delete_eq.
Qed.

Lemma write_state_failures (guc : option string) (lines : list string)
    (d : FS.disk string) :
  (String.length (data_dir_of guc) + 24 < MAXPGPATH)%nat ->
  let d' := write_state guc lines d in
  (FS.fopen_w_fails d (temppath guc) = true -> d' = d) /\
  (FS.fopen_w_fails d (temppath guc) = false ->
   FS.fwrite_fails d = false -> FS.rename_fails d = true ->
   FS.files d' !! filepath guc = FS.files d !! filepath guc /\
   FS.files d' !! temppath guc = None) /\
  (FS.fopen_w_fails d (temppath guc) = false ->
   FS.fwrite_fails d = true -> FS.rename_fails d = false ->
   FS.files d' !! filepath guc = Some [] /\
   FS.files d' !! temppath guc = None).
Proof.
  intros Hshort d'. pose proof (temppath_fresh guc Hshort) as Hne.
  subst d'. unfold write_state, FS.fopen_w.
  split; [by intros ->|]. split.
  - intros -> Hwrite Hrename. cbn [negb].
    set (d1 := FS.call (FS.Sys_creat (temppath guc)) d).
    destruct (fprintf_all_spec (temppath guc) lines d1 Hwrite)
      as (Hf & _ & _ & Hr & _).
    unfold FS.rename. rewrite Hr. cbn [FS.rename_fails d1 FS.call].
    rewrite Hrename. cbn [negb FS.unlink FS.call FS.files FS.perform].
    rewrite lookup_delete_ne, lookup_delete_eq by done.
    split; [|done]. rewrite Hf.
    rewrite replay_other
      by (apply Forall_fmap, Forall_forall; by intros l _).
    cbn. by rewrite lookup_insert_ne.
  - intros -> Hwrite Hrename. cbn [negb].
    rewrite fprintf_all_fails by done.
    unfold FS.rename. cbn [FS.rename_fails FS.call]. rewrite Hrename.
    cbn [FS.files FS.call FS.perform]. rewrite lookup_insert_eq.
    cbn [negb FS.files FS.call FS.perform]. rewrite lookup_insert_eq.
    rewrite lookup_insert_eq.
    by rewrite lookup_insert_ne, lookup_delete_eq.
Qed.

(** X29. Both writers of the cluster state file replace it atomically.  On
    a disk where no call fails and with a data directory short enough for
    the two paths, the state file holds the new content when the writer
    returns and the temporary file is gone; and whatever the number of calls
    completed when the process dies, the state file holds either what it
    held before or the whole new content. *)
Theorem state_writers_crash_safe (guc : option string)
    (leader_id term node_id : Z) (nodes_json : string) (now : Z)
    (d : FS.disk string) :
  healthy d ->
  (String.length (data_dir_of guc) + 24 < MAXPGPATH)%nat ->
  let d1 := pgraft_write_state_to_file guc leader_id term node_id now d in
  let d2 := pgraft_write_state_to_file_with_nodes guc leader_id term node_id
              nodes_json now d in
  (FS.files d1 !! filepath guc = Some (state_lines leader_id term node_id now) /\
   FS.files d1 !! temppath guc = None /\
   forall fs, fs ∈ FS.crash_states (FS.calls_between d d1) (FS.files d) ->
     fs !! filepath guc = FS.files d !! filepath guc \/
     fs !! filepath guc = Some (state_lines leader_id term node_id now)) /\
  (FS.files d2 !! filepath guc
   = Some (state_lines_with_nodes leader_id term node_id nodes_json now) /\
   FS.files d2 !! temppath guc = None /\
   forall fs, fs ∈ FS.crash_states (FS.calls_between d d2) (FS.files d) ->
     fs !! filepath guc = FS.files d !! filepath guc \/
     fs !! filepath guc
     = Some (state_lines_with_nodes leader_id term node_id nodes_json now)).
Proof.
  intros Hd Hshort d1 d2. split; by apply write_state_done.
Qed.

Lemma state_writers_crash_safe_witness :
  let d0 := FS.mk_disk ∅ [] (fun _ => false) false false in
  let d1 := pgraft_write_state_to_file None 1 3 1 1700000000 d0 in
  let d2 := pgraft_write_state_to_file None 2 4 1 1700000060 d1 in
  FS.files d2 !! filepath None = Some (state_lines 2 4 1 1700000060) /\
  forall fs, fs ∈ FS.crash_states (FS.calls_between d1 d2) (FS.files d1) ->
    fs !! filepath None = Some (state_lines 1 3 1 1700000000) \/
    fs !! filepath None = Some (state_lines 2 4 1 1700000060).
Proof.
  intros d0 d1 d2.
  destruct (state_writers_crash_safe None 2 4 1 "[]" 1700000060 d1)
    as [(Hfinal & _ & Hcrash) _];
    [split; [intros p; reflexivity|split; reflexivity]|by_compute|].
  split; [exact Hfinal|]. intros fs Hfs.
  destruct (Hcrash fs Hfs) as [Hold|Hnew]; [left|right; exact Hnew].
  rewrite Hold. vm_compute. reflexivity.
Defined.

(** X30. What the writers of the cluster state file do when a call fails.
    When the temporary file cannot be opened nothing is written.  When the
    rename fails the temporary file is removed and the state file keeps its
    content.  When the writes fail the results of fprintf are not looked at
    and the rename goes ahead: the state file is replaced by an empty
    file. *)
Theorem state_writer_failures (guc : option string)
    (leader_id term node_id : Z) (nodes_json : string) (now : Z)
    (d : FS.disk string) :
  (String.length (data_dir_of guc) + 24 < MAXPGPATH)%nat ->
  let d1 := pgraft_write_state_to_file guc leader_id term node_id now d in
  let d2 := pgraft_write_state_to_file_with_nodes guc leader_id term node_id
              nodes_json now d in
  (FS.fopen_w_fails d (temppath guc) = true -> d1 = d /\ d2 = d) /\
  (FS.fopen_w_fails d (temppath guc) = false ->
   FS.fwrite_fails d = false -> FS.rename_fails d = true ->
   FS.files d1 !! filepath guc = FS.files d !! filepath guc /\
   FS.files d1 !! temppath guc = None /\
   FS.files d2 !! filepath guc = FS.files d !! filepath guc /\
   FS.files d2 !! temppath guc = None) /\
  (FS.fopen_w_fails d (temppath guc) = false ->
   FS.fwrite_fails d = true -> FS.rename_fails d = false ->
   FS.files d1 !! filepath guc = Some [] /\
   FS.files d2 !! filepath guc = Some []).
Proof.
  intros Hshort d1 d2.
  destruct (write_state_failures guc (state_lines leader_id term node_id now)
              d Hshort) as (Ha1 & Hb1 & Hc1).
  destruct (write_state_failures guc
              (state_lines_with_nodes leader_id term node_id nodes_json now)
              d Hshort) as (Ha2 & Hb2 & Hc2).
  split; [intros Ho; split; [by apply Ha1|by apply Ha2]|]. split.
  - intros Ho Hw Hr. destruct (Hb1 Ho Hw Hr) as [? ?].
    destruct (Hb2 Ho Hw Hr) as [? ?]. done.
  - intros Ho Hw Hr. destruct (Hc1 Ho Hw Hr) as [? _].
    destruct (Hc2 Ho Hw Hr) as [? _]. done.
Qed.

Lemma state_writer_failures_witness :
  let d0 := FS.mk_disk ∅ [] (fun _ => false) false false in
  let d1 := pgraft_write_state_to_file None 1 3 1 1700000000 d0 in
  let full := FS.mk_disk (FS.files d1) [] (fun _ => false) true false in
  FS.files d1 !! filepath None = Some (state_lines 1 3 1 1700000000) /\
  FS.files (pgraft_write_state_to_file None 2 4 1 1700000060 full)
    !! filepath None = Some [].
Proof.
  intros d0 d1 full.
  destruct (state_writer_failures None 2 4 1 "[]" 1700000060 full)
    as (_ & _ & Hfull); [by_compute|].
  split; [vm_compute; reflexivity|].
  apply Hfull; reflexivity.
Defined.

End StateFileMore.

Module ApplyFacts.
Import Apply.

Local Open Scope Z_scope.

Section with_host.
Context `{pgraft_core_h} `{host}.

(** On such a payload the pipeline is pgraft_kv_put with log index 0,
    followed by the record of the index in the worker state. *)
Lemma apply_put_entry (w : apply_world) (kv' : KV.kv_world) (n : Z)
    (data : string) (k v : string) (now : Z) :
  reads_as_put data k v ->
  KV.pgraft_kv_put (Some k) (Some v) 0 now (kv w) = (Ret 0, kv') ->
  pgraft_apply_entry_to_postgres n data now w
  = (Ret 0,
     mk_apply_world kv' (Queue.set_last_applied_index n (worker w))
                    (executed w)).
Proof.
  intros [[rest ->] (obj & Hparse & Htype & Hkey & Hvalue)] Hput.
  assert (Hop : pgraft_json_parse_kv_operation (String "{"%char rest)
                = Ret (0, KV.PGRAFT_KV_PUT, Some k, Some v)).
  { unfold pgraft_json_parse_kv_operation.
    by rewrite Hparse, Htype, Hkey, Hvalue. }
  assert (Hkv : pgraft_apply_kv_operation n (String "{"%char rest) now (kv w)
                = (Ret 0, kv')).
  { unfold pgraft_apply_kv_operation. rewrite Hop.
    rewrite bool_decide_eq_false_2 by (intros Hrc; by apply Hrc).
    rewrite bool_decide_eq_true_2 by done.
    unfold KV.pgraft_kv_put_local, report. by rewrite Hput. }
  unfold pgraft_apply_entry_to_postgres. by rewrite Hkv.
Qed.

(** C1, as the code has it.  The pipeline does not compare the index of an
    entry with the applied index.  A put that is delivered for an index at
    or below the applied index, for a key that is live, is executed like any
    other: the call succeeds, the version of the key goes up by one again,
    the put counter too, and the applied index is set to the index of the
    entry. *)
Theorem redelivered_put_applied_again (w : apply_world)
    (store : KV.pgraft_kv_store_t) (n : Z) (data : string) (k v : string)
    (now : Z) (i : nat) (e : KV.pgraft_kv_entry_t) :
  reads_as_put data k v ->
  KV.g_kv_store (kv w) = Some store -> KV.well_formed store ->
  (String.length k < 256)%nat -> (String.length v < 1024)%nat ->
  KV.live_entry store k = Some (i, e) ->
  0 <= KV.version e < INT64_MAX ->
  n <= pgraft_get_applied_index w ->
  exists w' s',
    pgraft_apply_entry_to_postgres n data now w = (Ret 0, w') /\
    KV.g_kv_store (kv w') = Some s' /\
    KV.live_version s' k = Some (KV.version e + 1) /\
    KV.puts s' = wrap64 (KV.puts store + 1) /\
    pgraft_get_applied_index w' = n.
Proof.
  intros Hdata Hs Hwf Hk Hv Hlive Hver _.
  destruct (KVFacts.put_live (kv w) store k v 0 now i e)
    as (kv' & s' & Hput & Hs' & Hl & _ & Hputs & _); try done.
  eexists _, s'. split; [by eapply apply_put_entry|].
  split; [done|]. split; [|done].
  unfold KV.live_version. by rewrite Hl.
Qed.

End with_host.

Lemma put_alpha_reads_as_put : reads_as_put put_alpha "alpha" "1".
Proof.
  split; [by eexists|].
  eexists. split; [vm_compute; reflexivity|]. by repeat split.
Qed.

Lemma redelivered_put_applied_again_witness :
  pgraft_get_applied_index apply_w1 = 5 /\
  exists w' s',
    pgraft_apply_entry_to_postgres 5 put_alpha 101 apply_w1 = (Ret 0, w') /\
    KV.g_kv_store (kv w') = Some s' /\
    KV.live_version s' "alpha" = Some 2.
Proof.
  split; [reflexivity|].
  destruct (redelivered_put_applied_again apply_w1 (store_of (kv apply_w1)) 5
              put_alpha "alpha" "1" 101 0
              (KV.mk_entry "alpha" "1" 1 100 100 0 false))
    as (w' & s' & Hrun & Hs' & Hv & _).
  - exact put_alpha_reads_as_put.
  - reflexivity.
  - split; by_compute.
  - by_compute.
  - by_compute.
  - vm_compute; reflexivity.
  - by_compute.
  - by_compute.
  - by exists w', s'.
Defined.

(** C1 as stated fails: the entry of index 5 is applied, then delivered
    again; the second call returns 0 and the store is not the one from
    before: alpha went from version 1 to version 2. *)
Lemma redelivery_mutates_again : ~ redelivery_is_noop.
Proof.
  intros Hclaim.
  destruct (Hclaim apply_w0 apply_w1 5 put_alpha 100 101) as [_ Hsame].
  - vm_compute; reflexivity.
  - by_compute.
  - assert (Hv : KV.live_version (store_of (kv apply_w2)) "alpha"
                 = KV.live_version (store_of (kv apply_w1)) "alpha").
    { unfold store_of. fold apply_w2 in Hsame. by rewrite Hsame. }
    vm_compute in Hv. discriminate Hv.
Qed.

(** C2 on a concrete entry.  The put of alpha = 1 carried by index 5 is
    applied to an empty store: the call returns 0, a get returns "1" with
    version 1 and the worker state records index 5, but the
    last_applied_index of the KV store is 0, because pgraft_kv_put_local
    passes 0 as the log index.  pgraft_kv_apply_log_entry, which passes the
    index on, leaves 5 there. *)
Lemma applied_put_store_index_is_zero :
  let r := pgraft_apply_entry_to_postgres 5 put_alpha 100 apply_w0 in
  let direct :=
    KV.pgraft_kv_apply_log_entry
      (Some (KV.mk_log_entry KV.PGRAFT_KV_PUT "alpha" "1" 1700000000 "pg_1"))
      5 100 kv_w0 in
  r.1 = Ret 0 /\
  (KV.pgraft_kv_get (Some "alpha") 1024 (kv r.2)).1 = (Ret 0, Some ("1", 1)) /\
  pgraft_get_applied_index r.2 = 5 /\
  KV.last_applied_index (store_of (kv r.2)) = 0 /\
  KV.last_applied_index (store_of direct.2) = 5.
Proof. repeat split; vm_compute; reflexivity. Qed.

(** The same for every index and every fresh key. *)
Lemma applied_put_store_index (w : apply_world)
    (store : KV.pgraft_kv_store_t) (n : Z) (data : string) (k v : string)
    (now : Z) :
  reads_as_put data k v ->
  KV.g_kv_store (kv w) = Some store -> KV.well_formed store ->
  (String.length k < 256)%nat -> (String.length v < 1024)%nat ->
  KV.live_entry store k = None -> KV.num_entries store < KV.KV_CAPACITY ->
  exists w' s',
    pgraft_apply_entry_to_postgres n data now w = (Ret 0, w') /\
    KV.g_kv_store (kv w') = Some s' /\
    KV.live_version s' k = Some 1 /\
    pgraft_get_applied_index w' = n /\
    KV.last_applied_index s' = 0.
Proof.
  intros Hdata Hs Hwf Hk Hv Hlive Hroom.
  destruct (KVFacts.put_fresh (kv w) store k v 0 now)
    as (kv' & s' & Hput & Hs' & _ & Hl & _ & Hidx); try done.
  eexists _, s'. split; [by eapply apply_put_entry|].
  split; [done|]. split; [|done].
  unfold KV.live_version. by rewrite Hl.
Qed.

(** An entry in the positional format is handed to SPI and its index is
    recorded; one with fewer than six fields is refused and nothing is
    recorded. *)
Example positional_entry_applied :
  let good := pgraft_apply_entry_to_postgres 7
                "7|1|1|postgres|public|INSERT INTO t VALUES (1)" 103 apply_w1 in
  let short := pgraft_apply_entry_to_postgres 8 "8|1|1|postgres" 104 good.2 in
  good.1 = Ret 0 /\ executed good.2 = ["INSERT INTO t VALUES (1)"] /\
  pgraft_get_applied_index good.2 = 7 /\
  short.1 = Ret (-1) /\ pgraft_get_applied_index short.2 = 7.
Proof. vm_compute. by repeat split. Qed.

End ApplyFacts.
Module ApplyMore.
Import Apply.

Local Open Scope Z_scope.

Section with_host.
Context `{pgraft_core_h} `{host}.





(** X28. A replicated delete.  On a payload that reads as a delete of a key
    the pipeline is pgraft_kv_delete with log index 0.  When the key has a
    live entry, the call returns 0, the entry becomes a tombstone with its
    version raised by one (in int64_t), the index of the entry is recorded
    in the worker state, and last_applied_index of the store is set to 0.
    When the key has no live entry the call raises an error, and neither
    the store nor the applied index changes. *)
Theorem apply_delete_entry (w : apply_world) (store : KV.pgraft_kv_store_t)
    (idx : Z) (data : string) (k : string) (now : Z) :
  reads_as_delete data k ->
  KV.g_kv_store (kv w) = Some store -> KV.well_formed store ->
  match KV.live_entry store k with
  | Some (i, e) =>
      exists w' s',
        pgraft_apply_entry_to_postgres idx data now w = (Ret 0, w') /\
        pgraft_get_applied_index w' = idx /\
        KV.g_kv_store (kv w') = Some s' /\
        KV.entries s' !! i
        = Some (KV.mk_entry k (KV.value e) (wrap64 (KV.version e + 1))
                            (KV.created_at e) now 0 true) /\
        KV.last_applied_index s' = 0 /\
        KV.pgraft_kv_exists (Some k) (kv w) = true
  | None =>
      pgraft_apply_entry_to_postgres idx data now w
      = (Raise "failed to apply KV DELETE operation", w)
  end.
Proof.
  intros [[rest ->] (obj & Hparse & Htype & Hkey)] Hs Hwf.
  assert (Hop : pgraft_json_parse_kv_operation (String "{"%char rest)
                = Ret (0, KV.PGRAFT_KV_DELETE, Some k, None)).
  { unfold pgraft_json_parse_kv_operation.
    rewrite Hparse, Htype, Hkey. cbn.
    rewrite bool_decide_eq_false_2 by done.
    by rewrite bool_decide_eq_true_2 by done. }
  unfold pgraft_apply_entry_to_postgres, pgraft_apply_kv_operation.
  rewrite Hop.
  rewrite bool_decide_eq_false_2 by (intros Hrc; by apply Hrc).
  rewrite bool_decide_eq_false_2 by done.
  rewrite bool_decide_eq_true_2 by done.
  unfold KV.pgraft_kv_delete_local, report.
  destruct (KV.live_entry store k) as [[i e]|] eqn:Hlive.
  - destruct (KV.pgraft_kv_delete (Some k) 0 now (kv w)) as [r kv'] eqn:Hdel.
    assert (Hr : r = Ret 0).
    { revert Hdel. unfold KV.pgraft_kv_delete. rewrite Hs.
      rewrite KVFacts.find_entry_index_spec, Hlive by done.
      cbn [from_option fst]. rewrite bool_decide_eq_false_2 by lia.
      by intros [= <- _]. }
    subst r.
    destruct (KVMore.delete_shape _ _ _ _ _ _ Hs Hwf Hdel)
      as (i' & e' & Hlive' & _ & Hshape).
    rewrite Hlive in Hlive'. injection Hlive' as <- <-.
    destruct (KVFacts.live_entry_lookup _ _ _ _ Hlive) as (Hi & _).
    cbn. eexists _, _. split; [reflexivity|]. split; [done|].
    cbn. split; [exact Hshape|]. cbn.
    split; [apply list_lookup_insert_eq; by eapply lookup_lt_Some|].
    split; [done|].
    rewrite (KVMore.exists_spec _ _ _ Hs Hwf), Hlive.
    apply bool_decide_eq_true_2. by eexists.
  - rewrite (KVFacts.delete_missing _ _ _ _ _ Hs Hwf Hlive). cbn.
    by destruct w.
Qed.

End with_host.

Lemma delete_alpha_reads_as_delete : reads_as_delete delete_alpha "alpha".
Proof.
  split; [by eexists|].
  eexists. split; [vm_compute; reflexivity|]. by repeat split.
Qed.

Lemma apply_delete_entry_witness :
  (exists w',
     pgraft_apply_entry_to_postgres 6 delete_alpha 101 apply_w1 = (Ret 0, w') /\
     pgraft_get_applied_index w' = 6 /\
     KV.pgraft_kv_exists (Some "alpha") (kv w') = false) /\
  pgraft_apply_entry_to_postgres 6 delete_alpha 101 apply_w0
  = (Raise "failed to apply KV DELETE operation", apply_w0).
Proof.
  pose proof (apply_delete_entry apply_w1 (store_of (kv apply_w1)) 6
                delete_alpha "alpha" 101) as Hlive.
  pose proof (apply_delete_entry apply_w0 (store_of (kv apply_w0)) 6
                delete_alpha "alpha" 101) as Hgone.
  assert (Hf : KV.live_entry (store_of (kv apply_w1)) "alpha"
               = Some (0%nat, KV.mk_entry "alpha" "1" 1 100 100 0 false))
    by (vm_compute; reflexivity).
  assert (Hn : KV.live_entry (store_of (kv apply_w0)) "alpha" = None)
    by (vm_compute; reflexivity).
  rewrite Hf in Hlive. rewrite Hn in Hgone.
  split.
  - destruct Hlive as (w' & s' & Hrun & Hidx & _);
      [exact delete_alpha_reads_as_delete|reflexivity|split; by_compute|].
    exists w'. split; [exact Hrun|]. split; [exact Hidx|].
    apply (f_equal snd) in Hrun. cbn [snd] in Hrun. rewrite <- Hrun.
    vm_compute. reflexivity.
  - apply Hgone;
      [exact delete_alpha_reads_as_delete|reflexivity|split; by_compute].
Defined.

End ApplyMore.
